(** * Job orchestration core of the FaceFusion API server

    A shallow embedding of the orchestration code of
    [facefusion-api-src/app/fastapi_server.py]: the RunPod endpoint client
    ([RunPodEndpoint]), the Redis-backed task store with its filesystem
    mirror ([JobStore]) and the pipeline engine ([JobManager._execute]).

    Modelling conventions.
    - A Python [str] is a Rocq [string] whose characters are the code
      points U+0000 to U+00FF; [isalnum], [isspace], [repr] and [upper]
      follow Python on that range, but for the two characters whose
      capital lies above U+00FF (see [upper_char]).
    - Python values are the inductive [value]; numbers are integers (a
      float such as a timestamp is an integer quantity of the same unit).
    - A dict is an association list in insertion order.
    - Text handed to [json.loads] is a [blob]: text that does not parse,
      the value it parses to, or content whose reading fails otherwise
      (bytes that are not UTF-8, a number of more digits than [int]
      converts).  [json.dumps] followed by [json.loads] is the identity
      on sanitised values.
    - Effects are explicit: a state and error monad [M] over a [world]
      holding the cache, the persistence directory, the number of clock
      reads and the trace of every observable operation.
    - The file system refuses a file name of more than 255 bytes with an
      [OSError]; a disk that is full or may not be written, and task
      cancellation, are not modelled.
    - An HTTP round trip is an oracle of the endpoint; a URL that httpx
      refuses ([InvalidURL]) is one of its answers, and the answer for
      every job ID that holds an ASCII control character. *)

From Stdlib Require Import ZArith String Ascii List Lia Bool Sorted.
From stdpp Require Import gmap strings list pretty.

Open Scope Z_scope.
Set Warnings "-register-all".

(** ** Python values *)

Inductive value : Type :=
| VNone
| VBool (b : bool)
| VNum (n : Z)
| VStr (s : string)
| VList (l : list value)
| VTuple (l : list value)
| VDict (d : list (string * value))
| VObj (repr : string).

Abbreviation dict := (list (string * value)).

(** Exceptions: [RuntimeError] with its arguments; an instance of a class
    derived from it ([NotImplementedError], [RecursionError], ...) with
    the name of the class and its arguments; and every class that does
    not derive from [RuntimeError] by name, with the text of [str(exc)].
    Message texts of built-in errors are indicative. *)
Inductive exn : Type :=
| RuntimeError (args : list value)
| Error (cls : string) (msg : string)
| RuntimeSub (cls : string) (args : list value).

Definition is_dict (v : value) : bool :=
  match v with VDict _ => true | _ => false end.

Definition is_list (v : value) : bool :=
  match v with VList _ => true | _ => false end.

Definition is_str (v : value) : bool :=
  match v with VStr _ => true | _ => false end.

(** [bool(v)] *)
Definition truthy (v : value) : bool :=
  match v with
  | VNone => false
  | VBool b => b
  | VNum n => negb (n =? 0)
  | VStr s => negb (s =? "")%string
  | VList l | VTuple l => match l with [] => false | _ => true end
  | VDict d => match d with [] => false | _ => true end
  | VObj _ => true
  end.

(** [a or b] *)
Definition py_or (a b : value) : value := if truthy a then a else b.

(** *** Dictionaries *)

Fixpoint dict_get (k : string) (d : dict) : option value :=
  match d with
  | [] => None
  | (k', v) :: d' => if (k =? k')%string then Some v else dict_get k d'
  end.

(** [d.get(k)] *)
Definition get_or_none (k : string) (d : dict) : value :=
  default VNone (dict_get k d).

(** [d[k] = v]: an existing key keeps its position, a new one goes last. *)
Fixpoint dict_set (k : string) (v : value) (d : dict) : dict :=
  match d with
  | [] => [(k, v)]
  | (k', v') :: d' =>
      if (k =? k')%string then (k, v) :: d' else (k', v') :: dict_set k v d'
  end.

(** [d.update(u)] *)
Definition dict_update (d u : dict) : dict :=
  fold_left (fun acc kv => dict_set kv.1 kv.2 acc) u d.

(** [d.pop(k, None)], for its effect on [d] *)
Fixpoint dict_pop (k : string) (d : dict) : dict :=
  match d with
  | [] => []
  | (k', v') :: d' =>
      if (k =? k')%string then d' else (k', v') :: dict_pop k d'
  end.

(** *** Characters and strings *)

Definition code (c : ascii) : N := N_of_ascii c.

Definition between (lo hi : N) (c : ascii) : bool :=
  ((lo <=? code c) && (code c <=? hi))%N.

Definition is_ascii_alnum (c : ascii) : bool :=
  between 48 57 c || between 65 90 c || between 97 122 c.

(** [str.isalnum] on one character: letters and numeric characters of
    Unicode; above U+007F these are the ordinal indicators, the
    superscript digits, the micro sign, the vulgar fractions and the
    accented letters. *)
Definition isalnum (c : ascii) : bool :=
  is_ascii_alnum c
  || (code c =? 170)%N || between 178 179 c || (code c =? 181)%N
  || between 185 186 c || between 188 190 c
  || between 192 214 c || between 216 246 c || between 248 255 c.

(** [str.isspace] on one character *)
Definition isspace (c : ascii) : bool :=
  between 9 13 c || between 28 32 c || (code c =? 133)%N || (code c =? 160)%N.

Fixpoint lstrip (s : string) : string :=
  match s with
  | String c s' => if isspace c then lstrip s' else s
  | EmptyString => EmptyString
  end.

Fixpoint rstrip_with (p : ascii -> bool) (s : string) : string :=
  match s with
  | String c s' =>
      match rstrip_with p s' with
      | EmptyString => if p c then EmptyString else String c EmptyString
      | r => String c r
      end
  | EmptyString => EmptyString
  end.

(** [s.strip()] *)
Definition strip (s : string) : string := rstrip_with isspace (lstrip s).

(** [str.upper] on one character.  The sharp s becomes two letters; the
    capitals of the micro sign and of y with diaeresis lie above U+00FF
    and these two characters are left as they are (neither is ASCII). *)
Definition upper_char (c : ascii) : string :=
  if between 97 122 c || (between 224 254 c && negb (code c =? 247)%N)
  then String (ascii_of_N (code c - 32)) EmptyString
  else if (code c =? 223)%N then "SS"%string
  else String c EmptyString.

Fixpoint upper (s : string) : string :=
  match s with
  | String c s' => upper_char c +:+ upper s'
  | EmptyString => EmptyString
  end.

Definition str_all (p : ascii -> bool) (s : string) : bool :=
  forallb p (list_ascii_of_string s).

Definition filter_str (p : ascii -> bool) (s : string) : string :=
  string_of_list_ascii (List.filter p (list_ascii_of_string s)).

(** [sep.join(items)] *)
Fixpoint join (sep : string) (items : list string) : string :=
  match items with
  | [] => EmptyString
  | [x] => x
  | x :: rest => x +:+ sep +:+ join sep rest
  end.

(** The characters U+005C, U+0022 and U+0027 *)
Definition backslash : ascii := ascii_of_N 92.

Definition double_quote : ascii := ascii_of_N 34.

Definition single_quote : ascii := ascii_of_N 39.

(** [str.isprintable] on one character: above U+007F everything but the
    C1 controls, the no-break space and the soft hyphen. *)
Definition isprintable (c : ascii) : bool :=
  between 32 126 c || (between 161 255 c && negb (code c =? 173)%N).

Definition hex_digit (n : N) : ascii :=
  ascii_of_N (if (n <? 10)%N then 48 + n else 87 + n).

(** One character inside [repr(s)], between the quotes [quote]. *)
Definition repr_char (quote c : ascii) : string :=
  if Ascii.eqb c quote || Ascii.eqb c backslash then String backslash (String c EmptyString)
  else if (code c =? 9)%N then String backslash "t"
  else if (code c =? 10)%N then String backslash "n"
  else if (code c =? 13)%N then String backslash "r"
  else if isprintable c then String c EmptyString
  else String backslash (String "x" (String (hex_digit (code c / 16))
                                        (String (hex_digit (code c mod 16)) EmptyString))).

Fixpoint repr_chars (quote : ascii) (s : string) : string :=
  match s with
  | String c s' => repr_char quote c +:+ repr_chars quote s'
  | EmptyString => EmptyString
  end.

Definition has_char (c : ascii) (s : string) : bool :=
  existsb (Ascii.eqb c) (list_ascii_of_string s).

(** [repr(s)]: single quotes, or double quotes when [s] holds a single
    quote and no double one; the quote in use, the backslash and what is
    not printable are escaped. *)
Definition repr_str (s : string) : string :=
  let quote := if has_char single_quote s && negb (has_char double_quote s)
               then double_quote else single_quote in
  String quote (repr_chars quote s) +:+ String quote EmptyString.

(** [repr] and [str] *)
Fixpoint py_repr (v : value) : string :=
  match v with
  | VNone => "None"
  | VBool true => "True"
  | VBool false => "False"
  | VNum n => pretty n
  | VStr s => repr_str s
  | VList l => "[" +:+ join ", " (List.map py_repr l) +:+ "]"
  | VTuple [x] => "(" +:+ py_repr x +:+ ",)"
  | VTuple l => "(" +:+ join ", " (List.map py_repr l) +:+ ")"
  | VDict d =>
      "{" +:+ join ", " (List.map (fun kv => repr_str kv.1 +:+ ": " +:+ py_repr kv.2) d) +:+ "}"
  | VObj r => r
  end%string.

Definition py_str (v : value) : string :=
  match v with
  | VStr s => s
  | _ => py_repr v
  end.

(** ** JSON sanitation: [_json_safe]

    Tuples become lists and any other object its [repr]; bytes, sets and
    pydantic models do not occur among the values of this model.  Values
    are trees, so no object is met twice on one path and the [<circular>]
    sentinel of the source never fires here; the one place where the
    engine ties a cycle is spelled out in [attach_intermediate_shared]. *)
Fixpoint _json_safe (v : value) : value :=
  match v with
  | VNone | VBool _ | VNum _ | VStr _ => v
  | VList l | VTuple l => VList (List.map _json_safe l)
  | VDict d => VDict (List.map (fun kv => (kv.1, _json_safe kv.2)) d)
  | VObj r => VStr r
  end.

Definition json_safe_dict (d : dict) : dict :=
  List.map (fun kv => (kv.1, _json_safe kv.2)) d.

(** ** The world and the monad *)

(** What makes content unreadable other than not being JSON: bytes that
    are not UTF-8, for which decoding raises [UnicodeDecodeError], and a
    number of more digits than [int] converts, for which [json.loads]
    raises [ValueError]. *)
Inductive misread : Type := NotText | HugeNumber.

(** Text given to [json.loads], or the bytes a reader of text finds:
    [Garbled] is text that is not JSON ([JSONDecodeError]), [Json v]
    text that parses to [v]. *)
Inductive blob : Type :=
| Garbled
| Json (v : value)
| Unreadable (m : misread).

Definition misread_error (m : misread) : exn :=
  Error (match m with NotText => "UnicodeDecodeError" | HugeNumber => "ValueError" end)
        (match m with
         | NotText => "'utf-8' codec can't decode byte"
         | HugeNumber => "Exceeds the limit (4300 digits) for integer string conversion"
         end).

(** [json.loads] of content that was read as text *)
Definition parse (b : blob) : exn + value :=
  match b with
  | Garbled => inl (Error "JSONDecodeError" "Expecting value")
  | Json v => inr v
  | Unreadable m => inl (misread_error m)
  end.

Inductive stage : Type := Sovits | Wav2Lip | FaceFusion.

(** Observable operations, in the order they happen.  [DiskStat] is a
    call of [path.exists()], answered or not; [DiskWrite] a backup that
    was written; [Submit] and [Poll] are the calls of [submit] and of
    [status]. *)
Inductive event : Type :=
| CacheGet (key : string)
| CacheSet (key : string) (payload : value) (ex : Z)
| DiskStat (file : string)
| DiskRead (file : string)
| DiskWrite (file : string) (content : value)
| DiskPurge (file : string)
| Submit (s : stage) (payload : value)
| Poll (s : stage) (job_id : string).

(** [cache] is the Redis keyspace (text and the [ex] it was set with),
    [disk] the files of the persistence directory by name, [ticks] the
    number of wall-clock reads made so far. *)
Record world : Type := World {
  cache : gmap string (blob * Z);
  disk : gmap string blob;
  ticks : nat;
  trace : list event
}.

Inductive outcome (A : Type) : Type :=
| Ret (a : A)
| Raise (e : exn)
| Pending.
Arguments Ret {A} a.
Arguments Raise {A} e.
Arguments Pending {A}.

Definition M (A : Type) : Type := world -> outcome A * world.

Definition ret {A} (a : A) : M A := fun w => (Ret a, w).

Definition raise {A} (e : exn) : M A := fun w => (Raise e, w).

(** A poll loop that has used up its fuel is still running. *)
Definition pending {A} : M A := fun w => (Pending, w).

Definition bind {A B} (m : M A) (k : A -> M B) : M B :=
  fun w =>
    match m w with
    | (Ret a, w') => k a w'
    | (Raise e, w') => (Raise e, w')
    | (Pending, w') => (Pending, w')
    end.

(** [try: m except Exception as exc: h exc] *)
Definition try_except {A} (m : M A) (h : exn -> M A) : M A :=
  fun w =>
    match m w with
    | (Raise e, w') => h e w'
    | r => r
    end.

Notation "x <- m ;; k" := (bind m (fun x => k))
  (at level 100, m at next level, right associativity).
Notation "m ;; k" := (bind m (fun _ => k))
  (at level 100, right associativity).

Definition lift {A} (r : exn + A) : M A :=
  match r with inl e => raise e | inr a => ret a end.

Definition emit (e : event) : M unit :=
  fun w => (Ret tt, World (cache w) (disk w) (ticks w) (trace w ++ [e])).

Definition cache_get (key : string) : M (option blob) :=
  fun w => (Ret (fst <$> cache w !! key),
            World (cache w) (disk w) (ticks w) (trace w ++ [CacheGet key])).

(** [client.set(key, json.dumps(payload), ex=ex)] *)
Definition cache_set (key : string) (payload : value) (ex : Z) : M unit :=
  fun w => (Ret tt,
            World (<[key := (Json payload, ex)]> (cache w)) (disk w) (ticks w)
                  (trace w ++ [CacheSet key payload ex])).

(** The length of [os.fsencode(name)]: one byte for an ASCII character,
    two for any other. *)
Fixpoint fs_length (s : string) : nat :=
  match s with
  | String c s' => ((if (code c <? 128)%N then 1 else 2) + fs_length s')%nat
  | EmptyString => 0%nat
  end.

(** The file system takes no name of more than 255 bytes: every call on
    such a path fails with the [OSError] ENAMETOOLONG. *)
Definition too_long (file : string) : bool := (255 <? fs_length file)%nat.

Definition name_too_long : exn := Error "OSError" "[Errno 36] File name too long".

(** [path.exists()] and, when the file is there, what a reader finds *)
Definition disk_read (file : string) : M (option blob) :=
  fun w =>
    if too_long file
    then (Raise name_too_long,
          World (cache w) (disk w) (ticks w) (trace w ++ [DiskStat file]))
    else
      match disk w !! file with
      | None => (Ret None, World (cache w) (disk w) (ticks w) (trace w ++ [DiskStat file]))
      | Some b =>
          (Ret (Some b),
           World (cache w) (disk w) (ticks w) (trace w ++ [DiskStat file; DiskRead file]))
      end.

(** ** The task store: [JobStore] *)

Record JobStore : Type := {
  prefix : string;
  ttl : Z;
  persist_ttl : Z;
  persist_path : option string
}.

(** [JobStore.__init__]; [mkdir_ok] tells whether the directory could be
    made. *)
Definition JobStore_init (prefix : string) (ttl : Z) (persist_dir : option string)
    (persist_ttl : option Z) (mkdir_ok : bool) : JobStore :=
  {| prefix := rstrip_with (fun c => (code c =? 58)%N) prefix;
     ttl := ttl;
     persist_ttl := match persist_ttl with
                    | Some t => if t =? 0 then ttl else t
                    | None => ttl
                    end;
     persist_path := match persist_dir with
                     | Some d => if (d =? "")%string || negb mkdir_ok then None else Some d
                     | None => None
                     end |}.

Record Path : Type := { parent : string; name : string }.

Definition _key (st : JobStore) (task_id : string) : string :=
  prefix st +:+ ":" +:+ task_id.

(** What [for ch in task_id] yields. *)
Definition py_iter (v : value) : exn + list value :=
  match v with
  | VStr s => inr (List.map (fun c => VStr (String c EmptyString)) (list_ascii_of_string s))
  | VList l | VTuple l => inr l
  | VDict d => inr (List.map (fun kv => VStr kv.1) d)
  | _ => inl (Error "TypeError" "object is not iterable")
  end.

(** [ch.isalnum()] on a string of any length *)
Definition str_isalnum (ch : string) : bool :=
  negb (ch =? "")%string && str_all isalnum ch.

(** [ch.isalnum() or ch in "-_."]; [in] between strings looks for a
    substring. *)
Definition keep (ch : string) : bool :=
  str_isalnum ch
  || existsb (String.eqb ch) [""; "-"; "_"; "."; "-_"; "_."; "-_."]%string.

Fixpoint safe_parts (items : list value) : exn + list string :=
  match items with
  | [] => inr []
  | VStr ch :: rest =>
      match safe_parts rest with
      | inl e => inl e
      | inr r => inr (if keep ch then ch :: r else r)
      end
  | _ :: _ => inl (Error "AttributeError" "object has no attribute 'isalnum'")
  end.

Definition _backup_path (st : JobStore) (task_id : value) : exn + option Path :=
  match persist_path st with
  | None => inr None
  | Some dir =>
      match py_iter task_id with
      | inl e => inl e
      | inr items =>
          match safe_parts items with
          | inl e => inl e
          | inr parts =>
              let safe_id := join "" parts in
              let safe_id := if (safe_id =? "")%string then "task"%string else safe_id in
              inr (Some {| parent := dir; name := safe_id +:+ ".json" |})
          end
      end
  end.

(** [path.with_suffix(".tmp")] for a name that ends in [.json] *)
Definition tmp_name (p : Path) : string :=
  substring 0 (String.length (name p) - 5) (name p) +:+ ".tmp".

(** [path.unlink(missing_ok=True)], its [OSError] swallowed *)
Definition _purge_backup (p : Path) : M unit :=
  fun w => (Ret tt,
            World (cache w) (if too_long (name p) then disk w else delete (name p) (disk w))
                  (ticks w) (trace w ++ [DiskPurge (name p)])).

(** [x < y] where [x] was read from JSON: numbers and booleans compare,
    anything else is a [TypeError]. *)
Definition as_number (v : value) : option Z :=
  match v with
  | VNum n => Some n
  | VBool b => Some (if b then 1 else 0)
  | _ => None
  end.

(** One step of the loop of [update_fields] over [updates.items()]. *)
Definition apply_update (job : value) (kv : string * value) : exn + value :=
  let '(key, v) := kv in
  match job with
  | VDict d =>
      if (key =? "details")%string && is_dict v then
        match v, dict_get "details" d with
        | VDict u, None => inr (VDict (dict_set "details" (VDict (dict_update [] u)) d))
        | VDict u, Some (VDict old) => inr (VDict (dict_set "details" (VDict (dict_update old u)) d))
        | _, _ => inl (Error "AttributeError" "object has no attribute 'update'")
        end
      else if (key =? "progress")%string && is_list v then
        match v, dict_get "progress" d with
        | VList l, None => inr (VDict (dict_set "progress" (VList l) d))
        | VList l, Some (VList old) => inr (VDict (dict_set "progress" (VList (old ++ l)) d))
        | _, _ => inl (Error "AttributeError" "object has no attribute 'extend'")
        end
      else inr (VDict (dict_set key v d))
  | _ =>
      if ((key =? "details")%string && is_dict v) || ((key =? "progress")%string && is_list v)
      then inl (Error "AttributeError" "object has no attribute 'setdefault'")
      else inl (Error "TypeError" "object does not support item assignment")
  end.

Fixpoint apply_updates (job : value) (updates : dict) : exn + value :=
  match updates with
  | [] => inr job
  | kv :: rest =>
      match apply_update job kv with
      | inl e => inl e
      | inr job' => apply_updates job' rest
      end
  end.

(** ** Merging updates, field by field *)

(** Whether the existing field lets [update_fields] merge into it:
    [details] is merged into a dict and [progress] extends a list; a
    missing field is created. *)
Definition mergeable (old : option value) (key : string) (v : value) : bool :=
  if (key =? "details")%string && is_dict v then
    match old with None | Some (VDict _) => true | Some _ => false end
  else if (key =? "progress")%string && is_list v then
    match old with None | Some (VList _) => true | Some _ => false end
  else true.

Definition dict_of (old : option value) : dict :=
  match old with Some (VDict d) => d | _ => [] end.

Definition list_of (old : option value) : list value :=
  match old with Some (VList l) => l | _ => [] end.

(** What a field becomes under one update. *)
Definition merge_field (old : option value) (key : string) (v : value) : value :=
  match v with
  | VDict u => if (key =? "details")%string then VDict (dict_update (dict_of old) u) else v
  | VList l => if (key =? "progress")%string then VList (list_of old ++ l) else v
  | _ => v
  end.

(** One call of [append_progress]: message, stage, extra. *)
Definition progress_call : Type := string * option string * option dict.

(** The entry built by [append_progress]. *)
Definition progress_entry (timestamp message : string) (stage : option string)
    (extra : option dict) : dict :=
  let entry := [("timestamp", VStr timestamp); ("message", VStr message)]%string in
  let entry := match stage with
               | Some s => if truthy (VStr s) then dict_set "stage" (VStr s) entry else entry
               | None => entry
               end in
  match extra with
  | Some x => if truthy (VDict x) then dict_set "extra" (VDict x) entry else entry
  | None => entry
  end.

Section Store.

(** [wall n] is what the wall clock shows at the read number [n];
    [iso] is the ISO-8601 rendering of [_now_iso]. *)
Context (wall : nat -> Z) (iso : Z -> string).

(** [time.time()] *)
Definition time_time : M Z :=
  fun w => (Ret (wall (ticks w)), World (cache w) (disk w) (S (ticks w)) (trace w)).

Definition _now_iso : M string :=
  fun w => (Ret (iso (wall (ticks w))), World (cache w) (disk w) (S (ticks w)) (trace w)).

(** The temporary file is written, then moved over the backup; an
    [OSError] of either step is swallowed and the temporary file, when it
    is there, removed.  A temporary name that is too long is not written;
    when the name of the backup alone is too long the move fails. *)
Definition _write_backup (st : JobStore) (job : dict) : M unit :=
  path <- lift (_backup_path st (default (VStr "") (dict_get "task_id" job)));;
  match path with
  | None => ret tt
  | Some p =>
      now <- time_time;;
      let payload := VDict [("payload", VDict job); ("expires_at", VNum (now + persist_ttl st))]%string in
      fun w =>
        if too_long (tmp_name p) then (Ret tt, w)
        else if too_long (name p)
        then (Ret tt, World (cache w) (delete (tmp_name p) (disk w)) (ticks w) (trace w))
        else (Ret tt,
              World (cache w) (delete (tmp_name p) (<[name p := Json payload]> (disk w)))
                    (ticks w) (trace w ++ [DiskWrite (name p) payload]))
  end.

Definition _read_backup (st : JobStore) (task_id : string) : M value :=
  path <- lift (_backup_path st (VStr task_id));;
  match path with
  | None => ret VNone
  | Some p =>
      file <- disk_read (name p);;
      match file with
      | None => ret VNone
      | Some Garbled => _purge_backup p;; ret VNone
      | Some (Unreadable m) => raise (misread_error m)
      | Some (Json (VDict data)) =>
          let expires_at := get_or_none "expires_at" data in
          let payload := get_or_none "payload" data in
          expired <- (if truthy expires_at then
                        now <- time_time;;
                        match as_number expires_at with
                        | Some e => ret (e <? now)
                        | None => raise (Error "TypeError" "'<' not supported")
                        end
                      else ret false);;
          if (expired : bool) then _purge_backup p;; ret VNone
          else if negb (is_dict payload) then _purge_backup p;; ret VNone
          else ret payload
      | Some (Json _) => raise (Error "AttributeError" "object has no attribute 'get'")
      end
  end.

Definition write (st : JobStore) (job : dict) : M value :=
  let payload := json_safe_dict job in
  match dict_get "task_id" job with
  | None => raise (Error "KeyError" "'task_id'")
  | Some task_id =>
      cache_set (_key st (py_str task_id)) (VDict payload) (ttl st);;
      _write_backup st payload;;
      ret (VDict payload)
  end.

(** [None] is [VNone].  The client decodes its responses, so [raw] is
    text and the branch for bytes is not taken; an entry that is not
    UTF-8 fails in the client. *)
Definition get (st : JobStore) (task_id : string) : M value :=
  raw <- cache_get (_key st task_id);;
  match raw with
  | None =>
      payload <- _read_backup st task_id;;
      if negb (truthy payload) then ret VNone
      else cache_set (_key st task_id) payload (ttl st);; ret payload
  | Some Garbled => ret VNone
  | Some (Json v) => ret v
  | Some (Unreadable m) => raise (misread_error m)
  end.

Definition update_fields (st : JobStore) (task_id : string) (updates : dict) : M value :=
  job <- get st task_id;;
  if negb (truthy job) then ret VNone
  else
    job <- lift (apply_updates job updates);;
    now <- _now_iso;;
    match job with
    | VDict d => write st (dict_set "updated_at" (VStr now) d)
    | _ => raise (Error "TypeError" "object does not support item assignment")
    end.

Definition append_progress (st : JobStore) (task_id message : string)
    (stage : option string) (extra : option dict) : M unit :=
  now <- _now_iso;;
  update_fields st task_id [("progress", VList [VDict (progress_entry now message stage extra)])]%string;;
  ret tt.

(** A sequence of [append_progress] calls on one task. *)
Fixpoint append_all (st : JobStore) (task_id : string) (calls : list progress_call) : M unit :=
  match calls with
  | [] => ret tt
  | (message, stage, extra) :: rest =>
      append_progress st task_id message stage extra;;
      append_all st task_id rest
  end.

End Store.

(** ** The remote job client: [RunPodEndpoint] *)

(** What an HTTP round trip followed by [raise_for_status] comes to:
    [Failed msg] when [httpx.HTTPError] is raised with that text (a
    transport error or a status outside 2xx other than 405),
    [MethodNotAllowed msg] for status 405, [Success body] otherwise; and
    [Refused msg] when httpx does not take the URL and raises
    [httpx.InvalidURL], which is no [httpx.HTTPError], before a request
    leaves. *)
Inductive http_reply : Type :=
| Failed (msg : string)
| MethodNotAllowed (msg : string)
| Success (body : blob)
| Refused (msg : string).

(** One endpoint object as the engine sees it: the answers of the server
    and the monotonic clock of [wait].  [elapsed k] is
    [time.monotonic() - start] read after the poll number [k].  The
    operations below take the stage the endpoint serves, to label the
    trace. *)
Record RunPodEndpoint : Type := {
  post_run : value -> http_reply;
  get_status : string -> nat -> http_reply;
  post_status : string -> nat -> http_reply;
  elapsed : nat -> Z
}.

Definition error_payload (tag : string) (detail : value) : exn :=
  RuntimeError [VDict [("error", VStr tag); ("detail", detail)]%string].

(** [response.json()] *)
Definition response_json (body : blob) : exn + value := parse body.

Definition invalid_url (msg : string) : exn := Error "InvalidURL" msg.

Definition submit (s : stage) (ep : RunPodEndpoint) (payload : value) : M value :=
  emit (Submit s payload);;
  match post_run ep payload with
  | Failed msg | MethodNotAllowed msg =>
      raise (error_payload "runpod_submit_failed" (VStr msg))
  | Refused msg => raise (invalid_url msg)
  | Success body =>
      data <- lift (response_json body);;
      match data with
      | VDict d =>
          let job_id := py_or (py_or (get_or_none "id" d) (get_or_none "jobId" d))
                              (get_or_none "job_id" d) in
          if truthy job_id then ret job_id
          else raise (error_payload "runpod_submit_failed" data)
      | _ => raise (Error "AttributeError" "object has no attribute 'get'")
      end
  end.

(** [ch >= " " and ch != "\x7f"]; among the ASCII characters these are
    the printable ones. *)
Definition printable (c : ascii) : bool :=
  (32 <=? code c)%N && negb (code c =? 127)%N.

(** httpx takes no URL that holds an ASCII control character; the job ID
    is the part of the status URL that the server chose. *)
Definition url_refused (job_id : string) : bool := negb (str_all printable job_id).

Definition control_character : string := "Invalid non-printable ASCII character in URL".

(** What the poll number [k] of one [wait] comes to: a GET, and a POST
    with an empty body when the server answers 405. *)
Definition status_reply (ep : RunPodEndpoint) (job_id : string) (k : nat) : exn + value :=
  if url_refused job_id then inl (invalid_url control_character)
  else
    match get_status ep job_id k with
    | Failed msg => inl (error_payload "runpod_status_failed" (VStr msg))
    | Refused msg => inl (invalid_url msg)
    | Success body => response_json body
    | MethodNotAllowed _ =>
        match post_status ep job_id k with
        | Failed msg | MethodNotAllowed msg =>
            inl (error_payload "runpod_status_failed" (VStr msg))
        | Refused msg => inl (invalid_url msg)
        | Success body => response_json body
        end
    end.

Definition status (s : stage) (ep : RunPodEndpoint) (job_id : string) (k : nat) : M value :=
  emit (Poll s job_id);;
  lift (status_reply ep job_id k).

Definition success_tags : list string :=
  ["COMPLETED"; "COMPLETED_SUCCESS"; "SUCCEEDED"]%string.

Definition failure_tags : list string :=
  ["FAILED"; "FAILED_INTERNAL"; "CANCELLED"; "ERROR"]%string.

Definition tag_in (tags : list string) (state : string) : bool :=
  existsb (String.eqb state) tags.

(** [str(status.get("status") or status.get("state") or "").upper()] *)
Definition state_of (status : dict) : string :=
  upper (py_str (py_or (py_or (get_or_none "status" status) (get_or_none "state" status))
                       (VStr ""))).

(** What one iteration of [wait] makes of a polled status, before the
    timeout check. *)
Inductive verdict : Type :=
| Return (status : value)
| Fail (e : exn)
| Continue (state : string).

(** [isinstance(output, dict) and output.get("error")] *)
Definition output_error (output : value) : bool :=
  match output with
  | VDict o => truthy (get_or_none "error" o)
  | _ => false
  end.

Definition classify (status : dict) : verdict :=
  let output := get_or_none "output" status in
  let state := state_of status in
  if output_error output
  then Fail (error_payload "runpod_output_error" output)
  else if tag_in success_tags state || ((state =? "")%string && truthy output)
  then Return (VDict status)
  else if tag_in failure_tags state
  then Fail (error_payload "runpod_job_failed"
                           (if is_dict output then output else VDict status))
  else Continue state.

(** The tag of a structured error. *)
Definition error_tag (e : exn) : option string :=
  match e with
  | RuntimeError [VDict d] =>
      match dict_get "error" d with
      | Some (VStr tag) => Some tag
      | _ => None
      end
  | _ => None
  end.

(** [timeout and ...]: [None] and zero are falsy. *)
Definition timeout_set (timeout : option Z) : bool :=
  match timeout with
  | Some t => negb (t =? 0)
  | None => false
  end.

Definition timed_out (ep : RunPodEndpoint) (timeout : option Z) (k : nat) : bool :=
  match timeout with
  | Some t => negb (t =? 0) && (t <? elapsed ep k)
  | None => false
  end.

Definition timeout_error (job_id : value) (state : string) : exn :=
  error_payload "runpod_job_timeout"
                (VDict [("job_id", job_id); ("status", VStr state)]%string).

(** The loop of [wait] from the poll number [k] on; [fuel] bounds the
    polls that are followed.  The sleep between two polls has no effect
    here. *)
Fixpoint wait_from (fuel : nat) (s : stage) (ep : RunPodEndpoint) (job_id : value)
    (timeout : option Z) (k : nat) : M value :=
  match fuel with
  | O => pending
  | S fuel' =>
      st <- status s ep (py_str job_id) k;;
      match st with
      | VDict d =>
          match classify d with
          | Return s => ret s
          | Fail e => raise e
          | Continue state =>
              if timed_out ep timeout k then raise (timeout_error job_id state)
              else wait_from fuel' s ep job_id timeout (S k)
          end
      | _ => raise (Error "AttributeError" "object has no attribute 'get'")
      end
  end.

Definition wait (fuel : nat) (s : stage) (ep : RunPodEndpoint) (job_id : value)
    (timeout : option Z) : M value :=
  wait_from fuel s ep job_id timeout 0.

(** ** The pipeline engine: [JobManager] *)

(** [audio_key], [audio_base64] and [reference_audio_key] are rewritten by
    the engine with what the voice worker answered and are plain values;
    option records are kept as their [model_dump]. *)
Record PipelineRequest : Type := {
  source_keys : list string;
  target_key : option string;
  audio_key : value;
  audio_base64 : value;
  reference_audio_key : value;
  script_text : option string;
  output_key : option string;
  wav2lip_output_key : option string;
  sovits : dict;
  retain_intermediate : bool;
  wav2lip : dict;
  facefusion : dict
}.

Definition opt_str (o : option string) : value :=
  match o with Some s => VStr s | None => VNone end.

Definition _request_to_dict (r : PipelineRequest) : dict :=
  [ ("source_keys", VList (List.map VStr (source_keys r)));
    ("target_key", opt_str (target_key r));
    ("audio_key", audio_key r);
    ("audio_base64", audio_base64 r);
    ("reference_audio_key", reference_audio_key r);
    ("script_text", opt_str (script_text r));
    ("output_key", opt_str (output_key r));
    ("wav2lip_output_key", opt_str (wav2lip_output_key r));
    ("sovits", VDict (sovits r));
    ("retain_intermediate", VBool (retain_intermediate r));
    ("wav2lip", VDict (wav2lip r));
    ("facefusion", VDict (facefusion r)) ]%string.

Definition set_audio_base64 (r : PipelineRequest) (v : value) : PipelineRequest :=
  {| source_keys := source_keys r; target_key := target_key r; audio_key := audio_key r;
     audio_base64 := v; reference_audio_key := reference_audio_key r;
     script_text := script_text r; output_key := output_key r;
     wav2lip_output_key := wav2lip_output_key r; sovits := sovits r;
     retain_intermediate := retain_intermediate r; wav2lip := wav2lip r;
     facefusion := facefusion r |}.

Definition set_audio_keys (r : PipelineRequest) (key ref : value) : PipelineRequest :=
  {| source_keys := source_keys r; target_key := target_key r; audio_key := key;
     audio_base64 := audio_base64 r; reference_audio_key := ref;
     script_text := script_text r; output_key := output_key r;
     wav2lip_output_key := wav2lip_output_key r; sovits := sovits r;
     retain_intermediate := retain_intermediate r; wav2lip := wav2lip r;
     facefusion := facefusion r |}.

(** The payload for an instance of [RuntimeError] or of a class derived
    from it; without arguments [str(value)] is empty. *)
Definition runtime_payload (cls : string) (args : list value) : dict :=
  match args with
  | VDict first :: _ =>
      match dict_get "error" first with
      | Some _ => first
      | None => dict_set "error" (VStr "runtime_error") first
      end
  | first :: rest =>
      [("error", VStr "runtime_error"); ("detail", VTuple (first :: rest))]%string
  | [] => [("error", VStr cls); ("detail", VStr "")]%string
  end.

Definition _normalise_exception (e : exn) : dict :=
  match e with
  | RuntimeError args => runtime_payload "RuntimeError" args
  | RuntimeSub cls args => runtime_payload cls args
  | Error cls msg => [("error", VStr cls); ("detail", VStr msg)]%string
  end.

Record JobManager : Type := {
  store : JobStore;
  sovits_endpoint : option RunPodEndpoint;
  wav_endpoint : option RunPodEndpoint;
  face_endpoint : option RunPodEndpoint;
  job_timeout : option Z
}.

(** [(request.script_text or "").strip()] *)
Definition script_of (r : PipelineRequest) : string :=
  strip (default EmptyString (script_text r)).

(** [bool(request.target_key or request.source_keys)] *)
Definition needs_wav2lip (r : PipelineRequest) : bool :=
  truthy (opt_str (target_key r)) || truthy (VList (List.map VStr (source_keys r))).

Definition needs_facefusion (r : PipelineRequest) : bool :=
  truthy (VList (List.map VStr (source_keys r))).

(** [len(v)] is defined *)
Definition has_len (v : value) : bool :=
  match v with
  | VStr _ | VList _ | VTuple _ | VDict _ => true
  | _ => false
  end.

(** The payload of the voice stage.  The options lose [output_key] and
    [reference_text_key] and keep every other entry, [reference_text]
    among them. *)
Definition sovits_payload (r : PipelineRequest) (voice_key : value) (script : string) : dict :=
  let sovits_output_key := get_or_none "output_key" (sovits r) in
  let options_payload :=
    dict_set "ref_text_free" (VBool true)
      (dict_pop "reference_text_key" (dict_pop "output_key" (sovits r))) in
  [ ("reference_audio_key", voice_key);
    ("target_text", VStr script);
    ("reference_text", VStr "");
    ("ref_text_free", VBool true);
    ("output_key", py_or (get_or_none "output_key" (sovits r)) sovits_output_key);
    ("options", VDict options_payload) ]%string.

(** [wav_status.get("output")] as [wav_result] *)
Definition wav_result_of (wav_output : value) : option dict :=
  match wav_output with
  | VDict d => Some d
  | VStr s => Some [("output_url", VStr s)]%string
  | _ => None
  end.

(** The payload of the face-swap stage. *)
Definition face_payload (request_dict wav_result : dict) : dict :=
  [ ("request", VDict request_dict);
    ("wav2lip", get_or_none "wav2lip" wav_result) ]%string.

(** [final_result.setdefault("intermediate", {}).update(intermediate)] on
    the answer of the face-swap worker. *)
Definition attach_intermediate (final_result intermediate : dict) : exn + dict :=
  match dict_get "intermediate" final_result with
  | None => inr (dict_set "intermediate" (VDict (dict_update [] intermediate)) final_result)
  | Some (VDict old) => inr (dict_set "intermediate" (VDict (dict_update old intermediate)) final_result)
  | Some _ => inl (Error "AttributeError" "object has no attribute 'update'")
  end.

(** The same statement on the copy of the lip-sync output.  When that
    output has a dict under [intermediate], the copies share it, the
    update ties it into a cycle through [intermediate.wav2lip], and the
    sanitation of the record cuts the cycle there. *)
Definition attach_intermediate_shared (final_result intermediate : dict) : exn + dict :=
  match dict_get "intermediate" final_result with
  | Some (VDict old) =>
      let cut := match dict_get "wav2lip" intermediate with
                 | Some (VDict w) =>
                     dict_set "wav2lip" (VDict (dict_set "intermediate" (VStr "<circular>") w))
                              intermediate
                 | _ => intermediate
                 end in
      inr (dict_set "intermediate" (VDict (dict_update old cut)) final_result)
  | _ => attach_intermediate final_result intermediate
  end.

Definition running (stage : string) : dict :=
  [("status", VStr "running"); ("state", VStr "running"); ("stage", VStr stage)]%string.

Definition completed (result : value) : dict :=
  [ ("status", VStr "completed"); ("state", VStr "completed"); ("stage", VStr "completed");
    ("result", result); ("error", VNone) ]%string.

Definition failed (error : dict) : dict :=
  [ ("status", VStr "failed"); ("state", VStr "failed"); ("stage", VStr "failed");
    ("error", VDict error) ]%string.

Definition no_attribute (attr : string) : exn :=
  Error "AttributeError" ("object has no attribute '" +:+ attr +:+ "'").

(** An endpoint object is truthy, [None] is not. *)
Definition configured (ep : option RunPodEndpoint) : bool :=
  match ep with Some _ => true | None => false end.

Section Engine.

Context (wall : nat -> Z) (iso : Z -> string).
Context (mgr : JobManager) (fuel : nat) (task_id : string).

(** Stage 1; gives the rewritten request and [sovits_result]. *)
Definition voice_stage (request : PipelineRequest) (script : string)
    : M (PipelineRequest * value) :=
  let voice_key := py_or (reference_audio_key request) (audio_key request) in
  match sovits_endpoint mgr with
  | None =>
      raise (error_payload "sovits_not_configured"
                           (VStr "RUNPOD_SOVITS_ENDPOINT is required for SoVITS"))
  | Some ep =>
      if negb (truthy voice_key) then
        raise (error_payload "missing_reference_audio"
                             (VStr "reference_audio_key or audio_key is required"))
      else
        update_fields wall iso (store mgr) task_id (running "sovits");;
        append_progress wall iso (store mgr) task_id "Submitting SoVITS job" (Some "sovits"%string) None;;
        sovits_job_id <- submit Sovits ep (VDict (sovits_payload request voice_key script));;
        update_fields wall iso (store mgr) task_id
          [("details", VDict [("sovits_job_id", sovits_job_id)])]%string;;
        append_progress wall iso (store mgr) task_id "SoVITS job submitted" (Some "sovits"%string)
          (Some [("job_id", sovits_job_id)]%string);;
        sovits_status <- wait fuel Sovits ep sovits_job_id (job_timeout mgr);;
        match sovits_status with
        | VDict status =>
            match get_or_none "output" status with
            | VDict sovits_output =>
                let output_key := get_or_none "output_key" sovits_output in
                if negb (truthy output_key) then
                  raise (error_payload "missing_sovits_output_key" (VDict sovits_output))
                else
                  let audio_base64 := get_or_none "audio_base64" sovits_output in
                  request <- (if truthy audio_base64 then
                                if has_len audio_base64
                                then ret (set_audio_base64 request audio_base64)
                                else raise (Error "TypeError" "object has no len()")
                              else ret request);;
                  let request := set_audio_keys request output_key voice_key in
                  update_fields wall iso (store mgr) task_id
                    [ ("details", VDict [("sovits_status", sovits_status)]);
                      ("intermediate", VDict [("sovits", VDict sovits_output)]) ]%string;;
                  append_progress wall iso (store mgr) task_id "SoVITS completed" (Some "sovits"%string) None;;
                  ret (request, VDict sovits_output)
            | _ => raise (error_payload "no_sovits_output" sovits_status)
            end
        | _ => raise (no_attribute "get")
        end
  end.

(** The audio-only end of the pipeline. *)
Definition finish_audio_only (request : PipelineRequest) (sovits_result : value) : M unit :=
  let final_result :=
    match sovits_result with
    | VDict s => if truthy sovits_result then dict_update [] s
                 else if truthy (audio_key request) then [("output_key", audio_key request)]%string
                 else []
    | _ => if truthy (audio_key request) then [("output_key", audio_key request)]%string
           else []
    end in
  update_fields wall iso (store mgr) task_id (completed (py_or (VDict final_result) VNone));;
  append_progress wall iso (store mgr) task_id "Audio-only pipeline completed" (Some "completed"%string) None.

(** Stage 3; gives [final_result]. *)
Definition face_stage (request_dict wav_result intermediate : dict) : M dict :=
  match face_endpoint mgr with
  | None =>
      raise (error_payload "facefusion_not_configured"
                           (VStr "RUNPOD_FACEFUSION_ENDPOINT is required for facefusion"))
  | Some ep =>
      update_fields wall iso (store mgr) task_id [("stage", VStr "facefusion")]%string;;
      append_progress wall iso (store mgr) task_id "Submitting FaceFusion job" (Some "facefusion"%string) None;;
      face_job_id <- submit FaceFusion ep (VDict (face_payload request_dict wav_result));;
      update_fields wall iso (store mgr) task_id
        [("details", VDict [("facefusion_job_id", face_job_id)])]%string;;
      append_progress wall iso (store mgr) task_id "FaceFusion job submitted" (Some "facefusion"%string)
        (Some [("job_id", face_job_id)]%string);;
      face_status <- wait fuel FaceFusion ep face_job_id (job_timeout mgr);;
      match face_status with
      | VDict status =>
          match get_or_none "output" status with
          | VDict face_output =>
              final_result <- (if truthy (VDict intermediate)
                               then lift (attach_intermediate face_output intermediate)
                               else ret face_output);;
              append_progress wall iso (store mgr) task_id "FaceFusion completed" (Some "facefusion"%string) None;;
              (* [face_status] holds the very dict that was just updated *)
              update_fields wall iso (store mgr) task_id
                [("details",
                  VDict [("facefusion_status", VDict (dict_set "output" (VDict final_result) status))])]%string;;
              ret final_result
          | _ => raise (error_payload "no_facefusion_output" face_status)
          end
      | _ => raise (no_attribute "get")
      end
  end.

(** Stage 2 and what follows it. *)
Definition lipsync_stage (request : PipelineRequest) (intermediate : dict) : M unit :=
  update_fields wall iso (store mgr) task_id (running "wav2lip");;
  append_progress wall iso (store mgr) task_id "Submitting Wav2Lip job" (Some "wav2lip"%string) None;;
  let request_dict := _request_to_dict request in
  match wav_endpoint mgr with
  | None => raise (no_attribute "submit")
  | Some ep =>
      wav_job_id <- submit Wav2Lip ep (VDict request_dict);;
      update_fields wall iso (store mgr) task_id
        [("details", VDict [("wav2lip_job_id", wav_job_id)])]%string;;
      append_progress wall iso (store mgr) task_id "Wav2Lip job submitted" (Some "wav2lip"%string)
        (Some [("job_id", wav_job_id)]%string);;
      wav_status <- wait fuel Wav2Lip ep wav_job_id (job_timeout mgr);;
      match wav_status with
      | VDict status =>
          match wav_result_of (get_or_none "output" status) with
          | None => raise (error_payload "no_wav2lip_output" wav_status)
          | Some wav_result =>
              let intermediate := dict_set "wav2lip" (VDict wav_result) intermediate in
              update_fields wall iso (store mgr) task_id
                [ ("intermediate", VDict intermediate);
                  ("details", VDict [("wav2lip_status", wav_status)]) ]%string;;
              append_progress wall iso (store mgr) task_id "Wav2Lip completed" (Some "wav2lip"%string) None;;
              final_result <- (if needs_facefusion request
                               then face_stage request_dict wav_result intermediate
                               else if truthy (VDict intermediate)
                                    then lift (attach_intermediate_shared wav_result intermediate)
                                    else ret wav_result);;
              update_fields wall iso (store mgr) task_id (completed (VDict final_result));;
              append_progress wall iso (store mgr) task_id "Pipeline completed" (Some "completed"%string) None
          end
      | _ => raise (no_attribute "get")
      end
  end.

(** The body of the [try] of [_execute]. *)
Definition _execute_body (request : PipelineRequest) : M unit :=
  let script := script_of request in
  r <- (if truthy (VStr script) then voice_stage request script
        else if negb (truthy (audio_key request)) && negb (truthy (audio_base64 request))
             then raise (error_payload "missing_audio_key"
                                       (VStr "audio_key or audio_base64 is required"))
             else ret (request, VNone));;
  let request := r.1 in
  let sovits_result := r.2 in
  if negb (needs_wav2lip request) then finish_audio_only request sovits_result
  else lipsync_stage request
         (match sovits_result with VDict s => [("sovits", sovits_result)]%string | _ => [] end).

(** The handler of [except Exception]. *)
Definition on_failure (exc : exn) : M unit :=
  let error := _normalise_exception exc in
  update_fields wall iso (store mgr) task_id (failed error);;
  append_progress wall iso (store mgr) task_id "Pipeline failed" (Some "failed"%string) (Some error).

Definition _execute (request : PipelineRequest) : M unit :=
  try_except (_execute_body request) on_failure.

(** [JobManager.submit] up to the point where the engine is spawned;
    [task_id] stands for [uuid.uuid4().hex]. *)
Definition JobManager_submit (request : PipelineRequest) : M string :=
  if needs_wav2lip request && negb (configured (wav_endpoint mgr)) then
    raise (RuntimeError [VStr "RUNPOD_WAV2LIP_ENDPOINT and RUNPOD_API_KEY are required when target/source are provided"])
  else
    created_at <- _now_iso wall iso;;
    updated_at <- _now_iso wall iso;;
    write wall (store mgr)
      [ ("task_id", VStr task_id); ("status", VStr "pending"); ("state", VStr "pending");
        ("stage", VStr "queued"); ("created_at", VStr created_at); ("updated_at", VStr updated_at);
        ("request", VDict (_request_to_dict request)); ("result", VNone); ("error", VNone);
        ("progress", VList []); ("intermediate", VNone); ("details", VDict []) ]%string;;
    ret task_id.

(** A submission followed by the run of its engine. *)
Definition run (request : PipelineRequest) : M unit :=
  JobManager_submit request;;
  _execute request.

End Engine.

(** What [_write_backup] puts in the file of a sanitised record. *)
Definition backup_content (st : JobStore) (job : dict) (now : Z) : value :=
  VDict [("payload", VDict (json_safe_dict job));
         ("expires_at", VNum (now + persist_ttl st))]%string.

(** ** Progress entries expected from a sequence of calls *)

(** Clock reads made by one [append_progress]: one for the entry, one for
    [updated_at], one for the expiry of the backup when there is a
    persistence directory. *)
Definition ticks_per_call (st : JobStore) : nat :=
  match persist_path st with Some _ => 3%nat | None => 2%nat end.

Fixpoint expected_entries (wall : nat -> Z) (iso : Z -> string) (st : JobStore)
    (t : nat) (calls : list progress_call) : list value :=
  match calls with
  | [] => []
  | (message, stage, extra) :: rest =>
      _json_safe (VDict (progress_entry (iso (wall t)) message stage extra))
      :: expected_entries wall iso st (t + ticks_per_call st) rest
  end.

(** ** Path hardening, as the code has it and as the specification words it *)

(** The characters [_backup_path] lets through. *)
Definition safe_char (c : ascii) : bool :=
  isalnum c || Ascii.eqb c "-" || Ascii.eqb c "_" || Ascii.eqb c ".".

(** The class [A-Za-z0-9._-]. *)
Definition class_char (c : ascii) : bool :=
  is_ascii_alnum c || Ascii.eqb c "." || Ascii.eqb c "_" || Ascii.eqb c "-".

Definition is_ascii (c : ascii) : bool := (code c <? 128)%N.

Definition or_task (s : string) : string :=
  if (s =? "")%string then "task"%string else s.

(** The name of the backup file of a task, as the code derives it. *)
Definition backup_name (task_id : string) : string :=
  or_task (filter_str safe_char task_id) +:+ ".json".

(** The file name as the specification words it: filter the task ID to
    the class, fall back on [task], add the suffix. *)
Definition spec_backup_name (task_id : string) : string :=
  or_task (filter_str class_char task_id) +:+ ".json".


(** ** What a run of the engine shows *)

(** The task record carried by a write to the cache or to the disk. *)
Definition record_of (e : event) : option dict :=
  match e with
  | CacheSet _ (VDict r) _ => Some r
  | DiskWrite _ (VDict content) =>
      match get_or_none "payload" content with
      | VDict r => Some r
      | _ => None
      end
  | _ => None
  end.

Definition records (evs : list event) : list dict := omap record_of evs.

Definition submit_of (e : event) : option (stage * value) :=
  match e with
  | Submit s payload => Some (s, payload)
  | _ => None
  end.

(** The jobs submitted to the workers, in order. *)
Definition submits (evs : list event) : list (stage * value) := omap submit_of evs.

Definition stages (evs : list event) : list stage := (submits evs).*1.

(** The stages the selection rule picks for a request, in pipeline
    order. *)
Definition plan (r : PipelineRequest) : list stage :=
  (if truthy (VStr (script_of r)) then [Sovits] else [])
  ++ (if needs_wav2lip r then [Wav2Lip] else [])
  ++ (if needs_facefusion r then [FaceFusion] else []).

Definition progress_of (r : dict) : list value := list_of (dict_get "progress" r).

(** The progress log of [r2] starts with the whole log of [r1]. *)
Definition extends (r1 r2 : dict) : Prop := progress_of r1 `prefix_of` progress_of r2.

Definition status_is (s : string) (r : dict) : Prop :=
  dict_get "status" r = Some (VStr s).

(** The invariant of terminal records, as the specification states it. *)
Definition terminal_invariant (r : dict) : Prop :=
  (status_is "completed" r ->
   get_or_none "result" r <> VNone /\ get_or_none "error" r = VNone)
  /\ (status_is "failed" r -> get_or_none "error" r <> VNone)
  /\ ~ (status_is "completed" r /\ status_is "failed" r).

(** No script, no target, no sources and no [audio_key]: the audio came
    inline as [audio_base64] and the audio-only end has nothing to
    report. *)
Definition inline_audio_only (req : PipelineRequest) : bool :=
  negb (truthy (VStr (script_of req))) && negb (needs_wav2lip req)
  && negb (truthy (audio_key req)).

(** The invariant the engine keeps: a completed record may have no result
    only for a request with inline audio alone. *)
Definition record_ok (req : PipelineRequest) (r : dict) : Prop :=
  (status_is "completed" r ->
   get_or_none "error" r = VNone
   /\ (get_or_none "result" r = VNone -> inline_audio_only req = true))
  /\ (status_is "failed" r -> get_or_none "error" r <> VNone)
  /\ ~ (status_is "completed" r /\ status_is "failed" r).

(** A record as the engine keeps it: filed under its own identifier,
    sanitised, with a mapping of details and a list of progress entries. *)
Record good (task_id : string) (r : dict) : Prop := {
  good_id : dict_get "task_id" r = Some (VStr task_id);
  good_safe : json_safe_dict r = r;
  good_details : exists d, dict_get "details" r = Some (VDict d);
  good_progress : exists l, dict_get "progress" r = Some (VList l)
}.

(** [request'] is [request] up to the fields the voice stage rewrites. *)
Definition rewritten (request request' : PipelineRequest) : Prop :=
  source_keys request' = source_keys request
  /\ target_key request' = target_key request
  /\ script_text request' = script_text request
  /\ output_key request' = output_key request
  /\ wav2lip_output_key request' = wav2lip_output_key request
  /\ sovits request' = sovits request
  /\ retain_intermediate request' = retain_intermediate request
  /\ wav2lip request' = wav2lip request
  /\ facefusion request' = facefusion request.

(** ** A weakest-precondition reading of the monad *)

Definition wp {A} (m : M A) (w : world) (Q : outcome A -> world -> Prop) : Prop :=
  Q (m w).1 (m w).2.

(** What an update must say about [status], [result] and [error] for the
    record to stay within [record_ok]. *)
Definition status_update_ok (req : PipelineRequest) (us : dict) : Prop :=
  match dict_get "status" us with
  | None => dict_get "result" us = None /\ dict_get "error" us = None
  | Some (VStr s) =>
      if (s =? "completed")%string then
        dict_get "error" us = Some VNone
        /\ exists v, dict_get "result" us = Some v
                     /\ (v = VNone -> inline_audio_only req = true)
      else if (s =? "failed")%string then
        exists e, dict_get "error" us = Some (VDict e)
      else True
  | Some _ => False
  end.

Section Holds.

Context (st : JobStore) (task_id : string) (req : PipelineRequest) (base : list event).

(** The state of a run: the events since its start, the record the cache
    holds, and what is known of the records written so far. *)
Definition holds (r : dict) (evs : list event) (w : world) : Prop :=
  trace w = base ++ evs
  /\ cache w !! _key st task_id = Some (Json (VDict r), ttl st)
  /\ good task_id r
  /\ record_ok req r
  /\ last (records evs) = Some r
  /\ Forall (fun r0 => record_ok req r0 /\ extends r0 r) (records evs)
  /\ StronglySorted extends (records evs).

End Holds.

(** What the engine shows of a job it gave to the face-swap worker: the
    payload holds the request as it stood after the voice stage, which is
    the payload the lip-sync worker got, and the [wav2lip] entry of the
    lip-sync output; that output is what a written record holds under
    [intermediate.wav2lip]. *)
Definition face_submission_ok (req : PipelineRequest) (evs : list event)
    (payload : value) : Prop :=
  exists request' wav_result r intermediate,
    rewritten req request'
    /\ payload = VDict [("request", VDict (_request_to_dict request'));
                        ("wav2lip", get_or_none "wav2lip" wav_result)]%string
    /\ In (Wav2Lip, VDict (_request_to_dict request')) (submits evs)
    /\ In r (records evs)
    /\ dict_get "intermediate" r = Some (VDict intermediate)
    /\ dict_get "wav2lip" intermediate = Some (_json_safe (VDict wav_result)).

(** What every run of the engine shows. *)
Definition conforms (req : PipelineRequest) (evs : list event) : Prop :=
  Forall (record_ok req) (records evs)
  /\ StronglySorted extends (records evs)
  /\ stages evs `prefix_of` plan req
  /\ (forall r, last (records evs) = Some r -> status_is "completed" r ->
      stages evs = plan req)
  /\ (forall payload, In (FaceFusion, payload) (submits evs) ->
      face_submission_ok req evs payload).


(** ** Concrete inputs *)

Definition store0 : JobStore :=
  {| prefix := "ff:task"; ttl := 604800; persist_ttl := 604800;
     persist_path := Some "/opt/app/task_store"%string |}.

(** e with acute accent, U+00E9 *)
Definition e_acute : string := String (ascii_of_N 233) EmptyString.

Definition w0 : world := World ∅ ∅ 0 [].

Definition wall0 (n : nat) : Z := 1700000000 + Z.of_nat n.

Definition iso0 (t : Z) : string := pretty t.

(** An endpoint that accepts every job as [job-1] and answers every poll
    with the same status. *)
Definition answering (polled : dict) : RunPodEndpoint :=
  {| post_run := fun _ => Success (Json (VDict [("id", VStr "job-1")]%string));
     get_status := fun _ _ => Success (Json (VDict polled));
     post_status := fun _ _ => Failed "unused";
     elapsed := fun k => Z.of_nat k |}.

Definition completed_with_null_error : dict :=
  [("status", VStr "COMPLETED"); ("output", VDict [("error", VNone)])]%string.

Definition untagged_with_empty_output : dict :=
  [("output", VDict [])]%string.

Definition failed_with_oom : dict :=
  [("status", VStr "FAILED"); ("output", VDict [("error", VStr "oom")])]%string.

Definition in_queue : dict := [("status", VStr "IN_QUEUE")]%string.

Definition record0 : dict :=
  [ ("task_id", VStr "t1"); ("status", VStr "running"); ("state", VStr "running");
    ("stage", VStr "wav2lip"); ("result", VNone); ("error", VNone);
    ("progress", VList []); ("intermediate", VNone); ("details", VDict []) ]%string.

(** The world after [record0] was written and the cache lost it. *)
Definition flushed : world :=
  World ∅ (disk (write wall0 store0 record0 w0).2) 5 [].

(** A world whose cache holds text that is not JSON for task [t1]. *)
Definition garbled_cache : world :=
  World (<["ff:task:t1"%string := (Garbled, 604800)]> ∅) ∅ 0 [].

(** The world after [record0] was written. *)
Definition stored0 : world := (write wall0 store0 record0 w0).2.

Definition updates0 : dict :=
  [ ("details", VDict [("wav2lip_job_id", VStr "job-1")]);
    ("stage", VStr "facefusion") ]%string.

Definition calls0 : list progress_call :=
  [ ("Submitting Wav2Lip job", Some "wav2lip", None);
    ("Wav2Lip job submitted", Some "wav2lip", Some [("job_id", VStr "job-1")]) ]%string.

Definition plain_request : PipelineRequest :=
  {| source_keys := []; target_key := None; audio_key := VNone; audio_base64 := VNone;
     reference_audio_key := VNone; script_text := None; output_key := None;
     wav2lip_output_key := None; sovits := []; retain_intermediate := true;
     wav2lip := []; facefusion := [] |}.

(** Audio given inline, nothing else. *)
Definition inline_request : PipelineRequest :=
  set_audio_base64 plain_request (VStr "UklGRg==").

(** S2 of the specification: lip-sync only. *)
Definition lipsync_request : PipelineRequest :=
  {| source_keys := []; target_key := Some "in/v.mp4"%string; audio_key := VStr "in/a.wav";
     audio_base64 := VNone; reference_audio_key := VNone; script_text := None;
     output_key := None; wav2lip_output_key := None; sovits := [];
     retain_intermediate := true; wav2lip := []; facefusion := [] |}.

(** Lip-sync and face swap. *)
Definition faceswap_request : PipelineRequest :=
  {| source_keys := ["in/f.png"%string]; target_key := Some "in/v.mp4"%string;
     audio_key := VStr "in/a.wav"; audio_base64 := VNone; reference_audio_key := VNone;
     script_text := None; output_key := None; wav2lip_output_key := None; sovits := [];
     retain_intermediate := true; wav2lip := []; facefusion := [] |}.

(** A script and no voice reference. *)
Definition script_without_reference : PipelineRequest :=
  {| source_keys := []; target_key := None; audio_key := VNone; audio_base64 := VNone;
     reference_audio_key := VNone; script_text := Some "Hello"%string; output_key := None;
     wav2lip_output_key := None; sovits := []; retain_intermediate := true;
     wav2lip := []; facefusion := [] |}.

Definition completed_with (output : value) : dict :=
  [("status", VStr "COMPLETED"); ("output", output)]%string.

(** A manager with the three workers; every job completes at the first
    poll, the lip-sync worker with an output URL alone. *)
Definition manager0 : JobManager :=
  {| store := store0;
     sovits_endpoint :=
       Some (answering (completed_with (VDict [("output_key", VStr "out/a.wav")]%string)));
     wav_endpoint :=
       Some (answering (completed_with (VDict [("output_url", VStr "https://r2/out.mp4")]%string)));
     face_endpoint :=
       Some (answering (completed_with (VDict [("output_key", VStr "out/final.mp4")]%string)));
     job_timeout := Some 1800 |}.

(** * Further definitions *)

(** ** Values that JSON can carry *)

(** No tuple and no opaque object, at any depth. *)
Fixpoint is_json (v : value) : bool :=
  match v with
  | VNone | VBool _ | VNum _ | VStr _ => true
  | VList l => forallb is_json l
  | VDict d => forallb (fun kv => is_json kv.2) d
  | VTuple _ | VObj _ => false
  end.

(** ** Configuration values: [_sanitize_config_value] and the endpoint
    constructor *)

Definition _sanitize_config_value (value : string) : string :=
  strip (filter_str printable value).

(** What [RunPodEndpoint.__init__] keeps of its arguments; the HTTP client
    it opens is the oracle record [RunPodEndpoint]. *)
Record EndpointConfig : Type := {
  endpoint_id : string;
  api_key : string;
  base_url : string;
  timeout : Z
}.

Definition is_slash (c : ascii) : bool := Ascii.eqb c "/".

Definition RunPodEndpoint_init (endpoint_id api_key base_url : string) (timeout : Z)
    : exn + EndpointConfig :=
  if negb (truthy (VStr endpoint_id)) then
    inl (Error "ValueError" "RunPod endpoint ID is required.")
  else if negb (truthy (VStr api_key)) then
    inl (Error "ValueError" "RunPod API key is required.")
  else
    let endpoint_id_clean := _sanitize_config_value endpoint_id in
    let base_url_clean := _sanitize_config_value base_url in
    let api_key_clean := _sanitize_config_value api_key in
    if negb (truthy (VStr endpoint_id_clean)) then
      inl (Error "ValueError"
                 "RunPod endpoint ID is invalid after sanitising control characters.")
    else if negb (truthy (VStr base_url_clean)) then
      inl (Error "ValueError"
                 "RunPod base URL is invalid after sanitising control characters.")
    else if negb (truthy (VStr api_key_clean)) then
      inl (Error "ValueError"
                 "RunPod API key is invalid after sanitising control characters.")
    else
      inr {| endpoint_id := endpoint_id_clean;
             api_key := api_key_clean;
             base_url := rstrip_with is_slash base_url_clean;
             timeout := timeout |}.

(** The store the module builds from its settings: [JOBSTORE_PERSIST_TTL]
    is the larger of its setting and [JOBSTORE_TTL], and the persistence
    directory is always named. *)
Definition job_store (prefix : string) (ttl : Z) (persist_dir : string)
    (persist_ttl_setting : Z) (mkdir_ok : bool) : JobStore :=
  JobStore_init prefix ttl (Some persist_dir) (Some (Z.max persist_ttl_setting ttl)) mkdir_ok.

Definition ends_with (c : ascii) (s : string) : Prop :=
  exists s', s = s' +:+ String c EmptyString.

(** ** Which stages a run reaches *)

(** What a worker makes of a job: what [submit] and then [wait] give.
    Neither depends on the world it runs in, so the empty world stands
    for any. *)
Definition job_answer (fuel : nat) (s : stage) (ep : RunPodEndpoint) (payload : value)
    (timeout : option Z) : outcome value :=
  ((job_id <- submit s ep payload;; wait fuel s ep job_id timeout) w0).1.

(** An answer of the voice worker that the engine goes on with: a status
    whose [output] is an object with a truthy [output_key] and, when it
    brings [audio_base64], one that has a length. *)
Definition voice_usable (o : outcome value) : bool :=
  match o with
  | Ret (VDict status) =>
      match get_or_none "output" status with
      | VDict sovits_output =>
          truthy (get_or_none "output_key" sovits_output)
          && (negb (truthy (get_or_none "audio_base64" sovits_output))
              || has_len (get_or_none "audio_base64" sovits_output))
      | _ => false
      end
  | _ => false
  end.

(** An answer of the lip-sync worker that the engine goes on with: a
    status whose [output] is an object or a string. *)
Definition lipsync_usable (o : outcome value) : bool :=
  match o with
  | Ret (VDict status) =>
      match wav_result_of (get_or_none "output" status) with
      | Some _ => true
      | None => false
      end
  | _ => false
  end.

(** [JobManager.submit] takes the request: a request that needs the
    lip-sync worker finds it configured. *)
Definition accepted (mgr : JobManager) (req : PipelineRequest) : bool :=
  negb (needs_wav2lip req && negb (configured (wav_endpoint mgr))).

(** [getattr(request, "reference_audio_key", None) or request.audio_key] *)
Definition voice_key (req : PipelineRequest) : value :=
  py_or (reference_audio_key req) (audio_key req).

(** Both guards of the voice stage pass. *)
Definition voice_ready (mgr : JobManager) (req : PipelineRequest) : bool :=
  configured (sovits_endpoint mgr) && truthy (voice_key req).

(** The voice stage gets through: its guards pass and its job comes back
    with a usable answer. *)
Definition voice_passes (mgr : JobManager) (fuel : nat) (req : PipelineRequest) : bool :=
  match sovits_endpoint mgr with
  | Some ep =>
      truthy (voice_key req)
      && voice_usable (job_answer fuel Sovits ep
                         (VDict (sovits_payload req (voice_key req) (script_of req)))
                         (job_timeout mgr))
  | None => false
  end.

(** There is audio when the lip-sync stage is due: from the voice stage
    for a request with a script, from the request otherwise. *)
Definition audio_ready (mgr : JobManager) (fuel : nat) (req : PipelineRequest) : bool :=
  if truthy (VStr (script_of req)) then voice_passes mgr fuel req
  else truthy (audio_key req) || truthy (audio_base64 req).

(** The lip-sync job with this payload comes back with a usable answer. *)
Definition lipsync_passes (mgr : JobManager) (fuel : nat) (payload : value) : bool :=
  match wav_endpoint mgr with
  | Some ep => lipsync_usable (job_answer fuel Wav2Lip ep payload (job_timeout mgr))
  | None => false
  end.

(** The stages an accepted run submits, each told from the request, the
    configuration and the answers of the workers before it. *)
Definition reaches (mgr : JobManager) (fuel : nat) (req : PipelineRequest)
    (evs : list event) : Prop :=
  (In Sovits (stages evs) <->
   truthy (VStr (script_of req)) = true /\ voice_ready mgr req = true)
  /\ (In Wav2Lip (stages evs) <->
      needs_wav2lip req = true /\ audio_ready mgr fuel req = true)
  /\ (In FaceFusion (stages evs) <->
      needs_facefusion req = true /\ configured (face_endpoint mgr) = true
      /\ exists p, In (Wav2Lip, p) (submits evs) /\ lipsync_passes mgr fuel p = true).

(** What stage 2 and what follows it add to the jobs of a run: the
    lip-sync job and, after it, the face-swap job exactly when sources
    are given, the face-swap worker is configured and the lip-sync job
    came back usable. *)
Definition lipsync_jobs (mgr : JobManager) (fuel : nat) (req request : PipelineRequest)
    (evs : list event) (jobs : list (stage * value)) : Prop :=
  exists tail,
    jobs = (Wav2Lip, VDict (_request_to_dict request)) :: tail
    /\ (tail = [] \/ exists pf, tail = [(FaceFusion, pf)])
    /\ (tail <> [] <->
        needs_facefusion req = true /\ configured (face_endpoint mgr) = true
        /\ lipsync_passes mgr fuel (VDict (_request_to_dict request)) = true)
    /\ (forall p, In (FaceFusion, p) jobs -> face_submission_ok req evs p).

(** ** The answers of an endpoint *)

(** What one request of [status] comes to when it is the one that
    counts. *)
Definition decided (r : http_reply) : outcome value :=
  match r with
  | Failed msg | MethodNotAllowed msg =>
      Raise (error_payload "runpod_status_failed" (VStr msg))
  | Refused msg => Raise (invalid_url msg)
  | Success body => match parse body with inl e => Raise e | inr v => Ret v end
  end.


(** ** What an operation leaves alone *)

Definition disk_event (e : event) : bool :=
  match e with
  | DiskStat _ | DiskRead _ | DiskWrite _ _ | DiskPurge _ => true
  | _ => false
  end.

(** The operation never touches the persistence directory. *)
Definition quiet {A} (m : M A) : Prop :=
  forall w, disk (m w).2 = disk w
            /\ exists evs, trace (m w).2 = trace w ++ evs
                           /\ Forall (fun e => disk_event e = false) evs.

(** The operation changes the cache at most under [key] and the
    persistence directory at most at [file], where it can only remove. *)
Definition confined {A} (key file : string) (m : M A) : Prop :=
  forall w,
    (forall k, k <> key -> cache (m w).2 !! k = cache w !! k)
    /\ (forall f, f <> file -> disk (m w).2 !! f = disk w !! f)
    /\ (disk (m w).2 !! file = disk w !! file \/ disk (m w).2 !! file = None).



(** A backup with a payload that is no mapping and an expiry that is no
    number. *)
Definition corrupt_backup : world :=
  World ∅ {[ "t1.json"%string :=
               Json (VDict [("payload", VNum 5); ("expires_at", VStr "soon")]%string) ]} 0 [].

(** ** The life cycle of a task record *)

(** The record [JobManager.submit] writes. *)
Definition job_record (task_id created_at updated_at : string) (request : PipelineRequest)
    : dict :=
  [ ("task_id", VStr task_id); ("status", VStr "pending"); ("state", VStr "pending");
    ("stage", VStr "queued"); ("created_at", VStr created_at); ("updated_at", VStr updated_at);
    ("request", VDict (_request_to_dict request)); ("result", VNone); ("error", VNone);
    ("progress", VList []); ("intermediate", VNone); ("details", VDict []) ]%string.

(** The values of [status] and [stage] that go together. *)
Definition phases : list (string * string) :=
  [ ("pending", "queued"); ("running", "sovits"); ("running", "wav2lip");
    ("running", "facefusion"); ("completed", "completed"); ("failed", "failed") ]%string.

Definition in_phase (s g : string) (r : dict) : Prop :=
  dict_get "status" r = Some (VStr s)
  /\ dict_get "state" r = Some (VStr s)
  /\ dict_get "stage" r = Some (VStr g).

(** [status] and [state] agree and go with [stage]. *)
Definition coherent (r : dict) : Prop :=
  exists s g, In (s, g) phases /\ in_phase s g r.

(** Pending, then running, then one of the two terminal values. *)
Definition rank (s : string) : nat :=
  if (s =? "pending")%string then 0 else if (s =? "running")%string then 1 else 2.

(** The record is neither completed nor failed. *)
Definition open_phase (r : dict) : Prop :=
  exists s g, in_phase s g r /\ In (s, g) phases /\ (rank s < 2)%nat.

Definition terminal (r : dict) : Prop :=
  status_is "completed" r \/ status_is "failed" r.

(** From [r1] to [r2] the status stays or moves forward, and a terminal
    status stays. *)
Definition advances (r1 r2 : dict) : Prop :=
  exists s1 s2,
    dict_get "status" r1 = Some (VStr s1) /\ dict_get "status" r2 = Some (VStr s2)
    /\ (rank s1 <= rank s2)%nat /\ (rank s1 = 2%nat -> s1 = s2).

(** [r] is the record [r0] as far as what the submission fixed goes. *)
Definition same_origin (r0 r : dict) : Prop :=
  dict_get "task_id" r = dict_get "task_id" r0
  /\ dict_get "created_at" r = dict_get "created_at" r0
  /\ dict_get "request" r = dict_get "request" r0.

Section Lifecycle.

Context (st : JobStore) (task_id : string) (base : list event) (r0 : dict).
Context (cache0 : gmap string (blob * Z)).

(** The state of a run, for the life cycle of its record: the events
    since its start, the record the cache holds, what the other cache
    entries are, and what is known of the records written so far, of
    which [r0] is the first. *)
Definition tracked (r : dict) (evs : list event) (w : world) : Prop :=
  trace w = base ++ evs
  /\ cache w !! _key st task_id = Some (Json (VDict r), ttl st)
  /\ (forall k, k <> _key st task_id -> cache w !! k = cache0 !! k)
  /\ good task_id r
  /\ head (records evs) = Some r0
  /\ last (records evs) = Some r
  /\ Forall (fun x => coherent x /\ same_origin r0 x /\ advances x r) (records evs)
  /\ StronglySorted advances (records evs).

End Lifecycle.

(** ** Waiting for a task: [JobManager.wait_for_completion] *)

(** [hash(v)] is defined *)
Fixpoint hashable (v : value) : bool :=
  match v with
  | VList _ | VDict _ => false
  | VTuple l => forallb hashable l
  | _ => true
  end.

(** [v in {"completed", "failed"}] for a hashable [v] *)
Definition is_terminal_status (v : value) : bool :=
  match v with
  | VStr s => (s =? "completed")%string || (s =? "failed")%string
  | _ => false
  end.

(** [HTTPException(status_code, detail)], with the text [str] gives it *)
Definition http_exception (status_code : Z) (detail : string) : exn :=
  Error "HTTPException" (pretty status_code +:+ ": " +:+ detail).

(** [timeout and elapsed > timeout] *)
Definition overdue (timeout : option Z) (elapsed : Z) : bool :=
  match timeout with
  | Some t => negb (t =? 0) && (t <? elapsed)
  | None => false
  end.

Section Completion.

Context (wall : nat -> Z) (mgr : JobManager).

(** [others k] is what the other tasks of the event loop, the engine
    among them, do while the waiter sleeps for the time number [k];
    [waited k] is [time.monotonic() - start] read after the lookup number
    [k]. *)
Context (others : nat -> world -> world) (waited : nat -> Z).

Definition get_task (task_id : string) : M value := get wall (store mgr) task_id.

(** [await asyncio.sleep(poll)] *)
Definition sleep (k : nat) : M unit := fun w => (Ret tt, others k w).

(** The loop of [wait_for_completion] from the lookup number [k] on;
    [fuel] bounds the lookups that are followed. *)
Fixpoint wait_for_completion_from (fuel : nat) (task_id : string) (timeout : option Z)
    (k : nat) : M value :=
  match fuel with
  | O => pending
  | S fuel' =>
      record <- get_task task_id;;
      if negb (truthy record) then raise (http_exception 404 "Task not found")
      else
        match record with
        | VDict d =>
            let status := get_or_none "status" d in
            if negb (hashable status) then raise (Error "TypeError" "unhashable type")
            else if is_terminal_status status then ret record
            else if overdue timeout (waited k) then raise (Error "TimeoutError" "")
            else sleep k;; wait_for_completion_from fuel' task_id timeout (S k)
        | _ => raise (no_attribute "get")
        end
  end.

Definition wait_for_completion (fuel : nat) (task_id : string) (timeout : option Z)
    : M value :=
  wait_for_completion_from fuel task_id timeout 0.


End Completion.


(** * Properties *)

(** ** Dictionaries and sanitation *)

Lemma dict_get_set_eq k v d : dict_get k (dict_set k v d) = Some v.
Proof.
  induction d as [|[k' v'] d IH]; simpl.
  - by rewrite String.eqb_refl.
  - destruct (String.eqb_spec k k') as [->|Hne]; simpl.
    + by rewrite String.eqb_refl.
    + destruct (String.eqb_spec k k'); [done|]. apply IH.
Qed.

Lemma dict_get_set_ne k k' v d : k <> k' -> dict_get k' (dict_set k v d) = dict_get k' d.
Proof.
  intros Hne. induction d as [|[k0 v0] d IH]; simpl.
  - destruct (String.eqb_spec k' k); [congruence|done].
  - destruct (String.eqb_spec k k0) as [->|Hk]; simpl.
    + destruct (String.eqb_spec k' k0); [congruence|done].
    + destruct (String.eqb_spec k' k0); [done|apply IH].
Qed.

Lemma dict_get_set k k' v d :
  dict_get k' (dict_set k v d) = if (k' =? k)%string then Some v else dict_get k' d.
Proof.
  destruct (String.eqb_spec k' k) as [->|Hne].
  - apply dict_get_set_eq.
  - apply dict_get_set_ne. congruence.
Qed.

Lemma dict_set_not_nil k v d : dict_set k v d <> [].
Proof. destruct d as [|[k' v'] d]; simpl; [done|]. by destruct (k =? k')%string. Qed.

Lemma dict_get_Some_not_nil k v (d : dict) : dict_get k d = Some v -> d <> [].
Proof. by destruct d. Qed.

(** [d.update(u)], key by key: the binding of [u] wins. *)
Lemma dict_get_update k (d u : dict) :
  NoDup (u.*1) ->
  dict_get k (dict_update d u) =
  match dict_get k u with Some v => Some v | None => dict_get k d end.
Proof.
  unfold dict_update. revert d.
  induction u as [|[k' v'] u IH]; intros d Hnd; simpl; [done|].
  inversion Hnd as [|? ? Hnotin Hnd']; subst.
  rewrite IH by done.
  destruct (String.eqb_spec k k') as [->|Hne].
  - assert (dict_get k' u = None) as ->.
    { clear -Hnotin. induction u as [|[k0 v0] u IH]; simpl in *; [done|].
      apply not_elem_of_cons in Hnotin as [Hk Hu].
      destruct (String.eqb_spec k' k0); [done|]. by apply IH. }
    apply dict_get_set_eq.
  - destruct (dict_get k u); [done|]. apply dict_get_set_ne. congruence.
Qed.

Lemma dict_get_json_safe k d :
  dict_get k (json_safe_dict d) = _json_safe <$> dict_get k d.
Proof.
  induction d as [|[k' v'] d IH]; simpl; [done|].
  by destruct (k =? k')%string.
Qed.

Lemma json_safe_None v : _json_safe v = VNone <-> v = VNone.
Proof. by destruct v. Qed.

Lemma json_safe_is_dict v : is_dict (_json_safe v) = is_dict v.
Proof. by destruct v. Qed.

(** Induction on values, through the lists and dicts they hold. *)
Section ValueInd.

Context (P : value -> Prop).
Context (HNone : P VNone) (HBool : forall b, P (VBool b)) (HNum : forall n, P (VNum n)).
Context (HStr : forall s, P (VStr s)) (HObj : forall r, P (VObj r)).
Context (HList : forall l, Forall P l -> P (VList l)).
Context (HTuple : forall l, Forall P l -> P (VTuple l)).
Context (HDict : forall d, Forall (fun kv => P kv.2) d -> P (VDict d)).

Fixpoint value_rect' (v : value) : P v :=
  let fix all (l : list value) : Forall P l :=
    match l with
    | [] => @List.Forall_nil _ P
    | x :: l' => @List.Forall_cons _ P x l' (value_rect' x) (all l')
    end in
  let fix all_d (d : dict) : Forall (fun kv => P kv.2) d :=
    match d with
    | [] => @List.Forall_nil _ (fun kv => P kv.2)
    | kv :: d' => @List.Forall_cons _ (fun kv => P kv.2) kv d' (value_rect' kv.2) (all_d d')
    end in
  match v with
  | VNone => HNone
  | VBool b => HBool b
  | VNum n => HNum n
  | VStr s => HStr s
  | VList l => HList l (all l)
  | VTuple l => HTuple l (all l)
  | VDict d => HDict d (all_d d)
  | VObj r => HObj r
  end.

End ValueInd.

(** Sanitation is idempotent: what the store holds is a fixed point. *)
Lemma json_safe_idem v : _json_safe (_json_safe v) = _json_safe v.
Proof.
  induction v as [| | | | |l IH|l IH|d IH] using value_rect'; simpl; try done.
  - f_equal. induction IH as [|x l Hx _ IHl]; simpl; [done|]. by rewrite Hx, IHl.
  - f_equal. induction IH as [|x l Hx _ IHl]; simpl; [done|]. by rewrite Hx, IHl.
  - f_equal. induction IH as [|[k x] l Hx _ IHl]; simpl in *; [done|]. by rewrite Hx, IHl.
Qed.

Lemma json_safe_dict_idem d : json_safe_dict (json_safe_dict d) = json_safe_dict d.
Proof.
  pose proof (json_safe_idem (VDict d)) as H. simpl in H. by inversion H.
Qed.

(** ** Path hardening: [_backup_path] *)

Lemma keep_single c : keep (String c EmptyString) = safe_char c.
Proof. destruct c as [[] [] [] [] [] [] [] []]; reflexivity. Qed.

Lemma safe_char_ascii c : is_ascii c = true -> safe_char c = class_char c.
Proof. destruct c as [[] [] [] [] [] [] [] []]; (reflexivity || discriminate). Qed.

Lemma safe_parts_chars l :
  safe_parts (List.map (fun c => VStr (String c EmptyString)) l) =
  inr (List.map (fun c => String c EmptyString) (List.filter safe_char l)).
Proof.
  induction l as [|c l IH]; simpl; [done|].
  rewrite IH, keep_single. by destruct (safe_char c).
Qed.

Lemma join_singles l :
  join "" (List.map (fun c => String c EmptyString) l) = string_of_list_ascii l.
Proof.
  induction l as [|c l IH]; simpl; [done|].
  rewrite <- IH. by destruct l.
Qed.

Lemma backup_path_str st dir task_id :
  persist_path st = Some dir ->
  _backup_path st (VStr task_id) =
  inr (Some {| parent := dir; name := backup_name task_id |}).
Proof.
  intros Hdir. unfold _backup_path, backup_name. rewrite Hdir. simpl.
  by rewrite safe_parts_chars, join_singles.
Qed.

Lemma filter_ascii l :
  forallb is_ascii l = true -> List.filter safe_char l = List.filter class_char l.
Proof.
  induction l as [|c l IH]; simpl; [done|].
  intros [Hc Hl]%andb_true_iff. by rewrite (safe_char_ascii c Hc), IH.
Qed.

(** C8, as the code has it: the backup file of a task lives in the
    persistence directory; its name is made of the characters of the task
    ID that [str.isalnum] accepts or that are among [-], [_] and [.], in
    their order, or is [task] when none is left, followed by [.json].  For
    an ID of ASCII characters that is the filter to the class
    [A-Za-z0-9._-] of the specification. *)
Theorem backup_path_sanitised st dir task_id :
  persist_path st = Some dir ->
  _backup_path st (VStr task_id) =
    inr (Some {| parent := dir; name := backup_name task_id |})
  /\ (str_all is_ascii task_id = true ->
      _backup_path st (VStr task_id) =
        inr (Some {| parent := dir; name := spec_backup_name task_id |})).
Proof.
  intros Hdir. split; [by apply backup_path_str|].
  intros Hascii. rewrite (backup_path_str st dir) by done.
  unfold spec_backup_name, backup_name, filter_str. by rewrite (filter_ascii _ Hascii).
Qed.

Lemma backup_path_sanitised_witness :
  _backup_path store0 (VStr "a/b c.json") =
  inr (Some {| parent := "/opt/app/task_store"; name := "abc.json.json" |}).
Proof.
  exact (proj2 (backup_path_sanitised store0 "/opt/app/task_store" "a/b c.json" eq_refl) eq_refl).
Defined.

(** A letter outside ASCII is kept: the ID made of e with acute accent
    gets its own file, where the filter to the class gives [task.json]. *)
Lemma backup_path_keeps_letters_outside_class :
  _backup_path store0 (VStr e_acute) =
    inr (Some {| parent := "/opt/app/task_store"; name := e_acute +:+ ".json" |})
  /\ spec_backup_name e_acute = "task.json"%string
  /\ _backup_path store0 (VStr e_acute) <>
     inr (Some {| parent := "/opt/app/task_store"; name := spec_backup_name e_acute |}).
Proof. repeat split; [reflexivity..|discriminate]. Qed.

(** ** The poll loop: [RunPodEndpoint.wait] *)

Lemma wait_from_step fuel lbl ep job_id timeout k w polled w' :
  status lbl ep (py_str job_id) k w = (Ret (VDict polled), w') ->
  wait_from (S fuel) lbl ep job_id timeout k w =
  match classify polled with
  | Return s => (Ret s, w')
  | Fail e => (Raise e, w')
  | Continue state =>
      if timed_out ep timeout k then (Raise (timeout_error job_id state), w')
      else wait_from fuel lbl ep job_id timeout (S k) w'
  end.
Proof.
  intros Hpoll. simpl. unfold bind at 1. rewrite Hpoll.
  destruct (classify polled); try done.
  by destruct (timed_out ep timeout k).
Qed.

(** C3, as the code has it: one poll of [wait] is classified in this
    order.  An output that is a mapping with a truthy [error] entry fails
    the wait with [runpod_output_error] whatever the tag; otherwise a
    success tag, or an empty tag with a truthy output, returns the
    status; otherwise a failure tag fails the wait with
    [runpod_job_failed], whose detail is the output when it is a mapping
    and the whole status when it is not. *)
Theorem wait_poll_precedence fuel lbl ep job_id timeout k w polled w' :
  status lbl ep (py_str job_id) k w = (Ret (VDict polled), w') ->
  let output := get_or_none "output" polled in
  let state := state_of polled in
  let result := wait_from (S fuel) lbl ep job_id timeout k w in
  (forall o, output = VDict o -> truthy (get_or_none "error" o) = true ->
     result = (Raise (error_payload "runpod_output_error" output), w'))
  /\ (output_error output = false ->
      tag_in success_tags state = true \/ (state = EmptyString /\ truthy output = true) ->
      result = (Ret (VDict polled), w'))
  /\ (output_error output = false ->
      tag_in success_tags state = false ->
      (state = EmptyString -> truthy output = false) ->
      tag_in failure_tags state = true ->
      result = (Raise (error_payload "runpod_job_failed"
                         (if is_dict output then output else VDict polled)), w')).
Proof.
  intros Hpoll output state result. subst result.
  rewrite (wait_from_step _ _ _ _ _ _ _ _ _ Hpoll). unfold classify.
  fold output state. clearbody output state. repeat split.
  - intros o -> Herr. simpl. by rewrite Herr.
  - intros -> [Htag|[Hst Hout]].
    + by rewrite Htag.
    + by rewrite Hst, Hout.
  - intros -> -> Hout Hfail.
    destruct (String.eqb_spec state "") as [Hst|_].
    + by rewrite (Hout Hst), Hfail.
    + by rewrite Hfail.
Qed.

Lemma wait_poll_precedence_witness :
  wait_from 1 Wav2Lip (answering failed_with_oom) (VStr "job-1") (Some 1800) 0 w0 =
  (Raise (error_payload "runpod_output_error" (VDict [("error", VStr "oom")]%string)),
   World ∅ ∅ 0 [Poll Wav2Lip "job-1"]).
Proof.
  exact (proj1 (wait_poll_precedence 0 Wav2Lip (answering failed_with_oom) (VStr "job-1")
                  (Some 1800) 0%nat w0 failed_with_oom _ eq_refl)
               [("error", VStr "oom")]%string eq_refl eq_refl).
Defined.

(** An output that merely holds an [error] key, with a falsy value, does
    not fail the wait; and an output that is present but empty does not
    end it. *)
Lemma wait_ignores_falsy_error_and_empty_output :
  (exists o, get_or_none "output" completed_with_null_error = VDict o
             /\ dict_get "error" o = Some VNone)
  /\ (wait 1 Wav2Lip (answering completed_with_null_error) (VStr "job-1") (Some 1800) w0).1
     = Ret (VDict completed_with_null_error)
  /\ (exists o, dict_get "output" untagged_with_empty_output = Some o)
  /\ state_of untagged_with_empty_output = EmptyString
  /\ (wait 1 Wav2Lip (answering untagged_with_empty_output) (VStr "job-1") (Some 1800) w0).1
     = Pending.
Proof. repeat split; try reflexivity; eexists; try split; reflexivity. Qed.

Lemma status_trace lbl ep job k w o w' :
  status lbl ep job k w = (o, w') -> trace w' = trace w ++ [Poll lbl job].
Proof.
  unfold status, bind, emit, lift. simpl.
  destruct (status_reply ep job k); intros [= <- <-]; done.
Qed.

Lemma status_raise_tag lbl ep job k w e w' :
  status lbl ep job k w = (Raise e, w') -> error_tag e <> Some "runpod_job_timeout"%string.
Proof.
  unfold status, bind, emit, lift, status_reply, response_json, parse. simpl.
  destruct (url_refused job); simpl; [by intros [= <- <-]|].
  destruct (get_status ep job k) as [msg|msg|[|v|m]|msg]; simpl; try (intros [= <- <-]; done).
  destruct (post_status ep job k) as [msg'|msg'|[|v|m]|msg']; simpl; intros [= <- <-]; done.
Qed.

Lemma classify_fail_tag polled e :
  classify polled = Fail e -> error_tag e <> Some "runpod_job_timeout"%string.
Proof.
  unfold classify.
  repeat match goal with |- context [if ?b then _ else _] => destruct b end;
    intros [= <-]; done.
Qed.

Lemma wait_no_timeout_unless_set fuel lbl ep job_id timeout k w e w' :
  timeout_set timeout = false ->
  wait_from fuel lbl ep job_id timeout k w = (Raise e, w') ->
  error_tag e <> Some "runpod_job_timeout"%string.
Proof.
  intros Hunset. revert k w.
  induction fuel as [|fuel IH]; intros k w; simpl; [done|].
  unfold bind at 1.
  destruct (status lbl ep (py_str job_id) k w) as [[st|e0|] w1] eqn:Hpoll; try done.
  - destruct st as [| | | | | |polled|]; try (intros [= <- <-]; done).
    destruct (classify polled) as [s|e1|state] eqn:Hcl; try done.
    + intros [= <- <-]. by eapply classify_fail_tag.
    + assert (timed_out ep timeout k = false) as ->.
      { unfold timed_out. destruct timeout as [t|]; [|done].
        simpl in Hunset. by rewrite Hunset. }
      apply IH.
  - intros [= <- <-]. by eapply status_raise_tag.
Qed.

Lemma wait_polls_forever fuel lbl ep job_id timeout k w :
  timeout_set timeout = false ->
  (forall i, exists polled state,
      status_reply ep (py_str job_id) i = inr (VDict polled)
      /\ classify polled = Continue state) ->
  (wait_from fuel lbl ep job_id timeout k w).1 = Pending
  /\ trace (wait_from fuel lbl ep job_id timeout k w).2 =
     trace w ++ repeat (Poll lbl (py_str job_id)) fuel.
Proof.
  intros Hunset Hpolls. revert k w.
  induction fuel as [|fuel IH]; intros k w.
  - simpl. by rewrite app_nil_r.
  - destruct (Hpolls k) as (polled & state & Hreply & Hcl).
    assert (status lbl ep (py_str job_id) k w =
            (Ret (VDict polled),
             World (cache w) (disk w) (ticks w)
                   (trace w ++ [Poll lbl (py_str job_id)]))) as Hpoll.
    { unfold status, bind, emit, lift. simpl. by rewrite Hreply. }
    rewrite (wait_from_step _ _ _ _ _ _ _ _ _ Hpoll), Hcl.
    assert (timed_out ep timeout k = false) as ->.
    { unfold timed_out. destruct timeout as [t|]; [|done].
      simpl in Hunset. by rewrite Hunset. }
    destruct (IH (S k) (World (cache w) (disk w) (ticks w)
                          (trace w ++ [Poll lbl (py_str job_id)]))) as [-> ->].
    simpl. split; [done|]. by rewrite <- app_assoc.
Qed.

Lemma wait_polls_first fuel lbl ep job_id timeout k w :
  exists evs, trace (wait_from (S fuel) lbl ep job_id timeout k w).2 =
              trace w ++ Poll lbl (py_str job_id) :: evs.
Proof.
  revert k w. induction fuel as [|fuel IH]; intros k w.
  - simpl. unfold bind at 1.
    destruct (status lbl ep (py_str job_id) k w) as [[st|e0|] w1] eqn:Hpoll;
      apply status_trace in Hpoll; exists []; simpl.
    + destruct st as [| | | | | |polled|]; try done.
      destruct (classify polled); try done.
      by destruct (timed_out ep timeout k).
    + done.
    + done.
  - change (wait_from (S (S fuel)) lbl ep job_id timeout k w)
      with (bind (status lbl ep (py_str job_id) k) (fun st =>
              match st with
              | VDict d =>
                  match classify d with
                  | Return s => ret s
                  | Fail e => raise e
                  | Continue state =>
                      if timed_out ep timeout k then raise (timeout_error job_id state)
                      else wait_from (S fuel) lbl ep job_id timeout (S k)
                  end
              | _ => raise (Error "AttributeError" "object has no attribute 'get'")
              end) w).
    unfold bind at 1.
    destruct (status lbl ep (py_str job_id) k w) as [[st|e0|] w1] eqn:Hpoll;
      apply status_trace in Hpoll; try (exists []; simpl; done).
    destruct st as [| | | | | |polled|]; try (exists []; simpl; done).
    destruct (classify polled); try (exists []; simpl; done).
    destruct (timed_out ep timeout k); [exists []; simpl; done|].
    destruct (IH (S k) w1) as [evs ->]. rewrite Hpoll.
    exists ([Poll lbl (py_str job_id)] ++ evs). by rewrite <- app_assoc.
Qed.

(** C9: [wait] raises [runpod_job_timeout] only when its timeout is
    truthy.  With [None] or zero no timeout error is ever raised and,
    while the polled statuses stay undecided, the loop is still polling
    after any number of polls.  The elapsed-time check comes after the
    poll: whatever the outcome, and whatever the clock shows at entry,
    the first thing a wait does is one status poll. *)
Theorem wait_timeout_needs_truthy_timeout fuel lbl ep job_id timeout k w :
  (timeout_set timeout = false ->
   forall e w', wait_from fuel lbl ep job_id timeout k w = (Raise e, w') ->
                error_tag e <> Some "runpod_job_timeout"%string)
  /\ (timeout_set timeout = false ->
      (forall i, exists polled state,
          status_reply ep (py_str job_id) i = inr (VDict polled)
          /\ classify polled = Continue state) ->
      (wait_from fuel lbl ep job_id timeout k w).1 = Pending
      /\ trace (wait_from fuel lbl ep job_id timeout k w).2 =
         trace w ++ repeat (Poll lbl (py_str job_id)) fuel)
  /\ (exists evs, trace (wait_from (S fuel) lbl ep job_id timeout k w).2 =
                  trace w ++ Poll lbl (py_str job_id) :: evs).
Proof.
  split; [|split].
  - intros Hunset e w'. by apply wait_no_timeout_unless_set.
  - by apply wait_polls_forever.
  - apply wait_polls_first.
Qed.

Lemma wait_timeout_needs_truthy_timeout_witness :
  (wait_from 3 Sovits (answering in_queue) (VStr "job-1") (Some 0) 0 w0).1 = Pending
  /\ trace (wait_from 3 Sovits (answering in_queue) (VStr "job-1") (Some 0) 0 w0).2 =
     [Poll Sovits "job-1"; Poll Sovits "job-1"; Poll Sovits "job-1"].
Proof.
  refine (proj1 (proj2 (wait_timeout_needs_truthy_timeout 3 Sovits (answering in_queue)
                          (VStr "job-1") (Some 0) 0%nat w0)) eq_refl _).
  intros i. exists in_queue, "IN_QUEUE"%string. split; reflexivity.
Defined.

(** With a deadline that is already over at entry the timeout still
    waits for the first poll. *)
Example wait_overdue_polls_once :
  wait 5 Sovits (answering in_queue) (VStr "job-1") (Some (-1)) w0 =
  (Raise (timeout_error (VStr "job-1") "IN_QUEUE"), World ∅ ∅ 0 [Poll Sovits "job-1"]).
Proof. reflexivity. Qed.

(** ** The task store: reads *)

Section StoreReads.

Context (wall : nat -> Z) (st : JobStore) (task_id : string).

Lemma get_hit w v ex :
  cache w !! _key st task_id = Some (Json v, ex) ->
  get wall st task_id w =
  (Ret v, World (cache w) (disk w) (ticks w) (trace w ++ [CacheGet (_key st task_id)])).
Proof. intros Hhit. unfold get, bind, cache_get. simpl. by rewrite Hhit. Qed.

(** C10: a cache entry that does not parse ends [get] with [None]; the
    only operation performed is the cache read, so the disk mirror is
    neither read nor purged and the cache entry stays. *)
Theorem get_garbled_cache_entry w ex :
  cache w !! _key st task_id = Some (Garbled, ex) ->
  get wall st task_id w =
  (Ret VNone, World (cache w) (disk w) (ticks w) (trace w ++ [CacheGet (_key st task_id)])).
Proof. intros Hhit. unfold get, bind, cache_get. simpl. by rewrite Hhit. Qed.

(** What [write] does when the record carries a string [task_id]. *)
Lemma write_spec w job tid :
  dict_get "task_id" job = Some (VStr tid) ->
  write wall st job w =
  (Ret (VDict (json_safe_dict job)),
   let cache' := <[_key st tid := (Json (VDict (json_safe_dict job)), ttl st)]> (cache w) in
   let set := CacheSet (_key st tid) (VDict (json_safe_dict job)) (ttl st) in
   match persist_path st with
   | Some dir =>
       let tmp := tmp_name {| parent := dir; name := backup_name tid |} in
       if too_long tmp then World cache' (disk w) (S (ticks w)) (trace w ++ [set])
       else if too_long (backup_name tid)
       then World cache' (delete tmp (disk w)) (S (ticks w)) (trace w ++ [set])
       else World cache'
                  (delete tmp
                     (<[backup_name tid := Json (backup_content st job (wall (ticks w)))]> (disk w)))
                  (S (ticks w))
                  (trace w ++ [set; DiskWrite (backup_name tid)
                                      (backup_content st job (wall (ticks w)))])
   | None => World cache' (disk w) (ticks w) (trace w ++ [set])
   end).
Proof.
  intros Htid. unfold write. rewrite Htid.
  unfold bind, cache_set, _write_backup, bind, lift, time_time, ret. simpl.
  rewrite dict_get_json_safe, Htid. simpl.
  destruct (persist_path st) as [dir|] eqn:Hdir.
  - rewrite (backup_path_str st dir) by done. simpl.
    destruct (too_long (tmp_name _)); [done|].
    destruct (too_long (backup_name tid)); [done|]. simpl. by rewrite <- app_assoc.
  - unfold _backup_path. by rewrite Hdir.
Qed.

Context (dir : string) (Hdir : persist_path st = Some dir).

Local Abbreviation key := (_key st task_id).
Local Abbreviation file := (backup_name task_id).

Lemma get_miss w :
  cache w !! key = None ->
  get wall st task_id w =
  match _read_backup wall st task_id
          (World (cache w) (disk w) (ticks w) (trace w ++ [CacheGet key])) with
  | (Ret payload, w') =>
      if negb (truthy payload) then (Ret VNone, w')
      else (Ret payload,
            World (<[key := (Json payload, ttl st)]> (cache w')) (disk w') (ticks w')
                  (trace w' ++ [CacheSet key payload (ttl st)]))
  | (Raise e, w') => (Raise e, w')
  | (Pending, w') => (Pending, w')
  end.
Proof.
  intros Hmiss. unfold get, bind at 1, cache_get. simpl. rewrite Hmiss. simpl.
  unfold bind at 1.
  destruct (_read_backup _ _ _ _) as [[payload|e|] w']; try done.
  by destruct (truthy payload).
Qed.

Lemma read_backup_refused w :
  too_long file = true ->
  _read_backup wall st task_id w =
  (Raise name_too_long, World (cache w) (disk w) (ticks w) (trace w ++ [DiskStat file])).
Proof.
  intros Hlong. unfold _read_backup. rewrite (backup_path_str st dir) by done.
  unfold bind, lift, ret, disk_read. simpl. by rewrite Hlong.
Qed.

Lemma read_backup_absent w :
  too_long file = false ->
  disk w !! file = None ->
  _read_backup wall st task_id w =
  (Ret VNone, World (cache w) (disk w) (ticks w) (trace w ++ [DiskStat file])).
Proof.
  intros Hfit Hno. unfold _read_backup. rewrite (backup_path_str st dir) by done.
  unfold bind, lift, ret, disk_read. simpl. by rewrite Hfit, Hno.
Qed.

Lemma read_backup_garbled w :
  too_long file = false ->
  disk w !! file = Some Garbled ->
  _read_backup wall st task_id w =
  (Ret VNone, World (cache w) (delete file (disk w)) (ticks w)
                    (trace w ++ [DiskStat file; DiskRead file; DiskPurge file])).
Proof.
  intros Hfit Hf. unfold _read_backup. rewrite (backup_path_str st dir) by done.
  unfold bind, lift, ret, disk_read, _purge_backup. simpl. rewrite Hfit, Hf. simpl.
  by rewrite <- app_assoc.
Qed.

Lemma read_backup_unreadable w m :
  too_long file = false ->
  disk w !! file = Some (Unreadable m) ->
  _read_backup wall st task_id w =
  (Raise (misread_error m),
   World (cache w) (disk w) (ticks w) (trace w ++ [DiskStat file; DiskRead file])).
Proof.
  intros Hfit Hf. unfold _read_backup. rewrite (backup_path_str st dir) by done.
  unfold bind, lift, ret, raise, disk_read. simpl. by rewrite Hfit, Hf.
Qed.

Lemma read_backup_not_object w v :
  too_long file = false ->
  disk w !! file = Some (Json v) -> is_dict v = false ->
  _read_backup wall st task_id w =
  (Raise (Error "AttributeError" "object has no attribute 'get'"),
   World (cache w) (disk w) (ticks w) (trace w ++ [DiskStat file; DiskRead file])).
Proof.
  intros Hfit Hf Hv. unfold _read_backup. rewrite (backup_path_str st dir) by done.
  unfold bind, lift, ret, raise, disk_read. simpl. rewrite Hfit, Hf. by destruct v.
Qed.

(** A backup that holds an object, branch by branch. *)
Lemma read_backup_object w data :
  too_long file = false ->
  disk w !! file = Some (Json (VDict data)) ->
  _read_backup wall st task_id w =
  let expires_at := get_or_none "expires_at" data in
  let payload := get_or_none "payload" data in
  let read := trace w ++ [DiskStat file; DiskRead file] in
  if truthy expires_at then
    match as_number expires_at with
    | None => (Raise (Error "TypeError" "'<' not supported"),
               World (cache w) (disk w) (S (ticks w)) read)
    | Some e =>
        if e <? wall (ticks w)
        then (Ret VNone, World (cache w) (delete file (disk w)) (S (ticks w))
                               (read ++ [DiskPurge file]))
        else if is_dict payload
        then (Ret payload, World (cache w) (disk w) (S (ticks w)) read)
        else (Ret VNone, World (cache w) (delete file (disk w)) (S (ticks w))
                               (read ++ [DiskPurge file]))
    end
  else if is_dict payload
  then (Ret payload, World (cache w) (disk w) (ticks w) read)
  else (Ret VNone, World (cache w) (delete file (disk w)) (ticks w)
                         (read ++ [DiskPurge file])).
Proof.
  intros Hfit Hf. unfold _read_backup. rewrite (backup_path_str st dir) by done.
  unfold bind, lift, ret, raise, disk_read, _purge_backup, time_time. simpl.
  rewrite Hfit, Hf. simpl.
  destruct (truthy (get_or_none "expires_at" data)); simpl.
  - destruct (as_number (get_or_none "expires_at" data)) as [e|]; simpl; [|done].
    destruct (e <? wall (ticks w)); simpl; [done|].
    by destruct (is_dict (get_or_none "payload" data)).
  - by destruct (is_dict (get_or_none "payload" data)).
Qed.

Lemma read_backup_dated w data e :
  too_long file = false ->
  disk w !! file = Some (Json (VDict data)) ->
  dict_get "expires_at" data = Some (VNum e) -> e <> 0 ->
  _read_backup wall st task_id w =
  if e <? wall (ticks w)
  then (Ret VNone, World (cache w) (delete file (disk w)) (S (ticks w))
                         (trace w ++ [DiskStat file; DiskRead file; DiskPurge file]))
  else match get_or_none "payload" data with
       | VDict p => (Ret (VDict p), World (cache w) (disk w) (S (ticks w))
                                          (trace w ++ [DiskStat file; DiskRead file]))
       | _ => (Ret VNone, World (cache w) (delete file (disk w)) (S (ticks w))
                               (trace w ++ [DiskStat file; DiskRead file; DiskPurge file]))
       end.
Proof.
  intros Hfit Hf He Hnz. rewrite (read_backup_object w data) by done. cbv zeta.
  assert (get_or_none "expires_at" data = VNum e) as ->.
  { unfold get_or_none. by rewrite He. }
  simpl. destruct (Z.eqb_spec e 0) as [|_]; [done|]. simpl.
  destruct (e <? wall (ticks w)); simpl; [by rewrite <- app_assoc|].
  destruct (get_or_none "payload" data); simpl; by rewrite <- ?app_assoc.
Qed.

Lemma length_append s t :
  String.length (s +:+ t) = (String.length s + String.length t)%nat.
Proof. induction s as [|c s IH]; simpl; [done|]. by rewrite IH. Qed.

Lemma substring_append s t : substring 0 (String.length s) (s +:+ t) = s.
Proof. induction s as [|c s IH]; simpl; [by destruct t|]. by rewrite IH. Qed.

Lemma tmp_name_backup parent0 tid :
  tmp_name {| parent := parent0; name := backup_name tid |} =
  or_task (filter_str safe_char tid) +:+ ".tmp".
Proof.
  unfold tmp_name, backup_name. simpl. rewrite length_append. simpl.
  replace (String.length (or_task (filter_str safe_char tid)) + 5 - 5)%nat
    with (String.length (or_task (filter_str safe_char tid))) by lia.
  by rewrite substring_append.
Qed.

Lemma tmp_name_fresh parent0 tid :
  tmp_name {| parent := parent0; name := backup_name tid |} <> backup_name tid.
Proof.
  rewrite tmp_name_backup. unfold backup_name. intros Heq.
  apply (f_equal String.length) in Heq. rewrite !length_append in Heq. simpl in Heq. lia.
Qed.

Lemma fs_length_append s t : fs_length (s +:+ t) = (fs_length s + fs_length t)%nat.
Proof. induction s as [|c s IH]; simpl; [done|]. rewrite IH. lia. Qed.

(** The temporary name is one byte shorter than the name of the backup. *)
Lemma tmp_name_fits parent0 tid :
  too_long (backup_name tid) = false ->
  too_long (tmp_name {| parent := parent0; name := backup_name tid |}) = false.
Proof.
  rewrite tmp_name_backup. unfold too_long, backup_name. rewrite !fs_length_append. simpl.
  intros H%Nat.ltb_ge. apply Nat.ltb_ge. lia.
Qed.

(** The backup [write] leaves for a task whose backup name fits. *)
Lemma write_leaves_backup w job :
  too_long file = false ->
  dict_get "task_id" job = Some (VStr task_id) ->
  disk (write wall st job w).2 !! file =
  Some (Json (backup_content st job (wall (ticks w)))).
Proof.
  intros Hfit Htid. rewrite (write_spec w job task_id Htid), Hdir. simpl.
  rewrite (tmp_name_fits dir task_id Hfit), Hfit. simpl.
  rewrite lookup_delete_ne by apply tmp_name_fresh. by rewrite lookup_insert_eq.
Qed.

(** A backup as [write] leaves it is read back while it is in date. *)
Lemma get_restores w job now :
  cache w !! key = None ->
  too_long file = false ->
  disk w !! file = Some (Json (backup_content st job now)) ->
  job <> [] ->
  wall (ticks w) <= now + persist_ttl st ->
  (get wall st task_id w).1 = Ret (VDict (json_safe_dict job))
  /\ cache (get wall st task_id w).2 !! key = Some (Json (VDict (json_safe_dict job)), ttl st)
  /\ disk (get wall st task_id w).2 = disk w.
Proof.
  intros Hmiss Hfit Hf Hne Hle. rewrite get_miss by done.
  rewrite (read_backup_object
             (World (cache w) (disk w) (ticks w) (trace w ++ [CacheGet key])) _ Hfit Hf).
  cbv zeta.
  assert (exists kv rest, json_safe_dict job = kv :: rest) as (kv & rest & Hjob).
  { destruct job as [|[k v] job]; [done|]. simpl. eauto. }
  change (get_or_none "expires_at" _) with (VNum (now + persist_ttl st)).
  change (get_or_none "payload" _) with (VDict (json_safe_dict job)).
  cbn [truthy as_number is_dict ticks cache disk trace]. rewrite Hjob.
  destruct (Z.ltb_spec (now + persist_ttl st) (wall (ticks w))); [lia|].
  destruct (negb (now + persist_ttl st =? 0)); simpl; by rewrite lookup_insert_eq.
Qed.


End StoreReads.

Lemma get_garbled_cache_entry_witness :
  get wall0 store0 "t1" garbled_cache =
  (Ret VNone, World (cache garbled_cache) ∅ 0 [CacheGet "ff:task:t1"]).
Proof. exact (get_garbled_cache_entry wall0 store0 "t1" garbled_cache 604800 eq_refl). Defined.


(** C5 does not hold as stated: a backup whose payload is no mapping is
    not always deleted.  With an expiry that is truthy but no number
    [get] raises [TypeError] on a cache miss and the file stays. *)
Lemma get_keeps_corrupt_backup :
  cache corrupt_backup !! "ff:task:t1"%string = None
  /\ (exists data,
      disk corrupt_backup !! backup_name "t1" = Some (Json (VDict data))
      /\ is_dict (get_or_none "payload" data) = false)
  /\ (get wall0 store0 "t1" corrupt_backup).1 = Raise (Error "TypeError" "'<' not supported")
  /\ disk (get wall0 store0 "t1" corrupt_backup).2 = disk corrupt_backup.
Proof.
  split; [reflexivity|]. split; [|split; reflexivity].
  eexists. split; reflexivity.
Qed.

(** ** The task store: read-modify-write *)

Lemma apply_update_dict d key v :
  mergeable (dict_get key d) key v = true ->
  apply_update (VDict d) (key, v) =
  inr (VDict (dict_set key (merge_field (dict_get key d) key v) d)).
Proof.
  unfold mergeable, apply_update, merge_field.
  destruct (String.eqb_spec key "details") as [->|Hd]; simpl.
  - destruct v; simpl; try done.
    by destruct (dict_get "details" d) as [[]|].
  - destruct (String.eqb_spec key "progress") as [->|Hp]; simpl.
    + destruct v; simpl; try done.
      by destruct (dict_get "progress" d) as [[]|].
    + by destruct v.
Qed.

(** The loop of [update_fields], key by key. *)
Lemma apply_updates_dict us : forall d,
  NoDup (us.*1) ->
  (forall k v, dict_get k us = Some v -> mergeable (dict_get k d) k v = true) ->
  exists d',
    apply_updates (VDict d) us = inr (VDict d')
    /\ forall k, dict_get k d' =
                 match dict_get k us with
                 | Some v => Some (merge_field (dict_get k d) k v)
                 | None => dict_get k d
                 end.
Proof.
  induction us as [|[k0 v0] us IH]; intros d Hnd Hok.
  - by exists d.
  - cbn [apply_updates]. inversion Hnd as [|? ? Hnotin Hnd']; subst.
    assert (dict_get k0 us = None) as Hfresh.
    { clear -Hnotin. induction us as [|[k1 v1] us IH]; simpl in *; [done|].
      apply not_elem_of_cons in Hnotin as [Hk Hu].
      destruct (String.eqb_spec k0 k1); [done|]. by apply IH. }
    rewrite apply_update_dict.
    2:{ apply Hok. simpl. by rewrite String.eqb_refl. }
    destruct (IH (dict_set k0 (merge_field (dict_get k0 d) k0 v0) d) Hnd') as (d' & Heq & Hget).
    { intros k v Hk. assert (k <> k0) as Hne by (intros ->; congruence).
      rewrite dict_get_set_ne by congruence. apply Hok. simpl.
      by destruct (String.eqb_spec k k0). }
    exists d'. split; [done|]. intros k. rewrite Hget. simpl.
    destruct (String.eqb_spec k k0) as [->|Hne].
    + by rewrite Hfresh, dict_get_set_eq.
    + destruct (dict_get k us); by rewrite dict_get_set_ne by congruence.
Qed.

Section StoreUpdates.

Context (wall : nat -> Z) (iso : Z -> string) (st : JobStore) (task_id : string).

Local Abbreviation key := (_key st task_id).

(** The world [write] leaves behind. *)
Lemma write_world w job tid :
  dict_get "task_id" job = Some (VStr tid) ->
  (write wall st job w).1 = Ret (VDict (json_safe_dict job))
  /\ cache (write wall st job w).2 =
     <[_key st tid := (Json (VDict (json_safe_dict job)), ttl st)]> (cache w)
  /\ ticks (write wall st job w).2 = (ticks w + (ticks_per_call st - 2))%nat
  /\ exists evs,
       trace (write wall st job w).2 =
       trace w ++ CacheSet (_key st tid) (VDict (json_safe_dict job)) (ttl st) :: evs
       /\ (evs = [] \/ exists now, evs = [DiskWrite (backup_name tid) (backup_content st job now)]).
Proof.
  intros Htid. rewrite (write_spec wall st w job tid Htid). unfold ticks_per_call.
  destruct (persist_path st) as [dir|]; simpl.
  - destruct (too_long (tmp_name _)); [|destruct (too_long (backup_name tid))]; simpl;
      (split; [done|split; [done|split; [lia|]]]); eauto.
  - split; [done|]. split; [done|]. split; [lia|]. eauto.
Qed.

Lemma update_fields_found w w1 job us :
  get wall st task_id w = (Ret (VDict job), w1) -> job <> [] ->
  NoDup (us.*1) ->
  (forall k v, dict_get k us = Some v -> mergeable (dict_get k job) k v = true) ->
  exists d',
    (forall k, dict_get k d' =
               if (k =? "updated_at")%string then Some (VStr (iso (wall (ticks w1))))
               else match dict_get k us with
                    | Some v => Some (merge_field (dict_get k job) k v)
                    | None => dict_get k job
                    end)
    /\ update_fields wall iso st task_id us w =
       write wall st d' (World (cache w1) (disk w1) (S (ticks w1)) (trace w1)).
Proof.
  intros Hget Hne Hnd Hok.
  destruct (apply_updates_dict us job Hnd Hok) as (d' & Happ & Hfields).
  exists (dict_set "updated_at" (VStr (iso (wall (ticks w1)))) d'). split.
  - intros k. rewrite dict_get_set. destruct (k =? "updated_at")%string; [done|apply Hfields].
  - unfold update_fields, bind at 1. rewrite Hget.
    destruct job; [done|]. simpl truthy. simpl negb. cbv iota.
    unfold bind at 1. rewrite Happ. simpl. by unfold bind at 1.
Qed.

Lemma update_fields_missing w w1 v us :
  get wall st task_id w = (Ret v, w1) -> truthy v = false ->
  update_fields wall iso st task_id us w = (Ret VNone, w1).
Proof.
  intros Hget Hfalsy. unfold update_fields, bind at 1. by rewrite Hget, Hfalsy.
Qed.

(** C6: [update_fields] reads the record, merges the updates into it
    field by field and writes it back.  Under a [details] key the given
    mapping is merged into the existing one, key by key; under a
    [progress] key the given list is appended to the existing one; any
    other update replaces the field; fields without an update are kept;
    [updated_at] is the time of the call.  The sanitised record is
    returned and is what the cache then holds.  When the task does not
    exist the result is [None] and nothing is written. *)
Theorem update_fields_merges w :
  (forall job w1 us tid,
      get wall st task_id w = (Ret (VDict job), w1) -> job <> [] ->
      NoDup (us.*1) ->
      (forall k v, dict_get k us = Some v -> mergeable (dict_get k job) k v = true) ->
      match dict_get "task_id" us with
      | Some v => v
      | None => get_or_none "task_id" job
      end = VStr tid ->
      exists r w2,
        update_fields wall iso st task_id us w = (Ret (VDict r), w2)
        /\ cache w2 !! _key st tid = Some (Json (VDict r), ttl st)
        /\ json_safe_dict r = r
        /\ dict_get "updated_at" r = Some (VStr (iso (wall (ticks w1))))
        /\ (forall u, dict_get "details" us = Some (VDict u) -> NoDup (u.*1) ->
            exists merged,
              dict_get "details" r = Some (VDict merged)
              /\ forall k, dict_get k merged =
                           _json_safe <$> match dict_get k u with
                                          | Some x => Some x
                                          | None => dict_get k (dict_of (dict_get "details" job))
                                          end)
        /\ (forall l, dict_get "progress" us = Some (VList l) ->
            dict_get "progress" r =
            Some (VList (List.map _json_safe (list_of (dict_get "progress" job) ++ l))))
        /\ (forall k v, dict_get k us = Some v -> k <> "updated_at"%string ->
            (k = "details"%string -> is_dict v = false) ->
            (k = "progress"%string -> is_list v = false) ->
            dict_get k r = Some (_json_safe v))
        /\ (forall k, dict_get k us = None -> k <> "updated_at"%string ->
            dict_get k r = _json_safe <$> dict_get k job))
  /\ (forall v w1 us,
      get wall st task_id w = (Ret v, w1) -> truthy v = false ->
      update_fields wall iso st task_id us w = (Ret VNone, w1)).
Proof.
  split; [|intros v w1 us; apply update_fields_missing].
  intros job w1 us tid Hget Hne Hnd Hok Htid.
  destruct (update_fields_found w w1 job us Hget Hne Hnd Hok) as (d' & Hfields & Heq).
  assert (dict_get "task_id" d' = Some (VStr tid)) as Htid'.
  { rewrite Hfields. simpl. unfold get_or_none in Htid.
    destruct (dict_get "task_id" us) as [v|] eqn:Hu.
    - subst v. unfold merge_field. done.
    - destruct (dict_get "task_id" job); simpl in Htid; by subst. }
  set (w1' := World (cache w1) (disk w1) (S (ticks w1)) (trace w1)) in *.
  destruct (write_world w1' d' tid Htid') as (Hret & Hcache & _).
  exists (json_safe_dict d'), (write wall st d' w1').2.
  rewrite Heq. split; [by apply injective_projections|].
  split; [by rewrite Hcache, lookup_insert_eq|].
  split; [apply json_safe_dict_idem|].
  split; [by rewrite dict_get_json_safe, Hfields|].
  split; [|split; [|split]].
  - intros u Hu Hndu. exists (json_safe_dict (dict_update (dict_of (dict_get "details" job)) u)).
    split.
    + rewrite dict_get_json_safe, Hfields, Hu. done.
    + intros k. rewrite dict_get_json_safe, dict_get_update by done. done.
  - intros l Hl. rewrite dict_get_json_safe, Hfields, Hl. done.
  - intros k v Hk Hupd Hd Hp. rewrite dict_get_json_safe, Hfields, Hk.
    destruct (String.eqb_spec k "updated_at"); [done|]. simpl. f_equal. f_equal.
    unfold merge_field. destruct v; try done.
    + destruct (String.eqb_spec k "progress"); [|done]. by specialize (Hp ltac:(done)).
    + destruct (String.eqb_spec k "details"); [|done]. by specialize (Hd ltac:(done)).
  - intros k Hk Hupd. rewrite dict_get_json_safe, Hfields, Hk.
    by destruct (String.eqb_spec k "updated_at").
Qed.

End StoreUpdates.

Lemma mergeable_wellformed r :
  (forall x, dict_get "details" r = Some x -> is_dict x = true) ->
  (forall x, dict_get "progress" r = Some x -> is_list x = true) ->
  forall k v, mergeable (dict_get k r) k v = true.
Proof.
  intros Hd Hp k v. unfold mergeable.
  destruct (String.eqb_spec k "details") as [->|_]; simpl.
  - destruct (is_dict v); simpl; [|done].
    destruct (dict_get "details" r) as [x|] eqn:Hx; [|done].
    specialize (Hd x eq_refl). by destruct x.
  - destruct (String.eqb_spec k "progress") as [->|_]; simpl; [|done].
    destruct (is_list v); simpl; [|done].
    destruct (dict_get "progress" r) as [x|] eqn:Hx; [|done].
    specialize (Hp x eq_refl). by destruct x.
Qed.

Lemma safe_field r k v :
  json_safe_dict r = r -> dict_get k r = Some v -> _json_safe v = v.
Proof.
  intros Hsafe Hk. pose proof (dict_get_json_safe k r) as H.
  rewrite Hsafe, Hk in H. simpl in H. congruence.
Qed.

Lemma safe_fields r k :
  json_safe_dict r = r -> _json_safe <$> dict_get k r = dict_get k r.
Proof. intros Hsafe. by rewrite <- dict_get_json_safe, Hsafe. Qed.

Lemma concrete_NoDup (l : list string) : bool_decide (NoDup l) = true -> NoDup l.
Proof. apply bool_decide_eq_true_1. Qed.

Section StoredUpdates.

Context (wall : nat -> Z) (iso : Z -> string) (st : JobStore) (task_id : string).

Local Abbreviation key := (_key st task_id).

(** [update_fields] on a record that the cache holds under its own
    [task_id]. *)
Lemma update_fields_stored w r ex us :
  cache w !! key = Some (Json (VDict r), ex) ->
  dict_get "task_id" r = Some (VStr task_id) ->
  json_safe_dict r = r ->
  NoDup (us.*1) ->
  (forall k v, dict_get k us = Some v -> mergeable (dict_get k r) k v = true) ->
  dict_get "task_id" us = None ->
  exists r' w' evs,
    update_fields wall iso st task_id us w = (Ret (VDict r'), w')
    /\ cache w' = <[key := (Json (VDict r'), ttl st)]> (cache w)
    /\ ticks w' = (ticks w + (ticks_per_call st - 1))%nat
    /\ trace w' = trace w ++ CacheGet key :: CacheSet key (VDict r') (ttl st) :: evs
    /\ (evs = [] \/ exists c, evs = [DiskWrite (backup_name task_id)
                                      (VDict [("payload", VDict r'); ("expires_at", c)]%string)])
    /\ dict_get "task_id" r' = Some (VStr task_id)
    /\ json_safe_dict r' = r'
    /\ forall k, dict_get k r' =
                 if (k =? "updated_at")%string then Some (VStr (iso (wall (ticks w))))
                 else match dict_get k us with
                      | Some v => Some (_json_safe (merge_field (dict_get k r) k v))
                      | None => dict_get k r
                      end.
Proof.
  intros Hhit Htid Hsafe Hnd Hok Hus.
  pose proof (get_hit wall st task_id w _ _ Hhit) as Hget.
  destruct (update_fields_found wall iso st task_id w _ r us Hget
              (dict_get_Some_not_nil _ _ _ Htid) Hnd Hok) as (d' & Hfields & Heq).
  simpl in Hfields, Heq.
  assert (dict_get "task_id" d' = Some (VStr task_id)) as Htid'.
  { rewrite Hfields. simpl. by rewrite Hus. }
  assert (forall k, dict_get k (json_safe_dict d') =
                 if (k =? "updated_at")%string then Some (VStr (iso (wall (ticks w))))
                 else match dict_get k us with
                      | Some v => Some (_json_safe (merge_field (dict_get k r) k v))
                      | None => dict_get k r
                      end) as Hfields'.
  { intros k. rewrite dict_get_json_safe, Hfields.
    destruct (k =? "updated_at")%string; [done|].
    destruct (dict_get k us); [done|]. by apply safe_fields. }
  set (w1 := World (cache w) (disk w) (S (ticks w)) (trace w ++ [CacheGet key])) in *.
  destruct (write_world wall st w1 d' task_id Htid')
    as (Hret & Hcache & Hticks & evs & Htrace & Hevs).
  exists (json_safe_dict d'), (write wall st d' w1).2, evs. rewrite Heq.
  split; [by apply injective_projections|]. split; [done|].
  split; [rewrite Hticks; unfold ticks_per_call; simpl; destruct (persist_path st); lia|].
  split; [rewrite Htrace; simpl; by rewrite <- app_assoc|].
  split; [destruct Hevs as [->|[now ->]]; [by left|right; eexists; reflexivity]|].
  split; [rewrite Hfields'; simpl; by rewrite Hus|].
  split; [apply json_safe_dict_idem|done].
Qed.

(** One [append_progress] on such a record. *)
Lemma append_progress_stored w r ex old message stage extra :
  cache w !! key = Some (Json (VDict r), ex) ->
  dict_get "task_id" r = Some (VStr task_id) ->
  json_safe_dict r = r ->
  dict_get "progress" r = Some (VList old) ->
  exists r' w' evs,
    append_progress wall iso st task_id message stage extra w = (Ret tt, w')
    /\ cache w' = <[key := (Json (VDict r'), ttl st)]> (cache w)
    /\ ticks w' = (ticks w + ticks_per_call st)%nat
    /\ trace w' = trace w ++ CacheGet key :: CacheSet key (VDict r') (ttl st) :: evs
    /\ (evs = [] \/ exists c, evs = [DiskWrite (backup_name task_id)
                                      (VDict [("payload", VDict r'); ("expires_at", c)]%string)])
    /\ dict_get "task_id" r' = Some (VStr task_id)
    /\ json_safe_dict r' = r'
    /\ dict_get "progress" r' =
       Some (VList (old ++ [_json_safe (VDict (progress_entry (iso (wall (ticks w)))
                                                  message stage extra))]))
    /\ forall k, k <> "progress"%string -> k <> "updated_at"%string ->
                 dict_get k r' = dict_get k r.
Proof.
  intros Hhit Htid Hsafe Hprog.
  unfold append_progress, bind at 1, _now_iso.
  set (entry := progress_entry (iso (wall (ticks w))) message stage extra).
  set (w1 := World (cache w) (disk w) (S (ticks w)) (trace w)).
  destruct (update_fields_stored w1 r ex [("progress", VList [VDict entry])]%string)
    as (r' & w' & evs & Heq & Hcache & Hticks & Htrace & Hevs & Htid' & Hsafe' & Hfields);
    try done.
  { apply concrete_NoDup. reflexivity. }
  { intros k v Hk. simpl in Hk.
    destruct (String.eqb_spec k "progress") as [->|]; [|done].
    injection Hk as <-. unfold mergeable. simpl. by rewrite Hprog. }
  exists r', w', evs. unfold bind at 1. rewrite Heq. simpl.
  split; [done|]. split; [done|].
  split; [rewrite Hticks; unfold ticks_per_call; simpl; destruct (persist_path st); lia|].
  split; [done|]. split; [done|]. split; [done|]. split; [done|]. split.
  - rewrite Hfields. simpl. rewrite Hprog. simpl. f_equal. f_equal.
    rewrite map_app. simpl. f_equal.
    pose proof (safe_field r _ _ Hsafe Hprog) as Hold. simpl in Hold. congruence.
  - intros k Hp Hu. rewrite Hfields. simpl.
    destruct (String.eqb_spec k "updated_at"); [done|].
    by destruct (String.eqb_spec k "progress").
Qed.

Lemma append_all_stored calls : forall w r ex old,
  cache w !! key = Some (Json (VDict r), ex) ->
  dict_get "task_id" r = Some (VStr task_id) ->
  json_safe_dict r = r ->
  dict_get "progress" r = Some (VList old) ->
  exists r' w' ex',
    append_all wall iso st task_id calls w = (Ret tt, w')
    /\ cache w' !! key = Some (Json (VDict r'), ex')
    /\ dict_get "progress" r' =
       Some (VList (old ++ expected_entries wall iso st (ticks w) calls)).
Proof.
  induction calls as [|[[message stage] extra] calls IH]; intros w r ex old Hhit Htid Hsafe Hprog.
  - exists r, w, ex. simpl. by rewrite app_nil_r.
  - destruct (append_progress_stored w r ex old message stage extra)
      as (r1 & w1 & evs & Heq & Hcache & Hticks & _ & _ & Htid1 & Hsafe1 & Hprog1 & _);
      try done.
    destruct (IH w1 r1 (ttl st)
                (old ++ [_json_safe (VDict (progress_entry (iso (wall (ticks w)))
                                              message stage extra))]))
      as (r' & w' & ex' & Heq' & Hcache' & Hprog'); try done.
    { by rewrite Hcache, lookup_insert_eq. }
    exists r', w', ex'. cbn [append_all]. unfold bind at 1. rewrite Heq.
    split; [done|]. split; [done|].
    rewrite Hprog', Hticks. simpl. by rewrite <- app_assoc.
Qed.

End StoredUpdates.

(** ** The engine, step by step *)

Lemma wp_ret {A} (a : A) w Q : Q (Ret a) w -> wp (ret a) w Q.
Proof. done. Qed.

Lemma wp_raise {A} e w (Q : outcome A -> world -> Prop) : Q (Raise e) w -> wp (raise e) w Q.
Proof. done. Qed.

Lemma wp_lift {A} (x : exn + A) w Q :
  match x with inl e => Q (Raise e) w | inr a => Q (Ret a) w end -> wp (lift x) w Q.
Proof. by destruct x. Qed.

Lemma wp_bind {A B} (m : M A) (k : A -> M B) w Q :
  wp m w (fun o w' =>
            match o with
            | Ret a => wp (k a) w' Q
            | Raise e => Q (Raise e) w'
            | Pending => Q Pending w'
            end) ->
  wp (bind m k) w Q.
Proof. unfold wp, bind. by destruct (m w) as [[a|e|] w']. Qed.

Lemma wp_try {A} (m : M A) (h : exn -> M A) w Q :
  wp m w (fun o w' =>
            match o with
            | Raise e => wp (h e) w' Q
            | _ => Q o w'
            end) ->
  wp (try_except m h) w Q.
Proof. unfold wp, try_except. by destruct (m w) as [[a|e|] w']. Qed.

Lemma wp_mono {A} (m : M A) w (Q Q' : outcome A -> world -> Prop) :
  wp m w Q -> (forall o w', Q o w' -> Q' o w') -> wp m w Q'.
Proof. unfold wp. auto. Qed.

Lemma records_app evs seg : records (evs ++ seg) = records evs ++ records seg.
Proof. apply omap_app. Qed.

Lemma submits_app evs seg : submits (evs ++ seg) = submits evs ++ submits seg.
Proof. apply omap_app. Qed.

Lemma stages_app evs seg : stages (evs ++ seg) = stages evs ++ stages seg.
Proof. unfold stages. by rewrite submits_app, fmap_app. Qed.

Lemma extends_refl r : extends r r.
Proof. unfold extends. reflexivity. Qed.

Lemma extends_trans r1 r2 r3 : extends r1 r2 -> extends r2 r3 -> extends r1 r3.
Proof. unfold extends. intros. by etrans. Qed.

Lemma StronglySorted_snoc {A} (R : A -> A -> Prop) l x :
  StronglySorted R l -> Forall (fun y => R y x) l -> StronglySorted R (l ++ [x]).
Proof.
  induction 1 as [|a l Hl IH Ha]; intros Hx; simpl.
  - repeat constructor.
  - inversion Hx; subst. constructor; [by apply IH|].
    apply Forall_app. split; [done|]. by constructor.
Qed.

Lemma last_snoc_twice {A} (l : list A) x : last ((l ++ [x]) ++ [x]) = Some x.
Proof. by rewrite last_snoc. Qed.

Section Rules.

Context (wall : nat -> Z) (iso : Z -> string).
Context (st : JobStore) (task_id : string) (req : PipelineRequest) (base : list event).

Local Abbreviation run_state := (holds st task_id req base).

(** The record takes the place of [r] as the last one written. *)
Lemma holds_written r r' evs seg w w' :
  run_state r evs w ->
  trace w' = trace w ++ seg ->
  cache w' = <[_key st task_id := (Json (VDict r'), ttl st)]> (cache w) ->
  (records seg = [r'] \/ records seg = [r'; r']) ->
  good task_id r' -> record_ok req r' -> extends r r' ->
  run_state r' (evs ++ seg) w'.
Proof.
  intros (Htr & Hc & Hg & Hok & Hlast & Hall & Hsorted) Htr' Hc' Hrec Hg' Hok' Hext.
  assert (Forall (fun r0 => record_ok req r0 /\ extends r0 r') (records evs)) as Hall'.
  { eapply Forall_impl; [exact Hall|]. intros r0 [? ?]. split; [done|].
    by eapply extends_trans. }
  assert (Forall (fun y => extends y r') (records evs)) as Hext'.
  { eapply Forall_impl; [exact Hall'|]. by intros r0 [? ?]. }
  unfold holds. rewrite Htr', Htr, <- app_assoc, records_app.
  split; [done|]. split; [by rewrite Hc', lookup_insert_eq|].
  split; [done|]. split; [done|].
  assert (Forall (fun r0 => record_ok req r0 /\ extends r0 r') [r']) as Hone.
  { apply Forall_singleton. split; [done|apply extends_refl]. }
  assert (Forall (fun y => extends y r') [r']) as Hone'.
  { apply Forall_singleton. apply extends_refl. }
  destruct Hrec as [-> | ->].
  - split; [by rewrite last_snoc|]. split.
    + by apply Forall_app.
    + by apply StronglySorted_snoc.
  - change [r'; r'] with ([r'] ++ [r']). rewrite app_assoc.
    split; [by rewrite last_snoc|]. split.
    + apply Forall_app. split; [|done]. by apply Forall_app.
    + apply StronglySorted_snoc; [by apply StronglySorted_snoc|]. by apply Forall_app.
Qed.

(** Events that write no record leave the state as it is. *)
Lemma holds_frame r evs seg w w' :
  run_state r evs w ->
  trace w' = trace w ++ seg -> cache w' = cache w -> records seg = [] ->
  run_state r (evs ++ seg) w'.
Proof.
  intros (Htr & Hc & Hg & Hok & Hlast & Hall & Hsorted) Htr' Hc' Hrec.
  unfold holds. rewrite Htr', Htr, <- app_assoc, records_app, Hrec, app_nil_r, Hc'.
  done.
Qed.

Lemma record_ok_ext r r' :
  dict_get "status" r' = dict_get "status" r ->
  dict_get "result" r' = dict_get "result" r ->
  dict_get "error" r' = dict_get "error" r ->
  record_ok req r -> record_ok req r'.
Proof.
  unfold record_ok, status_is, get_or_none. by intros -> -> ->.
Qed.

Lemma extends_same r r' :
  dict_get "progress" r' = dict_get "progress" r -> extends r r'.
Proof. unfold extends, progress_of. by intros ->. Qed.

Lemma records_segment r' (tail : list event) :
  (tail = [] \/ exists c, tail = [DiskWrite (backup_name task_id)
                                   (VDict [("payload", VDict r'); ("expires_at", c)]%string)]) ->
  (records (CacheGet (_key st task_id) :: CacheSet (_key st task_id) (VDict r') (ttl st) :: tail)
   = [r'] \/
   records (CacheGet (_key st task_id) :: CacheSet (_key st task_id) (VDict r') (ttl st) :: tail)
   = [r'; r'])
  /\ submits (CacheGet (_key st task_id) :: CacheSet (_key st task_id) (VDict r') (ttl st) :: tail)
     = [].
Proof. intros [->|[c ->]]; split; auto. Qed.

Lemma wp_update_fields us r evs w Q :
  run_state r evs w ->
  NoDup (us.*1) ->
  dict_get "task_id" us = None ->
  dict_get "progress" us = None ->
  (forall v, dict_get "details" us = Some v -> is_dict v = true) ->
  status_update_ok req us ->
  (forall r' w' seg,
      run_state r' (evs ++ seg) w' -> submits seg = [] -> In r' (records seg) ->
      (forall k, k <> "updated_at"%string ->
                 dict_get k r' =
                 match dict_get k us with
                 | Some v => Some (_json_safe (merge_field (dict_get k r) k v))
                 | None => dict_get k r
                 end) ->
      Q (Ret (VDict r')) w') ->
  wp (update_fields wall iso st task_id us) w Q.
Proof.
  intros Hst Hnd Htid Hprog Hdet Hstat HQ.
  pose proof Hst as (Htr & Hc & Hg & Hok & Hlast & Hall & Hsorted).
  destruct Hg as [Hid Hsafe [d Hd] [l Hl]].
  destruct (update_fields_stored wall iso st task_id w r (ttl st) us)
    as (r' & w' & tail & Heq & Hcache & _ & Htrace & Htail & Hid' & Hsafe' & Hfields);
    try done.
  { intros k v _. apply mergeable_wellformed; intros x Hx; rewrite ?Hd, ?Hl in Hx;
      by injection Hx as <-. }
  assert (forall k, k <> "updated_at"%string ->
                    dict_get k r' =
                    match dict_get k us with
                    | Some v => Some (_json_safe (merge_field (dict_get k r) k v))
                    | None => dict_get k r
                    end) as Hfields'.
  { intros k Hk. rewrite Hfields. by destruct (String.eqb_spec k "updated_at"). }
  unfold wp. rewrite Heq. simpl.
  destruct (records_segment r' tail Htail) as [Hrec Hsub].
  apply (HQ r' w' (CacheGet (_key st task_id)
                     :: CacheSet (_key st task_id) (VDict r') (ttl st) :: tail));
    [|done| |done].
  2:{ destruct Hrec as [-> | ->]; simpl; auto. }
  eapply holds_written; try done.
  - split; [done|done| |].
    + rewrite Hfields' by done.
      destruct (dict_get "details" us) as [v|] eqn:Hv; [|eauto].
      specialize (Hdet v eq_refl). destruct v; try done. simpl. rewrite Hd. simpl. eauto.
    + rewrite Hfields' by done. rewrite Hprog. eauto.
  - unfold status_update_ok in Hstat.
    pose proof (Hfields' "status"%string ltac:(done)) as Hs.
    pose proof (Hfields' "result"%string ltac:(done)) as Hr.
    pose proof (Hfields' "error"%string ltac:(done)) as He.
    destruct (dict_get "status" us) as [v|].
    + destruct v as [| | |s| | | |]; simpl in Hstat; try done.
      simpl in Hs. unfold record_ok, status_is, get_or_none. rewrite Hs, Hr, He.
      destruct (String.eqb_spec s "completed") as [Hc'|Hnc].
      * subst s. destruct Hstat as (Herr & v & Hres & Hinline). rewrite Herr, Hres. simpl.
        split; [|split; [done|by intros [_ ?]]].
        intros _. split; [done|]. intros Hnone. apply Hinline.
        assert (merge_field (dict_get "result" r) "result" v = v) as Hm by by destruct v.
        rewrite Hm in Hnone. by apply json_safe_None.
      * destruct (String.eqb_spec s "failed") as [Hf'|Hnf].
        -- subst s. destruct Hstat as (e & Herr). rewrite Herr. simpl.
           split; [done|]. split; [done|]. by intros [? _].
        -- split; [intros [= ->]; done|]. split; [intros [= ->]; done|].
           intros [[= ->] _]. done.
    + destruct Hstat as [Hres Herr]. rewrite Hres in Hr. rewrite Herr in He.
      by apply (record_ok_ext r).
  - apply extends_same. rewrite Hfields' by done. by rewrite Hprog.
Qed.

Lemma wp_append_progress message stage extra r evs w Q :
  run_state r evs w ->
  (forall r' w' seg,
      run_state r' (evs ++ seg) w' -> submits seg = [] ->
      (forall k, k <> "progress"%string -> k <> "updated_at"%string ->
                 dict_get k r' = dict_get k r) ->
      Q (Ret tt) w') ->
  wp (append_progress wall iso st task_id message stage extra) w Q.
Proof.
  intros Hst HQ.
  pose proof Hst as (Htr & Hc & Hg & Hok & Hlast & Hall & Hsorted).
  destruct Hg as [Hid Hsafe [d Hd] [l Hl]].
  destruct (append_progress_stored wall iso st task_id w r (ttl st) l message stage extra)
    as (r' & w' & tail & Heq & Hcache & _ & Htrace & Htail & Hid' & Hsafe' & Hprog & Hfields);
    try done.
  unfold wp. rewrite Heq. simpl.
  destruct (records_segment r' tail Htail) as [Hrec Hsub].
  apply (HQ r' w' (CacheGet (_key st task_id)
                     :: CacheSet (_key st task_id) (VDict r') (ttl st) :: tail));
    [|done|done].
  eapply holds_written; try done.
  - split; [done|done| |eauto]. rewrite Hfields by done. eauto.
  - apply (record_ok_ext r); try done; by apply Hfields.
  - unfold extends, progress_of. rewrite Hprog, Hl. simpl. by apply prefix_app_r.
Qed.

(** One poll, seen from the answers of the server. *)
Lemma status_of_reply lbl ep job k w :
  status lbl ep job k w =
  (match status_reply ep job k with inl e => Raise e | inr v => Ret v end,
   World (cache w) (disk w) (ticks w) (trace w ++ [Poll lbl job])).
Proof. unfold status, bind, emit, lift. simpl. by destruct (status_reply ep job k). Qed.

Lemma wait_from_unfold fuel lbl ep job_id timeout k w :
  wait_from (S fuel) lbl ep job_id timeout k w =
  match status lbl ep (py_str job_id) k w with
  | (Ret (VDict polled), w') =>
      match classify polled with
      | Return s => (Ret s, w')
      | Fail e => (Raise e, w')
      | Continue state =>
          if timed_out ep timeout k then (Raise (timeout_error job_id state), w')
          else wait_from fuel lbl ep job_id timeout (S k) w'
      end
  | (Ret _, w') => (Raise (Error "AttributeError" "object has no attribute 'get'"), w')
  | (Raise e, w') => (Raise e, w')
  | (Pending, w') => (Pending, w')
  end.
Proof.
  simpl. unfold bind at 1.
  destruct (status lbl ep (py_str job_id) k w) as [[[]|e|] w']; try done.
  destruct (classify _); try done. by destruct (timed_out ep timeout k).
Qed.

(** What [submit] and [wait] give does not depend on the world. *)
Lemma submit_anywhere lbl ep payload w w' :
  (submit lbl ep payload w).1 = (submit lbl ep payload w').1.
Proof.
  unfold submit, bind, emit, lift, response_json. simpl.
  destruct (post_run ep payload) as [msg|msg|body|msg]; simpl; try done.
  destruct (parse body) as [e|v]; simpl; [done|].
  destruct v; simpl; try done. by destruct (truthy _).
Qed.

Lemma wait_from_anywhere fuel lbl ep job_id timeout : forall k w w',
  (wait_from fuel lbl ep job_id timeout k w).1 = (wait_from fuel lbl ep job_id timeout k w').1.
Proof.
  induction fuel as [|fuel IH]; intros k w w'; [done|].
  rewrite !wait_from_unfold, !status_of_reply.
  destruct (status_reply ep (py_str job_id) k) as [e|v]; [done|].
  destruct v as [| | | | | |polled|]; try done.
  destruct (classify polled); try done.
  destruct (timed_out ep timeout k); [done|]. apply IH.
Qed.

Lemma job_answer_eq fuel lbl ep payload timeout w w' :
  job_answer fuel lbl ep payload timeout =
  match (submit lbl ep payload w).1 with
  | Ret job_id => (wait fuel lbl ep job_id timeout w').1
  | Raise e => Raise e
  | Pending => Pending
  end.
Proof.
  unfold job_answer, bind. rewrite (submit_anywhere lbl ep payload w w0).
  destruct (submit lbl ep payload w0) as [[job_id|e|] w1]; simpl; try done.
  apply wait_from_anywhere.
Qed.

Lemma wp_submit lbl ep payload r evs w Q :
  run_state r evs w ->
  (forall w', run_state r (evs ++ [Submit lbl payload]) w' ->
              Q (submit lbl ep payload w).1 w') ->
  wp (submit lbl ep payload) w Q.
Proof.
  intros Hst HQ. unfold wp.
  assert (trace (submit lbl ep payload w).2 = trace w ++ [Submit lbl payload]
          /\ cache (submit lbl ep payload w).2 = cache w) as [Htr Hc].
  { unfold submit, bind, emit, lift, response_json, parse. simpl.
    destruct (post_run ep payload) as [msg|msg|[|v|m]|msg]; simpl; try done.
    destruct v; try done. by destruct (truthy _). }
  apply HQ. by eapply holds_frame.
Qed.

Lemma status_frame lbl ep job k w :
  cache (status lbl ep job k w).2 = cache w
  /\ trace (status lbl ep job k w).2 = trace w ++ [Poll lbl job]
  /\ (status lbl ep job k w).1 <> Pending.
Proof.
  unfold status, bind, emit, lift. simpl. by destruct (status_reply ep job k).
Qed.

Lemma wait_frame fuel lbl ep job_id timeout : forall k w,
  cache (wait_from fuel lbl ep job_id timeout k w).2 = cache w
  /\ exists polls,
       trace (wait_from fuel lbl ep job_id timeout k w).2 = trace w ++ polls
       /\ records polls = [] /\ submits polls = [].
Proof.
  induction fuel as [|fuel IH]; intros k w.
  - simpl. split; [done|]. exists []. by rewrite app_nil_r.
  - rewrite wait_from_unfold.
    destruct (status_frame lbl ep (py_str job_id) k w) as (Hc1 & Ht1 & Hnp).
    destruct (status lbl ep (py_str job_id) k w) as [[s|e|] w1]; simpl in *; [| |done].
    + destruct s as [| | | | | |polled|];
        try (split; [done|]; exists [Poll lbl (py_str job_id)]; done).
      destruct (classify polled);
        try (split; [done|]; exists [Poll lbl (py_str job_id)]; done).
      destruct (timed_out ep timeout k);
        try (split; [done|]; exists [Poll lbl (py_str job_id)]; done).
      destruct (IH (S k) w1) as (Hc & polls & Ht & Hr & Hs).
      split; [congruence|]. exists (Poll lbl (py_str job_id) :: polls).
      rewrite Ht, Ht1, <- app_assoc. done.
    + split; [done|]. exists [Poll lbl (py_str job_id)]. done.
Qed.

Lemma wp_wait fuel lbl ep job_id timeout r evs w Q :
  run_state r evs w ->
  (forall w' polls, run_state r (evs ++ polls) w' -> submits polls = [] ->
                    Q (wait fuel lbl ep job_id timeout w).1 w') ->
  wp (wait fuel lbl ep job_id timeout) w Q.
Proof.
  intros Hst HQ. unfold wp, wait.
  destruct (wait_frame fuel lbl ep job_id timeout 0%nat w) as (Hc & polls & Ht & Hr & Hs).
  apply (HQ _ polls); [|done]. by eapply holds_frame.
Qed.

Lemma records_grow evs seg x : In x (records evs) -> In x (records (evs ++ seg)).
Proof. rewrite records_app. intros Hx. apply in_or_app. by left. Qed.

Lemma submits_grow evs seg x : In x (submits evs) -> In x (submits (evs ++ seg)).
Proof. rewrite submits_app. intros Hx. apply in_or_app. by left. Qed.

(** The rule for [update_fields], with what later steps ask of the new
    record. *)
Lemma wp_update us r evs w Q :
  run_state r evs w ->
  NoDup (us.*1) ->
  dict_get "task_id" us = None ->
  dict_get "progress" us = None ->
  (forall v, dict_get "details" us = Some v -> is_dict v = true) ->
  status_update_ok req us ->
  (forall r' w' evs',
      run_state r' evs' w' -> submits evs' = submits evs ->
      (forall x, In x (records evs) -> In x (records evs')) ->
      In r' (records evs') ->
      dict_get "status" r' = match dict_get "status" us with
                             | Some v => Some (_json_safe v)
                             | None => dict_get "status" r
                             end ->
      dict_get "intermediate" r' = match dict_get "intermediate" us with
                                   | Some v => Some (_json_safe v)
                                   | None => dict_get "intermediate" r
                                   end ->
      Q (Ret (VDict r')) w') ->
  wp (update_fields wall iso st task_id us) w Q.
Proof.
  intros Hst Hnd Htid Hprog Hdet Hstat HQ.
  apply (wp_update_fields us r evs); try done.
  intros r' w' seg Hst' Hsub Hin Hf. apply (HQ r' w' (evs ++ seg)); try done.
  - by rewrite submits_app, Hsub, app_nil_r.
  - intros x. apply records_grow.
  - rewrite records_app. apply in_or_app. by right.
  - rewrite Hf by done. destruct (dict_get "status" us) as [v|]; [|done]. by destruct v.
  - rewrite Hf by done. destruct (dict_get "intermediate" us) as [v|]; [|done]. by destruct v.
Qed.

Lemma wp_append message stage extra r evs w Q :
  run_state r evs w ->
  (forall r' w' evs',
      run_state r' evs' w' -> submits evs' = submits evs ->
      (forall x, In x (records evs) -> In x (records evs')) ->
      dict_get "status" r' = dict_get "status" r ->
      Q (Ret tt) w') ->
  wp (append_progress wall iso st task_id message stage extra) w Q.
Proof.
  intros Hst HQ. apply (wp_append_progress message stage extra r evs); try done.
  intros r' w' seg Hst' Hsub Hf. apply (HQ r' w' (evs ++ seg)); try done.
  - by rewrite submits_app, Hsub, app_nil_r.
  - intros x. apply records_grow.
  - by apply Hf.
Qed.

(** The rules for [submit] and [wait] give the answer as it is. *)
Lemma wp_submit' lbl ep payload r evs w Q :
  run_state r evs w ->
  (forall o w' evs',
      o = (submit lbl ep payload w).1 ->
      run_state r evs' w' -> submits evs' = submits evs ++ [(lbl, payload)] ->
      (forall x, In x (records evs) -> In x (records evs')) ->
      Q o w') ->
  wp (submit lbl ep payload) w Q.
Proof.
  intros Hst HQ. apply (wp_submit lbl ep payload r evs); try done.
  intros w' Hst'. apply (HQ _ w' (evs ++ [Submit lbl payload])); try done.
  - by rewrite submits_app.
  - intros x. apply records_grow.
Qed.

Lemma wp_wait' fuel lbl ep job_id timeout r evs w Q :
  run_state r evs w ->
  (forall o w' evs',
      o = (wait fuel lbl ep job_id timeout w).1 ->
      run_state r evs' w' -> submits evs' = submits evs ->
      (forall x, In x (records evs) -> In x (records evs')) ->
      Q o w') ->
  wp (wait fuel lbl ep job_id timeout) w Q.
Proof.
  intros Hst HQ. apply (wp_wait fuel lbl ep job_id timeout r evs); try done.
  intros w' polls Hst' Hsub. apply (HQ _ w' (evs ++ polls)); try done.
  - by rewrite submits_app, Hsub, app_nil_r.
  - intros x. apply records_grow.
Qed.

End Rules.

Ltac side_conditions :=
  match goal with
  | |- NoDup _ => apply concrete_NoDup; reflexivity
  | |- dict_get _ _ = None => reflexivity
  | |- forall v, dict_get "details" _ = Some v -> _ =>
      let v := fresh in let H := fresh in intros v H; simpl in H; by inversion H
  | |- status_update_ok _ _ => unfold status_update_ok; simpl; eauto
  end.

Ltac wp_update_step r w evs Hst Hsub Hrec Hin Hstatus Hinter :=
  apply wp_bind; eapply wp_update;
  [eassumption | side_conditions | side_conditions | side_conditions | side_conditions
  | side_conditions | intros r w evs Hst Hsub Hrec Hin Hstatus Hinter; simpl in Hstatus, Hinter].

Ltac wp_append_step r w evs Hst Hsub Hrec Hstatus :=
  apply wp_bind; eapply wp_append; [eassumption | intros r w evs Hst Hsub Hrec Hstatus].

(** ** The stages a run reaches *)

Lemma voice_passes_ready mgr fuel req :
  voice_passes mgr fuel req = true -> voice_ready mgr req = true.
Proof.
  unfold voice_passes, voice_ready. destruct (sovits_endpoint mgr); [|done].
  by intros [-> _]%andb_true_iff.
Qed.

(** From the jobs a run submitted to the stages it reached: the jobs are
    those of the voice stage, when there is a script and its guards pass,
    followed by those of the lip-sync stage and of the face swap. *)
Lemma reaches_intro mgr fuel req evs pv later :
  submits evs =
  (if truthy (VStr (script_of req)) && voice_ready mgr req then [(Sovits, pv)] else [])
  ++ later ->
  (later = [] /\ (needs_wav2lip req = true -> audio_ready mgr fuel req = false)
   \/ exists p tail,
        later = (Wav2Lip, p) :: tail
        /\ needs_wav2lip req = true /\ audio_ready mgr fuel req = true
        /\ (tail = [] \/ exists pf, tail = [(FaceFusion, pf)])
        /\ (tail <> [] <->
            needs_facefusion req = true /\ configured (face_endpoint mgr) = true
            /\ lipsync_passes mgr fuel p = true)) ->
  reaches mgr fuel req evs.
Proof.
  intros Hsub Hlater. unfold reaches, stages. rewrite Hsub, fmap_app.
  set (voice := if truthy (VStr (script_of req)) && voice_ready mgr req
                then [(Sovits, pv)] else []).
  assert (forall p, ~ In (Wav2Lip, p) voice) as Hvw.
  { intros p. unfold voice. destruct (_ && _); simpl; intuition discriminate. }
  assert (~ In Wav2Lip voice.*1 /\ ~ In FaceFusion voice.*1) as [Hvw' Hvf].
  { unfold voice. destruct (_ && _); simpl; intuition discriminate. }
  assert (In Sovits voice.*1 <->
          truthy (VStr (script_of req)) = true /\ voice_ready mgr req = true) as Hvs.
  { unfold voice. destruct (truthy (VStr (script_of req))), (voice_ready mgr req);
      simpl; intuition discriminate. }
  destruct Hlater as [[-> Hno]|(p & tail & -> & Hneeds & Hready & Htail & Hface)].
  - rewrite !app_nil_r. split; [done|]. split; [|split].
    + split; [done|]. intros [Hn Ha]. rewrite (Hno Hn) in Ha. done.
    + done.
    + intros (_ & _ & p & Hp & _). by destruct (Hvw p).
  - split; [|split].
    + rewrite in_app_iff, Hvs. split; [|auto]. intros [?|Hin]; [done|].
      destruct Htail as [->|[pf ->]]; simpl in Hin; intuition discriminate.
    + split; [done|]. intros _. apply in_or_app. right. by left.
    + rewrite in_app_iff. split.
      * intros [?|Hin]; [done|].
        assert (tail <> []) as Hne.
        { intros ->. simpl in Hin. intuition discriminate. }
        apply Hface in Hne as (? & ? & ?). split; [done|]. split; [done|].
        exists p. split; [|done]. apply in_or_app. right. by left.
      * intros (Hf & Hc & p' & Hp & Hpass). right.
        assert (p' = p) as ->.
        { apply in_app_or in Hp as [Hp|Hp]; [by destruct (Hvw p')|].
          destruct Hp as [[= <-]|Hp]; [done|].
          destruct Htail as [->|[pf ->]]; simpl in Hp; intuition discriminate. }
        assert (tail <> []) as Hne by (apply Hface; auto).
        destruct Htail as [->|[pf ->]]; [done|]. simpl. auto.
Qed.

Section EngineRules.

Context (wall : nat -> Z) (iso : Z -> string).
Context (mgr : JobManager) (fuel : nat) (task_id : string).
Context (req : PipelineRequest) (base : list event).

Local Abbreviation run_state := (holds (store mgr) task_id req base).

Lemma wp_on_failure exc r evs w Q :
  run_state r evs w ->
  (forall r' w' evs',
      run_state r' evs' w' -> submits evs' = submits evs ->
      (forall x, In x (records evs) -> In x (records evs')) ->
      status_is "failed" r' ->
      Q (Ret tt) w') ->
  wp (on_failure wall iso mgr task_id exc) w Q.
Proof.
  intros Hst HQ. unfold on_failure.
  wp_update_step r1 w1 evs1 Hst1 Hsub1 Hrec1 Hin1 Hstatus1 Hinter1.
  eapply wp_append; [eassumption|]. intros r2 w2 evs2 Hst2 Hsub2 Hrec2 Hstatus2.
  apply (HQ r2 w2 evs2); try done.
  - congruence.
  - auto.
  - unfold status_is. congruence.
Qed.

Lemma not_completed_running r :
  dict_get "status" r = Some (VStr "running") -> ~ status_is "completed" r.
Proof. unfold status_is. by intros ->. Qed.

Lemma not_completed_same r r' :
  dict_get "status" r' = dict_get "status" r ->
  ~ status_is "completed" r -> ~ status_is "completed" r'.
Proof. unfold status_is. by intros ->. Qed.

(** Stage 3: its job is submitted exactly when the worker is
    configured. *)
Lemma face_stage_post request_dict wav_result intermediate r evs w :
  run_state r evs w -> ~ status_is "completed" r ->
  wp (face_stage wall iso mgr fuel task_id request_dict wav_result intermediate) w
     (fun o w' =>
        exists r' evs',
          run_state r' evs' w' /\ ~ status_is "completed" r'
          /\ (forall x, In x (records evs) -> In x (records evs'))
          /\ submits evs' =
             submits evs ++
             (if configured (face_endpoint mgr)
              then [(FaceFusion, VDict (face_payload request_dict wav_result))] else [])
          /\ match o with
             | Ret _ => configured (face_endpoint mgr) = true
             | _ => True
             end).
Proof.
  intros Hst Hnc. unfold face_stage.
  destruct (face_endpoint mgr) as [ep|] eqn:Hep; cbn [configured].
  2:{ apply wp_raise. exists r, evs. rewrite app_nil_r. auto. }
  wp_update_step r1 w1 evs1 Hst1 Hsub1 Hrec1 Hin1 Hstatus1 Hinter1.
  wp_append_step r2 w2 evs2 Hst2 Hsub2 Hrec2 Hstatus2.
  apply wp_bind. eapply wp_submit'; [eassumption|].
  intros o3 w3 evs3 _ Hst3 Hsub3 Hrec3.
  assert (~ status_is "completed" r2) as Hnc2.
  { eapply not_completed_same; [exact Hstatus2|]. by eapply not_completed_same. }
  assert (submits evs3 = submits evs ++ [(FaceFusion, VDict (face_payload request_dict wav_result))])
    as Hsub3' by congruence.
  destruct o3 as [face_job_id|e|]; [|exists r2, evs3; auto 10..].
  wp_update_step r4 w4 evs4 Hst4 Hsub4 Hrec4 Hin4 Hstatus4 Hinter4.
  wp_append_step r5 w5 evs5 Hst5 Hsub5 Hrec5 Hstatus5.
  assert (~ status_is "completed" r5) as Hnc5.
  { eapply not_completed_same; [exact Hstatus5|]. by eapply not_completed_same. }
  apply wp_bind. eapply wp_wait'; [eassumption|].
  intros o6 w6 evs6 _ Hst6 Hsub6 Hrec6.
  assert (submits evs6 = submits evs ++ [(FaceFusion, VDict (face_payload request_dict wav_result))])
    as Hsub6' by congruence.
  destruct o6 as [face_status|e|]; [|exists r5, evs6; auto 15..].
  destruct face_status as [| | | | | |status|];
    try (apply wp_raise; exists r5, evs6; auto 15).
  destruct (get_or_none "output" status) as [| | | | | |face_output|];
    try (apply wp_raise; exists r5, evs6; auto 15).
  apply wp_bind.
  assert (forall final_result,
    wp (append_progress wall iso (store mgr) task_id "FaceFusion completed"
          (Some "facefusion"%string) None;;
        update_fields wall iso (store mgr) task_id
          [("details",
            VDict [("facefusion_status",
                    VDict (dict_set "output" (VDict final_result) status))])]%string;;
        ret final_result) w6
       (fun o w' =>
          exists r' evs',
            run_state r' evs' w' /\ ~ status_is "completed" r'
            /\ (forall x, In x (records evs) -> In x (records evs'))
            /\ submits evs' =
               submits evs ++ [(FaceFusion, VDict (face_payload request_dict wav_result))]
            /\ match o with
               | Ret _ => true = true
               | _ => True
               end)) as Hrest.
  { intros final_result.
    wp_append_step r7 w7 evs7 Hst7 Hsub7 Hrec7 Hstatus7.
    wp_update_step r8 w8 evs8 Hst8 Hsub8 Hrec8 Hin8 Hstatus8 Hinter8.
    apply wp_ret. exists r8, evs8. split; [done|]. split.
    - eapply not_completed_same; [exact Hstatus8|]. by eapply not_completed_same.
    - split; [auto 15|]. split; [congruence|done]. }
  destruct (truthy (VDict intermediate)).
  - apply wp_lift. destruct (attach_intermediate face_output intermediate) as [e|final_result].
    + exists r5, evs6. auto 15.
    + apply Hrest.
  - apply wp_ret. apply Hrest.
Qed.

Lemma rewritten_refl request : rewritten request request.
Proof. by repeat split. Qed.

Lemma rewritten_set_audio_base64 request request' v :
  rewritten request request' -> rewritten request (set_audio_base64 request' v).
Proof. by intros (? & ? & ? & ? & ? & ? & ? & ? & ?). Qed.

Lemma rewritten_set_audio_keys request request' k v :
  rewritten request request' -> rewritten request (set_audio_keys request' k v).
Proof. by intros (? & ? & ? & ? & ? & ? & ? & ? & ?). Qed.

(** Stage 1: its job is submitted exactly when both guards pass, and the
    stage returns exactly when the job comes back usable. *)
Lemma voice_stage_post request r evs w :
  run_state r evs w -> ~ status_is "completed" r ->
  wp (voice_stage wall iso mgr fuel task_id request (script_of request)) w
     (fun o w' =>
        exists r' evs',
          run_state r' evs' w' /\ ~ status_is "completed" r'
          /\ (forall x, In x (records evs) -> In x (records evs'))
          /\ submits evs' =
             submits evs ++
             (if voice_ready mgr request
              then [(Sovits, VDict (sovits_payload request (voice_key request)
                                                   (script_of request)))]
              else [])
          /\ match o with
             | Ret (request', sovits_result) =>
                 rewritten request request'
                 /\ voice_passes mgr fuel request = true
                 /\ exists s, sovits_result = VDict s /\ s <> []
             | _ => voice_passes mgr fuel request = false
             end).
Proof.
  intros Hst Hnc. unfold voice_stage, voice_ready, voice_passes.
  fold (voice_key request).
  set (payload := VDict (sovits_payload request (voice_key request) (script_of request))).
  destruct (sovits_endpoint mgr) as [ep|] eqn:Hep; cbn [configured andb].
  2:{ apply wp_raise. exists r, evs. rewrite app_nil_r. auto. }
  destruct (truthy (voice_key request)) eqn:Hkey; cbn [negb andb].
  2:{ apply wp_raise. exists r, evs. rewrite app_nil_r. auto. }
  wp_update_step r1 w1 evs1 Hst1 Hsub1 Hrec1 Hin1 Hstatus1 Hinter1.
  wp_append_step r2 w2 evs2 Hst2 Hsub2 Hrec2 Hstatus2.
  assert (~ status_is "completed" r2) as Hnc2.
  { eapply not_completed_same; [exact Hstatus2|]. by apply not_completed_running. }
  apply wp_bind. eapply wp_submit'; [eassumption|].
  intros o3 w3 evs3 Ho3 Hst3 Hsub3 Hrec3. rewrite Hsub2, Hsub1 in Hsub3.
  pose proof (job_answer_eq fuel Sovits ep payload (job_timeout mgr) w2) as Hjob.
  rewrite <- Ho3 in Hjob.
  destruct o3 as [sovits_job_id|e|];
    [|exists r2, evs3; rewrite (Hjob w2); auto 15..].
  wp_update_step r4 w4 evs4 Hst4 Hsub4 Hrec4 Hin4 Hstatus4 Hinter4.
  wp_append_step r5 w5 evs5 Hst5 Hsub5 Hrec5 Hstatus5.
  assert (~ status_is "completed" r5) as Hnc5.
  { eapply not_completed_same; [exact Hstatus5|]. by eapply not_completed_same. }
  apply wp_bind. eapply wp_wait'; [eassumption|].
  intros o6 w6 evs6 Ho6 Hst6 Hsub6 Hrec6.
  rewrite Hsub5, Hsub4, Hsub3 in Hsub6.
  specialize (Hjob w5). rewrite <- Ho6 in Hjob. rewrite Hjob. clear Hjob Ho3 Ho6.
  destruct o6 as [sovits_status|e|]; [|exists r5, evs6; auto 15..].
  destruct sovits_status as [| | | | | |status|];
    try (apply wp_raise; exists r5, evs6; auto 15).
  cbn [voice_usable].
  destruct (get_or_none "output" status) as [| | | | | |sovits_output|];
    try (apply wp_raise; exists r5, evs6; auto 15).
  destruct (truthy (get_or_none "output_key" sovits_output)) eqn:Hout; simpl.
  2:{ apply wp_raise. exists r5, evs6. auto 15. }
  assert (sovits_output <> []) as Hne.
  { intros ->. done. }
  apply wp_bind.
  assert (forall request1, rewritten request request1 ->
    wp (update_fields wall iso (store mgr) task_id
          [("details", VDict [("sovits_status", VDict status)]);
           ("intermediate", VDict [("sovits", VDict sovits_output)])]%string;;
        append_progress wall iso (store mgr) task_id "SoVITS completed"
          (Some "sovits"%string) None;;
        ret (set_audio_keys request1 (get_or_none "output_key" sovits_output)
               (voice_key request),
             VDict sovits_output)) w6
       (fun o w' =>
          exists r' evs',
            run_state r' evs' w' /\ ~ status_is "completed" r'
            /\ (forall x, In x (records evs) -> In x (records evs'))
            /\ submits evs' = submits evs ++ [(Sovits, payload)]
            /\ match o with
               | Ret (request', sovits_result) =>
                   rewritten request request'
                   /\ true = true
                   /\ exists s, sovits_result = VDict s /\ s <> []
               | _ => true = false
               end)) as Hrest.
  { intros request1 Hrw.
    wp_update_step r7 w7 evs7 Hst7 Hsub7 Hrec7 Hin7 Hstatus7 Hinter7.
    wp_append_step r8 w8 evs8 Hst8 Hsub8 Hrec8 Hstatus8.
    apply wp_ret. exists r8, evs8. split; [done|]. split.
    - eapply not_completed_same; [exact Hstatus8|]. by eapply not_completed_same.
    - split; [auto 15|]. split; [congruence|].
      split; [by apply rewritten_set_audio_keys|]. split; [done|]. eauto. }
  destruct (truthy (get_or_none "audio_base64" sovits_output)); simpl.
  - destruct (has_len (get_or_none "audio_base64" sovits_output)); simpl.
    + apply wp_ret. apply Hrest. apply rewritten_set_audio_base64, rewritten_refl.
    + apply wp_raise. exists r5, evs6. auto 15.
  - apply wp_ret. apply Hrest. apply rewritten_refl.
Qed.

Lemma dict_update_not_nil d u : u <> [] -> dict_update d u <> [].
Proof.
  unfold dict_update. revert d. induction u as [|[k v] u IH]; intros d Hne; [done|].
  simpl. destruct u as [|kv u]; [apply dict_set_not_nil|]. by apply IH.
Qed.

(** The audio-only end. *)
Lemma finish_audio_only_post request sovits_result r evs w :
  run_state r evs w ->
  (sovits_result = VNone /\ (truthy (audio_key request) = false -> inline_audio_only req = true)
   \/ exists s, sovits_result = VDict s /\ s <> []) ->
  wp (finish_audio_only wall iso mgr task_id request sovits_result) w
     (fun o w' =>
        exists r' evs',
          run_state r' evs' w' /\ submits evs' = submits evs
          /\ (forall x, In x (records evs) -> In x (records evs'))
          /\ o = Ret tt).
Proof.
  intros Hst Hres. unfold finish_audio_only.
  apply wp_bind. eapply wp_update;
    [eassumption | side_conditions | side_conditions | side_conditions | side_conditions | |].
  - unfold status_update_ok. simpl. split; [done|]. eexists. split; [done|].
    destruct Hres as [[-> Hinline]|(s & -> & Hne)].
    + destruct (truthy (audio_key request)); simpl; [done|]. auto.
    + destruct s as [|kv s]; [done|].
      assert (dict_update [] (kv :: s) <> []) as Hnn by by apply dict_update_not_nil.
      change (truthy (VDict (kv :: s))) with true. cbv iota.
      unfold py_or. by destruct (dict_update [] (kv :: s)).
  - intros r1 w1 evs1 Hst1 Hsub1 Hrec1 Hin1 Hstatus1 Hinter1.
    eapply wp_append; [eassumption|]. intros r2 w2 evs2 Hst2 Hsub2 Hrec2 Hstatus2.
    exists r2, evs2. split; [done|]. split; [congruence|]. auto.
Qed.

(** The success end of stages 2 and 3. *)
Lemma finish_post final_result r evs w :
  run_state r evs w ->
  wp (update_fields wall iso (store mgr) task_id (completed (VDict final_result));;
      append_progress wall iso (store mgr) task_id "Pipeline completed"
        (Some "completed"%string) None) w
     (fun o w' =>
        exists r' evs',
          run_state r' evs' w' /\ submits evs' = submits evs
          /\ (forall x, In x (records evs) -> In x (records evs'))
          /\ o = Ret tt).
Proof.
  intros Hst.
  apply wp_bind. eapply wp_update;
    [eassumption | side_conditions | side_conditions | side_conditions | side_conditions | |].
  - unfold status_update_ok. simpl. split; [done|]. eexists. split; [done|]. done.
  - intros r1 w1 evs1 Hst1 Hsub1 Hrec1 Hin1 Hstatus1 Hinter1.
    eapply wp_append; [eassumption|]. intros r2 w2 evs2 Hst2 Hsub2 Hrec2 Hstatus2.
    exists r2, evs2. split; [done|]. split; [congruence|]. auto.
Qed.

Lemma face_submission_grows evs evs' payload :
  face_submission_ok req evs payload ->
  (forall x, In x (submits evs) -> In x (submits evs')) ->
  (forall x, In x (records evs) -> In x (records evs')) ->
  face_submission_ok req evs' payload.
Proof.
  intros (request' & wav_result & r & i & Hrw & Hp & Hw & Hr & Hi & Hwi) Hs Hrec.
  exists request', wav_result, r, i. auto 10.
Qed.

Local Abbreviation lipsync_jobs := (lipsync_jobs mgr fuel req).

(** Stage 2 and what follows it. *)
Lemma lipsync_stage_post request intermediate r evs w :
  run_state r evs w -> ~ status_is "completed" r ->
  rewritten req request ->
  configured (wav_endpoint mgr) = true ->
  wp (lipsync_stage wall iso mgr fuel task_id request intermediate) w
     (fun o w' =>
        exists r' evs' jobs,
          run_state r' evs' w' /\ submits evs' = submits evs ++ jobs
          /\ lipsync_jobs request evs' jobs
          /\ match o with
             | Ret _ => jobs.*1 = Wav2Lip :: if needs_facefusion req then [FaceFusion] else []
             | _ => ~ status_is "completed" r'
             end).
Proof.
  intros Hst Hnc Hrw Hwav. unfold lipsync_stage.
  wp_update_step r1 w1 evs1 Hst1 Hsub1 Hrec1 Hin1 Hstatus1 Hinter1.
  wp_append_step r2 w2 evs2 Hst2 Hsub2 Hrec2 Hstatus2.
  assert (~ status_is "completed" r2) as Hnc2.
  { eapply not_completed_same; [exact Hstatus2|]. by apply not_completed_running. }
  destruct (wav_endpoint mgr) as [ep|] eqn:Hep; [|done].
  set (request_dict := _request_to_dict request).
  apply wp_bind. eapply wp_submit'; [eassumption|].
  intros o3 w3 evs3 Ho3 Hst3 Hsub3 Hrec3. rewrite Hsub2, Hsub1 in Hsub3.
  pose proof (job_answer_eq fuel Wav2Lip ep (VDict request_dict) (job_timeout mgr) w2) as Hjob.
  rewrite <- Ho3 in Hjob.
  assert (forall w' rX evsX,
            submits evsX = submits evs ++ [(Wav2Lip, VDict request_dict)] ->
            run_state rX evsX w' -> ~ status_is "completed" rX ->
            ~ (needs_facefusion req = true /\ configured (face_endpoint mgr) = true
               /\ lipsync_passes mgr fuel (VDict request_dict) = true) ->
            exists r' evs' jobs,
              run_state r' evs' w' /\ submits evs' = submits evs ++ jobs
              /\ lipsync_jobs request evs' jobs
              /\ ~ status_is "completed" r') as Hstop.
  { intros w' rX evsX HsubX HstX HncX Hnot.
    exists rX, evsX, [(Wav2Lip, VDict request_dict)].
    split; [done|]. split; [done|]. split; [|done].
    exists []. split; [done|]. split; [by left|]. split; [done|].
    intros p [[=]|[]]. }
  assert (forall o, lipsync_usable o = false ->
            job_answer fuel Wav2Lip ep (VDict request_dict) (job_timeout mgr) = o ->
            ~ (needs_facefusion req = true /\ configured (face_endpoint mgr) = true
               /\ lipsync_passes mgr fuel (VDict request_dict) = true)) as Hfail.
  { intros o Ho Heq (_ & _ & Hpass). unfold lipsync_passes in Hpass.
    rewrite Hep, Heq in Hpass. congruence. }
  destruct o3 as [wav_job_id|e|];
    [|eapply Hstop; [done..|]; eapply Hfail; [|exact (Hjob w2)]; done..].
  wp_update_step r4 w4 evs4 Hst4 Hsub4 Hrec4 Hin4 Hstatus4 Hinter4.
  wp_append_step r5 w5 evs5 Hst5 Hsub5 Hrec5 Hstatus5.
  assert (~ status_is "completed" r5) as Hnc5.
  { eapply not_completed_same; [exact Hstatus5|]. by eapply not_completed_same. }
  apply wp_bind. eapply wp_wait'; [eassumption|].
  intros o6 w6 evs6 Ho6 Hst6 Hsub6 Hrec6.
  rewrite Hsub5, Hsub4, Hsub3 in Hsub6.
  specialize (Hjob w5). rewrite <- Ho6 in Hjob. clear Ho3 Ho6.
  destruct o6 as [wav_status|e|];
    [|eapply Hstop; [done..|]; eapply Hfail; [|exact Hjob]; done..].
  destruct wav_status as [| | | | | |status|];
    try (apply wp_raise; eapply Hstop; [done..|]; eapply Hfail; [|exact Hjob]; done).
  destruct (wav_result_of (get_or_none "output" status)) as [wav_result|] eqn:Hres;
    [|apply wp_raise; eapply Hstop; [done..|]; eapply Hfail; [|exact Hjob];
      simpl; by rewrite Hres].
  assert (lipsync_passes mgr fuel (VDict request_dict) = true) as Hpass.
  { unfold lipsync_passes. rewrite Hep, Hjob. simpl. by rewrite Hres. }
  clear Hfail.
  wp_update_step r7 w7 evs7 Hst7 Hsub7 Hrec7 Hin7 Hstatus7 Hinter7.
  wp_append_step r8 w8 evs8 Hst8 Hsub8 Hrec8 Hstatus8.
  assert (~ status_is "completed" r8) as Hnc8.
  { eapply not_completed_same; [exact Hstatus8|]. by eapply not_completed_same. }
  rewrite Hsub7, Hsub6 in Hsub8.
  assert (needs_facefusion request = needs_facefusion req) as Hff.
  { unfold needs_facefusion. destruct Hrw as (-> & _). done. }
  rewrite Hff.
  set (intermediate' := dict_set "wav2lip" (VDict wav_result) intermediate) in *.
  assert (dict_get "wav2lip" (json_safe_dict intermediate')
          = Some (_json_safe (VDict wav_result))) as Hwi.
  { rewrite dict_get_json_safe. unfold intermediate'. by rewrite dict_get_set_eq. }
  apply wp_bind. destruct (needs_facefusion req) eqn:Hneeds.
  - eapply wp_mono; [by apply (face_stage_post _ _ _ r8 evs8)|].
    intros o9 w9 (r9 & evs9 & Hst9 & Hnc9 & Hrec9 & Hsub9 & Hconf).
    rewrite Hsub8, <- app_assoc in Hsub9. simpl in Hsub9.
    assert (forall evsY, submits evsY = submits evs9 ->
                         (forall x, In x (records evs9) -> In x (records evsY)) ->
            exists jobs,
              submits evsY = submits evs ++ jobs
              /\ lipsync_jobs request evsY jobs
              /\ (configured (face_endpoint mgr) = true ->
                  jobs.*1 = [Wav2Lip; FaceFusion])) as Hjobs.
    { intros evsY HsY HrY. rewrite HsY, Hsub9.
      destruct (configured (face_endpoint mgr)) eqn:Hc.
      - eexists. split; [reflexivity|]. split; [|done].
        eexists. split; [reflexivity|]. split; [eauto|]. split; [done|].
        intros p [[=]|[[= <-]|[]]].
        exists request, wav_result, r7, (json_safe_dict intermediate').
        split; [done|]. split; [done|]. split.
        + rewrite HsY, Hsub9. apply in_or_app. right. by left.
        + split; [auto 10|]. by split.
      - eexists. split; [reflexivity|]. split; [|done].
        exists []. split; [done|]. split; [by left|]. split; [|by intros p [[=]|[]]].
        split; [done|]. intros (_ & ? & _). congruence. }
    destruct o9 as [final_result|e|].
    + eapply wp_mono; [by apply (finish_post _ r9 evs9)|].
      intros o10 w10 (r10 & evs10 & Hst10 & Hsub10 & Hrec10 & ->).
      destruct (Hjobs evs10 Hsub10 Hrec10) as (jobs & Hs & Hj & Hall).
      exists r10, evs10, jobs. split; [done|]. split; [done|]. split; [done|]. auto.
    + destruct (Hjobs evs9 eq_refl ltac:(auto)) as (jobs & Hs & Hj & _).
      by exists r9, evs9, jobs.
    + destruct (Hjobs evs9 eq_refl ltac:(auto)) as (jobs & Hs & Hj & _).
      by exists r9, evs9, jobs.
  - assert (~ (false = true /\ configured (face_endpoint mgr) = true
               /\ lipsync_passes mgr fuel (VDict request_dict) = true)) as Hnot.
    { by intros [? _]. }
    assert (forall final_result,
      wp (update_fields wall iso (store mgr) task_id (completed (VDict final_result));;
          append_progress wall iso (store mgr) task_id "Pipeline completed"
            (Some "completed"%string) None) w8
         (fun o w' =>
            exists r' evs' jobs,
              run_state r' evs' w' /\ submits evs' = submits evs ++ jobs
              /\ lipsync_jobs request evs' jobs
              /\ match o with
                 | Ret _ => jobs.*1 = [Wav2Lip]
                 | _ => ~ status_is "completed" r'
                 end)) as Hrest.
    { intros final_result. eapply wp_mono; [by apply (finish_post _ r8 evs8)|].
      intros o10 w10 (r10 & evs10 & Hst10 & Hsub10 & Hrec10 & ->).
      exists r10, evs10, [(Wav2Lip, VDict request_dict)].
      split; [done|]. split; [congruence|]. split; [|done].
      exists []. split; [done|]. split; [by left|]. split; [|by intros p [[=]|[]]].
      unfold lipsync_jobs. rewrite Hneeds. split; [done|]. by intros [? _]. }
    unfold lipsync_jobs in Hstop. rewrite Hneeds in Hstop.
    destruct (truthy (VDict intermediate')).
    + apply wp_lift.
      destruct (attach_intermediate_shared wav_result intermediate') as [e|final_result].
      * unfold lipsync_jobs. rewrite Hneeds. by eapply Hstop.
      * apply Hrest.
    + apply wp_ret. apply Hrest.
Qed.

Lemma needs_rewritten request :
  rewritten req request -> needs_wav2lip request = needs_wav2lip req.
Proof. unfold needs_wav2lip. by intros (-> & -> & _). Qed.

Lemma no_sources_without_wav2lip :
  needs_wav2lip req = false -> needs_facefusion req = false.
Proof.
  unfold needs_wav2lip, needs_facefusion. by intros [_ ?]%orb_false_iff.
Qed.

Lemma lipsync_jobs_plan request evs' jobs :
  lipsync_jobs request evs' jobs ->
  jobs.*1 `prefix_of` (Wav2Lip :: if needs_facefusion req then [FaceFusion] else [])
  /\ (forall p, In (FaceFusion, p) jobs -> face_submission_ok req evs' p).
Proof.
  intros (tail & -> & Htail & Hiff & Hface). split; [|done]. simpl.
  apply prefix_cons. destruct Htail as [->|[pf ->]]; [apply prefix_nil|].
  assert (needs_facefusion req = true) as -> by (by apply Hiff). done.
Qed.

(** The body of the [try]. *)
Lemma execute_body_post r evs w :
  run_state r evs w -> ~ status_is "completed" r -> submits evs = [] ->
  accepted mgr req = true ->
  wp (_execute_body wall iso mgr fuel task_id req) w
     (fun o w' =>
        exists r' evs',
          run_state r' evs' w'
          /\ stages evs' `prefix_of` plan req
          /\ (forall p, In (FaceFusion, p) (submits evs') -> face_submission_ok req evs' p)
          /\ reaches mgr fuel req evs'
          /\ match o with
             | Ret _ => stages evs' = plan req
             | _ => ~ status_is "completed" r'
             end).
Proof.
  intros Hst Hnc Hsub Hacc. unfold _execute_body, plan.
  assert (needs_wav2lip req = true -> configured (wav_endpoint mgr) = true) as Hwav.
  { unfold accepted in Hacc. intros Hn. rewrite Hn in Hacc. simpl in Hacc.
    by destruct (configured (wav_endpoint mgr)). }
  set (pv := VDict (sovits_payload req (voice_key req) (script_of req))).
  assert (forall evs' later,
            submits evs' =
            (if truthy (VStr (script_of req)) && voice_ready mgr req then [(Sovits, pv)] else [])
            ++ later ->
            later = [] ->
            (needs_wav2lip req = true -> audio_ready mgr fuel req = false) ->
            reaches mgr fuel req evs') as Hnone.
  { intros evs' later Hs -> Hno. eapply reaches_intro; [exact Hs|]. by left. }
  assert (forall request evs' jobs,
            submits evs' =
            (if truthy (VStr (script_of req)) && voice_ready mgr req then [(Sovits, pv)] else [])
            ++ jobs ->
            lipsync_jobs request evs' jobs ->
            needs_wav2lip req = true -> audio_ready mgr fuel req = true ->
            reaches mgr fuel req evs') as Hsome.
  { intros request evs' jobs Hs (tail & -> & Htail & Hiff & _) Hn Ha.
    eapply reaches_intro; [exact Hs|]. right. eexists _, tail. auto 10. }
  apply wp_bind.
  destruct (truthy (VStr (script_of req))) eqn:Hscript.
  - eapply wp_mono; [by apply (voice_stage_post _ r evs)|].
    intros o1 w1 (r1 & evs1 & Hst1 & Hnc1 & Hrec1 & Hsub1 & Ho1).
    rewrite Hsub in Hsub1. simpl in Hsub1. fold pv in Hsub1.
    assert (audio_ready mgr fuel req = voice_passes mgr fuel req) as Hready.
    { unfold audio_ready. by rewrite Hscript. }
    assert (forall p, ~ In (FaceFusion, p) (submits evs1)) as Hnoface.
    { intros p. rewrite Hsub1. destruct (voice_ready mgr req); simpl; intuition discriminate. }
    assert (stages evs1 `prefix_of`
              [Sovits] ++ (if needs_wav2lip req then [Wav2Lip] else [])
                       ++ (if needs_facefusion req then [FaceFusion] else [])) as Hpre.
    { unfold stages. rewrite Hsub1. destruct (voice_ready mgr req); [|apply prefix_nil].
      simpl. apply prefix_cons, prefix_nil. }
    assert (voice_passes mgr fuel req = false -> reaches mgr fuel req evs1) as Hstop.
    { intros Hno. apply (Hnone evs1 []); [by rewrite app_nil_r|done|].
      intros _. by rewrite Hready. }
    destruct o1 as [[request' sovits_result]|e|];
      [|exists r1, evs1; split; [done|]; split; [done|]; split;
        [intros p Hp; by destruct (Hnoface p)|]; split; [by apply Hstop|done]..].
    destruct Ho1 as (Hrw & Hpass & s & -> & Hne). simpl.
    rewrite (voice_passes_ready _ _ _ Hpass) in Hsub1.
    rewrite (needs_rewritten _ Hrw).
    destruct (needs_wav2lip req) eqn:Hneeds; simpl.
    + eapply wp_mono; [by apply (lipsync_stage_post _ _ r1 evs1); auto|].
      intros o2 w2 (r2 & evs2 & jobs & Hst2 & Hsub2 & Hjobs & Ho2).
      destruct (lipsync_jobs_plan _ _ _ Hjobs) as [Hjpre Hface].
      exists r2, evs2. split; [done|].
      unfold stages. rewrite Hsub2, Hsub1, fmap_app. simpl.
      split; [by apply (prefix_app [Sovits])|]. split; [|split].
      * intros p [[=]|Hp]. by apply Hface.
      * apply (Hsome request' evs2 jobs); try done; [|congruence].
        rewrite Hsub2, Hsub1. by rewrite (voice_passes_ready _ _ _ Hpass).
      * destruct o2; [by rewrite Ho2|done..].
    + rewrite (no_sources_without_wav2lip Hneeds).
      eapply wp_mono; [apply (finish_audio_only_post _ _ r1 evs1); eauto|].
      intros o2 w2 (r2 & evs2 & Hst2 & Hsub2 & Hrec2 & ->).
      exists r2, evs2. split; [done|].
      unfold stages. rewrite Hsub2, Hsub1. simpl. split; [done|]. split; [|split; [|done]].
      * by intros p [[=]|[]].
      * apply (Hnone evs2 []); [|done..].
        rewrite Hsub2, Hsub1, app_nil_r. by rewrite (voice_passes_ready _ _ _ Hpass).
  - assert (audio_ready mgr fuel req = truthy (audio_key req) || truthy (audio_base64 req))
      as Hready.
    { unfold audio_ready. by rewrite Hscript. }
    destruct (negb (truthy (audio_key req)) && negb (truthy (audio_base64 req))) eqn:Haudio.
    + apply wp_raise. exists r, evs. split; [done|].
      unfold stages. rewrite Hsub. simpl. split; [apply prefix_nil|]. split; [|split; [|done]].
      * by intros p [].
      * apply (Hnone evs []); [by rewrite Hsub|done|]. intros _. rewrite Hready.
        by destruct (truthy (audio_key req)), (truthy (audio_base64 req)).
    + apply wp_ret. simpl.
      assert (audio_ready mgr fuel req = true) as Hyes.
      { rewrite Hready. by destruct (truthy (audio_key req)), (truthy (audio_base64 req)). }
      destruct (needs_wav2lip req) eqn:Hneeds; simpl.
      * eapply wp_mono;
          [apply (lipsync_stage_post _ _ r evs); [done..|apply rewritten_refl|auto]|].
        intros o2 w2 (r2 & evs2 & jobs & Hst2 & Hsub2 & Hjobs & Ho2).
        destruct (lipsync_jobs_plan _ _ _ Hjobs) as [Hjpre Hface].
        exists r2, evs2. split; [done|].
        unfold stages. rewrite Hsub2, Hsub. simpl.
        split; [done|]. split; [done|]. split.
        -- apply (Hsome req evs2 jobs); try done. by rewrite Hsub2, Hsub.
        -- destruct o2; [by rewrite Ho2|done..].
      * rewrite (no_sources_without_wav2lip Hneeds).
        eapply wp_mono; [apply (finish_audio_only_post _ _ r evs); [done|]|].
        { left. split; [done|]. intros Hkey. unfold inline_audio_only.
          by rewrite Hscript, Hneeds, Hkey. }
        intros o2 w2 (r2 & evs2 & Hst2 & Hsub2 & Hrec2 & ->).
        exists r2, evs2. split; [done|].
        unfold stages. rewrite Hsub2, Hsub. simpl. split; [done|]. split; [|split; [|done]].
        -- by intros p [].
        -- apply (Hnone evs2 []); [by rewrite Hsub2, Hsub|done..].
Qed.

Lemma reaches_same evs evs' :
  submits evs' = submits evs -> reaches mgr fuel req evs -> reaches mgr fuel req evs'.
Proof. unfold reaches, stages. by intros ->. Qed.

(** The engine with its failure handler. *)
Lemma execute_post r evs w :
  run_state r evs w -> ~ status_is "completed" r -> submits evs = [] ->
  accepted mgr req = true ->
  wp (_execute wall iso mgr fuel task_id req) w
     (fun o w' =>
        exists r' evs',
          run_state r' evs' w'
          /\ stages evs' `prefix_of` plan req
          /\ (forall p, In (FaceFusion, p) (submits evs') -> face_submission_ok req evs' p)
          /\ reaches mgr fuel req evs'
          /\ (status_is "completed" r' -> stages evs' = plan req)).
Proof.
  intros Hst Hnc Hsub Hacc. unfold _execute. apply wp_try.
  eapply wp_mono; [by apply (execute_body_post r evs w)|].
  intros o w1 (r1 & evs1 & Hst1 & Hpre & Hface & Hreach & Ho).
  destruct o as [[]|e|].
  - exists r1, evs1. auto.
  - eapply wp_on_failure; [eassumption|].
    intros r2 w2 evs2 Hst2 Hsub2 Hrec2 Hfailed.
    exists r2, evs2. split; [done|]. unfold stages. rewrite Hsub2.
    split; [done|]. split; [|split].
    + intros p Hp. eapply face_submission_grows; [by apply Hface| |done].
      by rewrite Hsub2.
    + by eapply reaches_same.
    + unfold status_is in *. congruence.
  - exists r1, evs1. split; [done|]. split; [done|]. split; [done|]. split; [done|]. done.
Qed.

End EngineRules.

Lemma conforms_nil req : conforms req [].
Proof.
  unfold conforms. simpl. split; [constructor|]. split; [constructor|].
  split; [apply prefix_nil|]. split; [done|]. by intros p [].
Qed.

(** Every run of the engine, from any world: a request that is not
    accepted leaves no event; an accepted one conforms and reaches its
    stages as [reaches] tells. *)
Lemma run_walk wall iso mgr fuel task_id req w0 :
  exists evs,
    trace (run wall iso mgr fuel task_id req w0).2 = trace w0 ++ evs
    /\ (if accepted mgr req then reaches mgr fuel req evs else evs = [])
    /\ conforms req evs.
Proof.
  unfold run, JobManager_submit, accepted.
  destruct (needs_wav2lip req && negb (configured (wav_endpoint mgr))) eqn:Hacc; simpl.
  { exists []. rewrite app_nil_r. split; [done|]. split; [done|apply conforms_nil]. }
  unfold bind at 1 2 3 4, _now_iso. simpl.
  set (job0 := [ ("task_id", VStr task_id); ("status", VStr "pending");
                 ("state", VStr "pending"); ("stage", VStr "queued");
                 ("created_at", VStr (iso (wall (ticks w0))));
                 ("updated_at", VStr (iso (wall (S (ticks w0)))));
                 ("request", VDict (_request_to_dict req)); ("result", VNone);
                 ("error", VNone); ("progress", VList []); ("intermediate", VNone);
                 ("details", VDict []) ]%string).
  set (w1 := World (cache w0) (disk w0) (S (S (ticks w0))) (trace w0)).
  destruct (write_world wall (store mgr) w1 job0 task_id eq_refl)
    as (Hret & Hcache & _ & tail & Htrace & Htail).
  set (r0 := json_safe_dict job0) in *.
  assert (exists evs0,
             trace (write wall (store mgr) job0 w1).2 = trace w0 ++ evs0
             /\ holds (store mgr) task_id req (trace w0) r0 evs0
                      (write wall (store mgr) job0 w1).2
             /\ submits evs0 = []) as (evs0 & Htr0 & Hst0 & Hsub0).
  { assert (good task_id r0) as Hgood.
    { split; [done|apply json_safe_dict_idem|by exists []|by exists []]. }
    assert (record_ok req r0) as Hok.
    { unfold record_ok, status_is. simpl. repeat split; try done. by intros [[=] _]. }
    assert (Forall (fun x => record_ok req x /\ extends x r0) [r0]) as Hone.
    { apply Forall_singleton. split; [done|apply extends_refl]. }
    assert (StronglySorted extends [r0]) as Hs1 by (repeat constructor).
    assert (StronglySorted extends [r0; r0]) as Hs2.
    { repeat constructor. apply extends_refl. }
    assert (Forall (fun x => record_ok req x /\ extends x r0) [r0; r0]) as Htwo.
    { apply Forall_cons. split; [|done]. split; [done|apply extends_refl]. }
    exists (CacheSet (_key (store mgr) task_id) (VDict r0) (ttl (store mgr)) :: tail).
    split; [exact Htrace|]. unfold holds. rewrite Htrace, Hcache, lookup_insert_eq.
    destruct Htail as [->|[now ->]]; simpl; (split; [|done]);
      (split; [done|]); (split; [done|]); (split; [done|]); (split; [done|]); by split. }
  destruct (write wall (store mgr) job0 w1) as [o1 w2] eqn:Hw. simpl in *. subst o1.
  pose proof (execute_post wall iso mgr fuel task_id req (trace w0) r0 evs0 w2 Hst0) as Hexec.
  unfold wp in Hexec.
  destruct Hexec as (r' & evs' & Hst' & Hpre & Hface & Hreach & Hdone); [|done| |].
  { unfold status_is. by simpl. }
  { unfold accepted. by rewrite Hacc. }
  destruct Hst' as (Htr & _ & _ & _ & Hlast & Hall & Hsorted).
  exists evs'. split; [done|]. split; [done|]. unfold conforms.
  split; [eapply Forall_impl; [exact Hall|]; by intros x [? ?]|].
  split; [done|]. split; [done|]. split; [|done].
  intros r Hr Hc. rewrite Hlast in Hr. injection Hr as <-. auto.
Qed.

Lemma run_conforms wall iso mgr fuel task_id req w0 :
  exists evs,
    trace (run wall iso mgr fuel task_id req w0).2 = trace w0 ++ evs
    /\ conforms req evs.
Proof.
  destruct (run_walk wall iso mgr fuel task_id req w0) as (evs & Htr & _ & Hc). eauto.
Qed.

(** ** Progress logs *)

Lemma expected_entries_length wall iso st t calls :
  length (expected_entries wall iso st t calls) = length calls.
Proof.
  revert t. induction calls as [|[[m s] x] calls IH]; intros t; simpl; [done|].
  by rewrite IH.
Qed.

Lemma expected_entries_lookup wall iso st calls : forall t i message stage extra,
  calls !! i = Some (message, stage, extra) ->
  expected_entries wall iso st t calls !! i =
  Some (_json_safe (VDict (progress_entry (iso (wall (t + i * ticks_per_call st)%nat))
                             message stage extra))).
Proof.
  induction calls as [|[[m s] x] calls IH]; intros t i message stage extra Hi; [done|].
  destruct i as [|i]; simpl in *.
  - injection Hi as -> -> ->. by rewrite Nat.add_0_r.
  - rewrite (IH _ _ _ _ _ Hi). by rewrite <- Nat.add_assoc.
Qed.

Lemma progress_entry_fields timestamp message stage extra :
  let entry := progress_entry timestamp message stage extra in
  dict_get "timestamp" entry = Some (VStr timestamp)
  /\ dict_get "message" entry = Some (VStr message)
  /\ dict_get "stage" entry =
     match stage with
     | Some s => if (s =? "")%string then None else Some (VStr s)
     | None => None
     end
  /\ dict_get "extra" entry =
     match extra with
     | Some (kv :: x) => Some (VDict (kv :: x))
     | _ => None
     end.
Proof.
  unfold progress_entry.
  destruct stage as [s|]; destruct extra as [[|kv x]|]; simpl;
    try destruct (String.eqb_spec s ""); simpl; by repeat split.
Qed.

(** C7: [append_progress] called N times on a task grows its progress log
    by the N entries of the calls, in call order, after the entries it
    had; an entry holds the timestamp of its call, the message, the stage
    when one is given and the extra mapping when one is given.  And in a
    run of the engine the progress log of every record written extends
    the log of every record written before it: no entry is rewritten,
    moved or dropped. *)
Theorem progress_is_append_only wall iso :
  (forall st task_id calls w r ex old,
      cache w !! _key st task_id = Some (Json (VDict r), ex) ->
      dict_get "task_id" r = Some (VStr task_id) ->
      json_safe_dict r = r ->
      dict_get "progress" r = Some (VList old) ->
      exists r' w' ex',
        append_all wall iso st task_id calls w = (Ret tt, w')
        /\ cache w' !! _key st task_id = Some (Json (VDict r'), ex')
        /\ dict_get "progress" r' =
           Some (VList (old ++ expected_entries wall iso st (ticks w) calls))
        /\ length (expected_entries wall iso st (ticks w) calls) = length calls
        /\ forall i message stage extra,
             calls !! i = Some (message, stage, extra) ->
             expected_entries wall iso st (ticks w) calls !! i =
             Some (_json_safe
                     (VDict (progress_entry
                               (iso (wall (ticks w + i * ticks_per_call st)%nat))
                               message stage extra))))
  /\ (forall timestamp message stage extra,
      let entry := progress_entry timestamp message stage extra in
      dict_get "timestamp" entry = Some (VStr timestamp)
      /\ dict_get "message" entry = Some (VStr message)
      /\ dict_get "stage" entry =
         match stage with
         | Some s => if (s =? "")%string then None else Some (VStr s)
         | None => None
         end
      /\ dict_get "extra" entry =
         match extra with
         | Some (kv :: x) => Some (VDict (kv :: x))
         | _ => None
         end)
  /\ (forall mgr fuel task_id req w0,
      exists evs,
        trace (run wall iso mgr fuel task_id req w0).2 = trace w0 ++ evs
        /\ StronglySorted extends (records evs)).
Proof.
  split; [|split].
  - intros st task_id calls w r ex old Hhit Htid Hsafe Hprog.
    destruct (append_all_stored wall iso st task_id calls w r ex old)
      as (r' & w' & ex' & Heq & Hc & Hp); try done.
    exists r', w', ex'. split; [done|]. split; [done|]. split; [done|].
    split; [apply expected_entries_length|]. apply expected_entries_lookup.
  - apply progress_entry_fields.
  - intros mgr fuel task_id req w0.
    destruct (run_conforms wall iso mgr fuel task_id req w0) as (evs & Htr & _ & Hs & _).
    by exists evs.
Qed.

Lemma progress_is_append_only_witness :
  exists r' w' ex',
    append_all wall0 iso0 store0 "t1" calls0 stored0 = (Ret tt, w')
    /\ cache w' !! "ff:task:t1"%string = Some (Json (VDict r'), ex')
    /\ dict_get "progress" r' =
       Some (VList (expected_entries wall0 iso0 store0 (ticks stored0) calls0)).
Proof.
  destruct (proj1 (progress_is_append_only wall0 iso0) store0 "t1"%string calls0 stored0
              record0 604800 [] eq_refl eq_refl eq_refl eq_refl)
    as (r' & w' & ex' & Heq & Hc & Hp & _).
  exists r', w', ex'. split; [exact Heq|]. split; [exact Hc|exact Hp].
Defined.

Lemma update_fields_merges_witness :
  exists r w2,
    update_fields wall0 iso0 store0 "t1" updates0 stored0 = (Ret (VDict r), w2)
    /\ dict_get "stage" r = Some (VStr "facefusion")
    /\ dict_get "status" r = Some (VStr "running").
Proof.
  destruct (proj1 (update_fields_merges wall0 iso0 store0 "t1" stored0)
              record0 (get wall0 store0 "t1" stored0).2 updates0 "t1"%string
              eq_refl ltac:(discriminate)
              ltac:(apply concrete_NoDup; vm_compute; reflexivity)
              (fun k v _ => mergeable_wellformed record0
                              ltac:(by intros x [= <-]) ltac:(by intros x [= <-]) k v)
              eq_refl)
    as (r & w2 & Heq & _ & _ & _ & _ & _ & Hrep & Hkeep).
  exists r, w2. split; [exact Heq|]. split.
  - apply (Hrep "stage"%string (VStr "facefusion")); done.
  - apply (Hkeep "status"%string); done.
Defined.

(** ** The engine, as a whole *)

Lemma record_ok_terminal req r :
  inline_audio_only req = false -> record_ok req r -> terminal_invariant r.
Proof.
  intros Hinline (Hc & Hf & Hx). split; [|by split].
  intros Hs. destruct (Hc Hs) as [Herr Hres]. split; [|done].
  intros Hnone. specialize (Hres Hnone). congruence.
Qed.

(** C1, as the code has it: every record the engine writes keeps the
    invariant [record_ok]: a completed record has no error, a failed
    record has an error, no record is both, and a completed record has a
    result unless the request brought its audio inline and nothing else.
    For every other request each written record satisfies the invariant
    as the specification states it. *)
Theorem engine_records_keep_invariant wall iso mgr fuel task_id req w0 :
  exists evs,
    trace (run wall iso mgr fuel task_id req w0).2 = trace w0 ++ evs
    /\ Forall (record_ok req) (records evs)
    /\ (inline_audio_only req = false -> Forall terminal_invariant (records evs)).
Proof.
  destruct (run_conforms wall iso mgr fuel task_id req w0) as (evs & Htr & Hok & _).
  exists evs. split; [done|]. split; [done|].
  intros Hinline. eapply Forall_impl; [exact Hok|].
  intros r. by apply record_ok_terminal.
Qed.

Lemma engine_records_keep_invariant_witness :
  exists evs,
    trace (run wall0 iso0 manager0 3 "t1" lipsync_request w0).2 = evs
    /\ Forall terminal_invariant (records evs).
Proof.
  destruct (engine_records_keep_invariant wall0 iso0 manager0 3 "t1" lipsync_request w0)
    as (evs & Htr & _ & Hall).
  exists evs. split; [exact Htr|]. apply Hall. reflexivity.
Defined.

(** With inline audio alone the engine writes a completed record whose
    result is null. *)
Lemma engine_completes_without_result :
  exists r,
    last (records (trace (run wall0 iso0 manager0 3 "t1" inline_request w0).2)) = Some r
    /\ status_is "completed" r
    /\ get_or_none "result" r = VNone
    /\ ~ terminal_invariant r.
Proof.
  eexists. split; [vm_compute; reflexivity|]. split; [reflexivity|]. split; [reflexivity|].
  intros [Hc _]. destruct (Hc eq_refl) as [Hres _]. by apply Hres.
Qed.

Lemma needs_facefusion_wav2lip req :
  needs_facefusion req = true -> needs_wav2lip req = true.
Proof.
  intros Hff. destruct (needs_wav2lip req) eqn:Hw; [done|].
  by rewrite (no_sources_without_wav2lip req Hw) in Hff.
Qed.

Lemma prefix_of_plan_members req l :
  l `prefix_of` plan req ->
  (In Sovits l -> truthy (VStr (script_of req)) = true)
  /\ (In Wav2Lip l -> needs_wav2lip req = true)
  /\ (In FaceFusion l ->
      needs_facefusion req = true /\ exists before, l = before ++ [Wav2Lip; FaceFusion]).
Proof.
  intros Hpre.
  assert (forall x, In x l -> In x (plan req)) as Hin.
  { destruct Hpre as [k ->]. intros x Hx. apply in_or_app. by left. }
  assert (In FaceFusion (plan req) -> needs_facefusion req = true) as Hff.
  { unfold plan.
    destruct (truthy (VStr (script_of req))), (needs_wav2lip req), (needs_facefusion req);
      simpl; intuition discriminate. }
  split; [|split].
  - intros H%Hin. unfold plan in H.
    destruct (truthy (VStr (script_of req))), (needs_wav2lip req), (needs_facefusion req);
      simpl in H; intuition discriminate.
  - intros H%Hin. unfold plan in H.
    destruct (truthy (VStr (script_of req))), (needs_wav2lip req), (needs_facefusion req);
      simpl in H; intuition discriminate.
  - intros HF. pose proof (Hff (Hin _ HF)) as Hf. split; [done|].
    pose proof (needs_facefusion_wav2lip req Hf) as Hw.
    destruct Hpre as [k Hk]. unfold plan in Hk. rewrite Hf, Hw in Hk.
    destruct (truthy (VStr (script_of req))); simpl in Hk.
    + destruct l as [|a l]; [destruct HF|]. injection Hk as <- Hk.
      destruct l as [|b l]; [simpl in HF; intuition discriminate|]. injection Hk as <- Hk.
      destruct l as [|c l]; [simpl in HF; intuition discriminate|]. injection Hk as <- Hk.
      destruct l; [|discriminate]. by exists [Sovits].
    + destruct l as [|a l]; [destruct HF|]. injection Hk as <- Hk.
      destruct l as [|b l]; [simpl in HF; intuition discriminate|]. injection Hk as <- Hk.
      destruct l; [|discriminate]. by exists [].
Qed.

Lemma prefix_without_head {A} (l rest : list A) x :
  l `prefix_of` x :: rest -> ~ In x l -> l = [].
Proof.
  intros [k Hk] Hx. destruct l as [|y l]; [done|].
  injection Hk as <- _. destruct Hx. by left.
Qed.

(** C2, as the code has it: the workers get their jobs in the order of
    the selection rule and only when selected, and a selected stage runs
    exactly when nothing stops the run before it.  The voice job is
    submitted if and only if the request is accepted, the script is not
    blank, the voice worker is configured and a voice reference is given.
    The lip-sync job is submitted if and only if the request is
    accepted, a target or sources are given and the audio is there: from
    the request when there is no script, from a voice job that came back
    usable when there is one.  The face-swap job is submitted if and only
    if sources are given, the face-swap worker is configured and the
    lip-sync job was submitted and came back usable, and then right after
    the lip-sync job.  So a request that is refused, a script without
    voice worker or voice reference, and a request without script and
    without audio submit nothing; and a run that ends completed has
    submitted exactly the selected stages. *)
Theorem engine_runs_selected_stages wall iso mgr fuel task_id req w0 :
  exists evs,
    trace (run wall iso mgr fuel task_id req w0).2 = trace w0 ++ evs
    /\ stages evs `prefix_of` plan req
    /\ (In Sovits (stages evs) <->
        accepted mgr req = true /\ truthy (VStr (script_of req)) = true
        /\ voice_ready mgr req = true)
    /\ (In Wav2Lip (stages evs) <->
        accepted mgr req = true /\ needs_wav2lip req = true
        /\ audio_ready mgr fuel req = true)
    /\ (In FaceFusion (stages evs) <->
        needs_facefusion req = true /\ configured (face_endpoint mgr) = true
        /\ exists p, In (Wav2Lip, p) (submits evs) /\ lipsync_passes mgr fuel p = true)
    /\ (In FaceFusion (stages evs) ->
        exists before, stages evs = before ++ [Wav2Lip; FaceFusion])
    /\ (accepted mgr req = false
        \/ (truthy (VStr (script_of req)) = true /\ voice_ready mgr req = false)
        \/ (truthy (VStr (script_of req)) = false
            /\ truthy (audio_key req) = false /\ truthy (audio_base64 req) = false) ->
        stages evs = [])
    /\ (forall r, last (records evs) = Some r -> status_is "completed" r ->
        stages evs = plan req).
Proof.
  destruct (run_walk wall iso mgr fuel task_id req w0)
    as (evs & Htr & Hreach & _ & _ & Hpre & Hdone & _).
  exists evs. split; [done|]. split; [done|].
  destruct (prefix_of_plan_members req _ Hpre) as (_ & _ & Hf).
  destruct (accepted mgr req) eqn:Hacc.
  - destruct Hreach as (Hs & Hw & Hff).
    split; [rewrite Hs; tauto|]. split; [rewrite Hw; tauto|]. split; [done|].
    split; [intros H; by destruct (Hf H)|]. split; [|done].
    intros [?|[[Hscript Hno]|(Hscript & Hk & Hb)]]; [done| |].
    + assert (~ In Sovits (stages evs)) as Hnot.
      { rewrite Hs. intros [_ ?]. congruence. }
      unfold plan in Hpre. rewrite Hscript in Hpre. by eapply prefix_without_head.
    + assert (~ In Wav2Lip (stages evs)) as Hnot.
      { rewrite Hw. unfold audio_ready. rewrite Hscript, Hk, Hb. by intros [_ ?]. }
      unfold plan in Hpre. rewrite Hscript in Hpre. simpl in Hpre.
      destruct (needs_wav2lip req) eqn:Hn.
      * by eapply prefix_without_head.
      * rewrite (no_sources_without_wav2lip req Hn) in Hpre. by apply prefix_nil_inv.
  - subst evs. simpl.
    split; [split; [done|by intros [? _]]|]. split; [split; [done|by intros [? _]]|].
    split; [split; [done|by intros (_ & _ & p & [] & _)]|]. split; [done|]. done.
Qed.

Lemma engine_runs_selected_stages_witness :
  stages (trace (run wall0 iso0 manager0 3 "t1" faceswap_request w0).2)
  = [Wav2Lip; FaceFusion].
Proof.
  destruct (engine_runs_selected_stages wall0 iso0 manager0 3 "t1" faceswap_request w0)
    as (evs & Htr & _ & _ & _ & _ & _ & _ & Hdone).
  change (trace w0 ++ evs) with evs in Htr. subst evs.
  apply (Hdone (default [] (last (records
           (trace (run wall0 iso0 manager0 3 "t1" faceswap_request w0).2))))).
  - vm_compute. reflexivity.
  - vm_compute. reflexivity.
Defined.

(** A script is given and every worker is configured, yet the voice stage
    does not run: the request has no voice reference. *)
Lemma engine_skips_selected_voice_stage :
  truthy (VStr (script_of script_without_reference)) = true
  /\ stages (trace (run wall0 iso0 manager0 3 "t1" script_without_reference w0).2) = [].
Proof. split; reflexivity. Qed.




(** * Further properties *)

(** ** Sanitation gives JSON values *)

Lemma is_json_safe v : is_json (_json_safe v) = true.
Proof.
  induction v as [| | | | |l IH|l IH|d IH] using value_rect'; simpl; try done.
  - induction IH as [|x l Hx _ IHl]; simpl; [done|]. by rewrite Hx, IHl.
  - induction IH as [|x l Hx _ IHl]; simpl; [done|]. by rewrite Hx, IHl.
  - induction IH as [|[k x] l Hx _ IHl]; simpl in *; [done|]. by rewrite Hx, IHl.
Qed.

Lemma json_safe_id v : is_json v = true -> _json_safe v = v.
Proof.
  induction v as [| | | | |l IH|l IH|d IH] using value_rect'; simpl; try done.
  - intros Hl. f_equal. induction IH as [|x l Hx _ IHl]; simpl in *; [done|].
    apply andb_true_iff in Hl as [H1 H2]. by rewrite Hx, IHl.
  - intros Hd. f_equal. induction IH as [|[k x] d Hx _ IHd]; simpl in *; [done|].
    apply andb_true_iff in Hd as [H1 H2]. by rewrite Hx, IHd.
Qed.

(** X1: [_json_safe] returns a value JSON can carry, with no tuple and no
    opaque object at any depth; it leaves such values as they are, and
    only those; hence applying it twice is applying it once. *)
Theorem json_safe_gives_json v :
  is_json (_json_safe v) = true
  /\ (_json_safe v = v <-> is_json v = true)
  /\ _json_safe (_json_safe v) = _json_safe v.
Proof.
  split; [apply is_json_safe|]. split; [|apply json_safe_idem].
  split; [|apply json_safe_id]. intros <-. apply is_json_safe.
Qed.

Lemma json_safe_gives_json_witness :
  _json_safe (VDict [("detail", VList [VNum 1; VStr "x"])]%string)
  = VDict [("detail", VList [VNum 1; VStr "x"])]%string.
Proof.
  exact (proj2 (proj1 (proj2 (json_safe_gives_json
                                (VDict [("detail", VList [VNum 1; VStr "x"])]%string))))
               eq_refl).
Defined.

(** ** Failure payloads: [_normalise_exception] *)

Lemma runtime_payload_error cls args :
  exists v, dict_get "error" (runtime_payload cls args) = Some v.
Proof.
  destruct args as [|first rest]; simpl; eauto.
  destruct first; simpl; eauto.
  destruct (dict_get "error" d) as [v|] eqn:Hv; [eauto|].
  rewrite dict_get_set_eq. eauto.
Qed.

Lemma runtime_payload_truthy cls args : truthy (VDict (runtime_payload cls args)) = true.
Proof.
  destruct args as [|first rest]; simpl; try done.
  destruct first; simpl; try done.
  destruct (dict_get "error" d) as [v|] eqn:Hv.
  - by destruct d.
  - pose proof (dict_set_not_nil "error" (VStr "runtime_error") d).
    by destruct (dict_set _ _ d).
Qed.

Lemma normalise_exception_error e :
  exists v, dict_get "error" (_normalise_exception e) = Some v.
Proof.
  destruct e as [args|cls msg|cls args]; cbn [_normalise_exception];
    [apply runtime_payload_error|simpl; eauto|apply runtime_payload_error].
Qed.

(** X2: the payload [_normalise_exception] builds always has an [error]
    entry and is never empty.  A mapping given as first argument of a
    [RuntimeError] passes through key by key: an [error] entry it has is
    kept as it is, falsy or not, and [runtime_error] is added only when it has
    none.  The structured errors of the endpoint client and of the engine
    therefore come out as they were raised. *)
Theorem normalise_exception_keeps_payload e :
  (exists v, dict_get "error" (_normalise_exception e) = Some v)
  /\ truthy (VDict (_normalise_exception e)) = true
  /\ (forall first rest k,
        e = RuntimeError (VDict first :: rest) ->
        dict_get k (_normalise_exception e) =
        if (k =? "error")%string
        then Some (default (VStr "runtime_error") (dict_get "error" first))
        else dict_get k first)
  /\ (forall first rest v,
        e = RuntimeError (VDict first :: rest) -> dict_get "error" first = Some v ->
        _normalise_exception e = first)
  /\ (forall tag detail,
        e = error_payload tag detail ->
        _normalise_exception e = [("error", VStr tag); ("detail", detail)]%string).
Proof.
  split; [|split; [|split; [|split]]].
  - apply normalise_exception_error.
  - destruct e as [args|cls msg|cls args]; cbn [_normalise_exception];
      [apply runtime_payload_truthy|done|apply runtime_payload_truthy].
  - intros first rest k ->. simpl.
    destruct (dict_get "error" first) as [v|] eqn:Hv.
    + destruct (String.eqb_spec k "error") as [->|]; [by rewrite Hv|done].
    + rewrite dict_get_set. by destruct (String.eqb_spec k "error").
  - intros first rest v -> Hv. simpl. by rewrite Hv.
  - intros tag detail ->. reflexivity.
Qed.

Lemma normalise_exception_keeps_payload_witness :
  _normalise_exception
    (RuntimeError [VDict [("error", VNone); ("code", VNum 7)]%string])
  = [("error", VNone); ("code", VNum 7)]%string.
Proof.
  exact (proj1 (proj2 (proj2 (proj2 (normalise_exception_keeps_payload
           (RuntimeError [VDict [("error", VNone); ("code", VNum 7)]%string])))))
         [("error", VNone); ("code", VNum 7)]%string [] VNone eq_refl eq_refl).
Defined.

(** ** Strings: filters and strips *)

Lemma string_of_list_of_string s : string_of_list_ascii (list_ascii_of_string s) = s.
Proof. induction s as [|c s IH]; simpl; [done|]. by rewrite IH. Qed.

Lemma list_of_string_of_list l : list_ascii_of_string (string_of_list_ascii l) = l.
Proof. induction l as [|c l IH]; simpl; [done|]. by rewrite IH. Qed.

Lemma str_all_cons p c s : str_all p (String c s) = p c && str_all p s.
Proof. done. Qed.

Lemma str_all_filter p s : str_all p (filter_str p s) = true.
Proof.
  unfold str_all, filter_str. rewrite list_of_string_of_list.
  induction (list_ascii_of_string s) as [|c l IH]; simpl; [done|].
  destruct (p c) eqn:Hc; simpl; [by rewrite Hc|done].
Qed.

Lemma filter_str_id p s : str_all p s = true -> filter_str p s = s.
Proof.
  unfold str_all, filter_str. intros Hs.
  rewrite <- (string_of_list_of_string s) at 2. f_equal.
  induction (list_ascii_of_string s) as [|c l IH]; simpl in *; [done|].
  apply andb_true_iff in Hs as [-> Hl]. by rewrite IH.
Qed.

Lemma str_all_lstrip p s : str_all p s = true -> str_all p (lstrip s) = true.
Proof.
  induction s as [|c s IH]; simpl; [done|]. rewrite str_all_cons.
  intros [Hc Hs]%andb_true_iff. destruct (isspace c); [by apply IH|].
  by rewrite str_all_cons, Hc, Hs.
Qed.

Lemma str_all_rstrip p q s : str_all p s = true -> str_all p (rstrip_with q s) = true.
Proof.
  induction s as [|c s IH]; simpl; [done|]. rewrite str_all_cons.
  intros [Hc Hs]%andb_true_iff. specialize (IH Hs).
  destruct (rstrip_with q s) as [|b r].
  - destruct (q c); [done|]. by rewrite str_all_cons, Hc.
  - by rewrite str_all_cons, Hc.
Qed.

Lemma rstrip_with_idem p s : rstrip_with p (rstrip_with p s) = rstrip_with p s.
Proof.
  induction s as [|c s IH]; simpl; [done|].
  destruct (rstrip_with p s) as [|b r] eqn:Hr.
  - destruct (p c) eqn:Hc; simpl; [done|]. by rewrite Hc.
  - cbn [rstrip_with]. cbn [rstrip_with] in IH. by rewrite IH.
Qed.

(** What is left of a right strip does not end with a stripped character. *)
Lemma rstrip_with_last p s : forall s' c,
  rstrip_with p s = s' +:+ String c EmptyString -> p c = false.
Proof.
  induction s as [|a s IH]; intros s' c; simpl.
  - by destruct s'.
  - destruct (rstrip_with p s) as [|b r] eqn:Hr.
    + destruct (p a) eqn:Ha.
      * by destruct s'.
      * destruct s' as [|a' s'']; simpl; [by intros [= <-]|].
        intros [= _ Hnil]. by destruct s''.
    + destruct s' as [|a' s'']; simpl; [done|].
      intros [= _ Heq]. by apply (IH s'').
Qed.

Lemma rstrip_with_head p c s :
  p c = false -> exists r, rstrip_with p (String c s) = String c r.
Proof.
  intros Hc. simpl. destruct (rstrip_with p s); [|eauto]. rewrite Hc. eauto.
Qed.

Lemma lstrip_head s :
  lstrip s = EmptyString \/ exists c t, lstrip s = String c t /\ isspace c = false.
Proof.
  induction s as [|c s IH]; simpl; [by left|].
  destruct (isspace c) eqn:Hc; [done|]. right. eauto.
Qed.

Lemma lstrip_strip s : lstrip (strip s) = strip s.
Proof.
  unfold strip. destruct (lstrip_head s) as [->|(c & t & -> & Hc)]; [done|].
  destruct (rstrip_with_head isspace c t Hc) as [r ->]. simpl. by rewrite Hc.
Qed.

Lemma strip_idem s : strip (strip s) = strip s.
Proof.
  unfold strip at 1. rewrite lstrip_strip. unfold strip. apply rstrip_with_idem.
Qed.

(** ** Configuration values *)

Lemma sanitize_printable value : str_all printable (_sanitize_config_value value) = true.
Proof.
  unfold _sanitize_config_value, strip.
  apply str_all_rstrip, str_all_lstrip, str_all_filter.
Qed.

Lemma sanitize_idem value :
  _sanitize_config_value (_sanitize_config_value value) = _sanitize_config_value value.
Proof.
  unfold _sanitize_config_value at 1.
  rewrite filter_str_id by apply sanitize_printable.
  unfold _sanitize_config_value. apply strip_idem.
Qed.

(** X3: what [_sanitize_config_value] returns holds no control character
    (nothing below U+0020, no U+007F) and neither starts nor ends with
    white space; a value of that kind is returned as it is, so sanitising
    twice changes nothing more. *)
Theorem sanitize_config_value_clean value :
  str_all printable (_sanitize_config_value value) = true
  /\ strip (_sanitize_config_value value) = _sanitize_config_value value
  /\ _sanitize_config_value (_sanitize_config_value value) = _sanitize_config_value value
  /\ (str_all printable value = true -> strip value = value ->
      _sanitize_config_value value = value).
Proof.
  split; [apply sanitize_printable|]. split; [apply strip_idem|].
  split; [apply sanitize_idem|].
  intros Hp Hs. unfold _sanitize_config_value. by rewrite filter_str_id.
Qed.

Lemma sanitize_config_value_clean_witness :
  _sanitize_config_value "https://api.runpod.ai/v2" = "https://api.runpod.ai/v2"%string.
Proof.
  exact (proj2 (proj2 (proj2 (sanitize_config_value_clean "https://api.runpod.ai/v2")))
               eq_refl eq_refl).
Defined.

Lemma truthy_str s : truthy (VStr s) = false <-> s = EmptyString.
Proof. simpl. destruct (String.eqb_spec s ""); split; (done || congruence). Qed.

Lemma sanitize_empty : _sanitize_config_value EmptyString = EmptyString.
Proof. reflexivity. Qed.

Lemma endpoint_init_cases endpoint_id0 api_key0 base_url0 timeout0 :
  ((exists e, RunPodEndpoint_init endpoint_id0 api_key0 base_url0 timeout0 = inl e)
   <-> (_sanitize_config_value endpoint_id0 = EmptyString
        \/ _sanitize_config_value api_key0 = EmptyString
        \/ _sanitize_config_value base_url0 = EmptyString))
  /\ (forall cfg,
        RunPodEndpoint_init endpoint_id0 api_key0 base_url0 timeout0 = inr cfg ->
        endpoint_id cfg = _sanitize_config_value endpoint_id0
        /\ api_key cfg = _sanitize_config_value api_key0
        /\ endpoint_id cfg <> EmptyString /\ api_key cfg <> EmptyString
        /\ str_all printable (endpoint_id cfg) = true
        /\ str_all printable (api_key cfg) = true
        /\ str_all printable (base_url cfg) = true
        /\ ~ ends_with "/" (base_url cfg)
        /\ timeout cfg = timeout0)
  /\ (_sanitize_config_value endpoint_id0 <> EmptyString ->
      _sanitize_config_value api_key0 <> EmptyString ->
      base_url0 <> EmptyString -> str_all is_slash base_url0 = true ->
      exists cfg,
        RunPodEndpoint_init endpoint_id0 api_key0 base_url0 timeout0 = inr cfg
        /\ base_url cfg = EmptyString).
Proof.
  assert (forall t, str_all is_slash t = true -> str_all printable t = true) as Hslp.
  { induction t as [|c t IH]; [done|]. rewrite !str_all_cons.
    intros [Hc Ht]%andb_true_iff. unfold is_slash in Hc.
    apply Ascii.eqb_eq in Hc. subst c. simpl. by apply IH. }
  assert (forall u a, str_all is_slash u = true -> isspace a = false ->
                      rstrip_with isspace (String a u) = String a u) as Hrs.
  { induction u as [|b u IH]; intros a Hu Ha; simpl.
    - by rewrite Ha.
    - rewrite str_all_cons in Hu. apply andb_true_iff in Hu as [Hb Hu].
      unfold is_slash in Hb. apply Ascii.eqb_eq in Hb. subst b.
      specialize (IH "/"%char Hu eq_refl). cbn [rstrip_with] in IH. by rewrite IH. }
  assert (forall t, str_all is_slash t = true -> _sanitize_config_value t = t) as Hsl_id.
  { intros t Ht. unfold _sanitize_config_value. rewrite filter_str_id by by apply Hslp.
    destruct t as [|c t]; [done|].
    rewrite str_all_cons in Ht. apply andb_true_iff in Ht as [Hc Ht].
    unfold is_slash in Hc. apply Ascii.eqb_eq in Hc. subst c.
    unfold strip. simpl lstrip. by apply Hrs. }
  unfold RunPodEndpoint_init. cbn [truthy]. rewrite !negb_involutive.
  destruct (String.eqb_spec endpoint_id0 "") as [->|Hid].
  { split; [split; eauto|]. split; [done|]. intros Hne. by destruct Hne. }
  destruct (String.eqb_spec api_key0 "") as [->|Hkey].
  { split; [split; eauto|]. split; [done|]. intros _ Hne. by destruct Hne. }
  destruct (String.eqb_spec (_sanitize_config_value endpoint_id0) "") as [Hid'|Hid'].
  { split; [split; eauto|]. split; [done|]. intros Hne. by destruct Hne. }
  destruct (String.eqb_spec (_sanitize_config_value base_url0) "") as [Hurl'|Hurl'].
  { split; [split; eauto|]. split; [done|]. intros _ _ Hne Hsl.
    rewrite (Hsl_id _ Hsl) in Hurl'. done. }
  destruct (String.eqb_spec (_sanitize_config_value api_key0) "") as [Hkey'|Hkey'].
  { split; [split; eauto|]. split; [done|]. intros _ Hne. by destruct Hne. }
  split; [|split].
  - split; [by intros [e ?]|]. by intros [H|[H|H]].
  - intros cfg [= <-]. simpl.
    split; [done|]. split; [done|]. split; [done|]. split; [done|].
    split; [apply sanitize_printable|]. split; [apply sanitize_printable|].
    split; [apply str_all_rstrip, sanitize_printable|]. split; [|done].
    intros [s' Hs']. by apply rstrip_with_last in Hs'.
  - intros _ _ Hnn Hsl. eexists. split; [done|]. simpl.
    rewrite (Hsl_id _ Hsl).
    clear -Hsl. induction base_url0 as [|c t IH]; [done|].
    rewrite str_all_cons in Hsl. apply andb_true_iff in Hsl as [Hc Ht].
    simpl. rewrite (IH Ht). by rewrite Hc.
Qed.

(** X4: [RunPodEndpoint.__init__] refuses exactly the settings of which
    the endpoint ID, the API key or the base URL is empty once sanitised,
    and then with a [ValueError].  An endpoint it builds has a non-empty
    ID and key, free of control characters and of surrounding white
    space, and a base URL that does not end with a slash.  The base URL
    is checked before its slashes are cut: a base URL made of slashes
    alone is accepted and leaves the endpoint with an empty one. *)
Theorem endpoint_init_validates endpoint_id0 api_key0 base_url0 timeout0 :
  ((exists e, RunPodEndpoint_init endpoint_id0 api_key0 base_url0 timeout0 = inl e)
   <-> (_sanitize_config_value endpoint_id0 = EmptyString
        \/ _sanitize_config_value api_key0 = EmptyString
        \/ _sanitize_config_value base_url0 = EmptyString))
  /\ (forall cfg,
        RunPodEndpoint_init endpoint_id0 api_key0 base_url0 timeout0 = inr cfg ->
        endpoint_id cfg = _sanitize_config_value endpoint_id0
        /\ api_key cfg = _sanitize_config_value api_key0
        /\ endpoint_id cfg <> EmptyString /\ api_key cfg <> EmptyString
        /\ str_all printable (endpoint_id cfg) = true
        /\ str_all printable (api_key cfg) = true
        /\ str_all printable (base_url cfg) = true
        /\ ~ ends_with "/" (base_url cfg)
        /\ timeout cfg = timeout0)
  /\ (_sanitize_config_value endpoint_id0 <> EmptyString ->
      _sanitize_config_value api_key0 <> EmptyString ->
      base_url0 <> EmptyString -> str_all is_slash base_url0 = true ->
      exists cfg,
        RunPodEndpoint_init endpoint_id0 api_key0 base_url0 timeout0 = inr cfg
        /\ base_url cfg = EmptyString)
  /\ (forall e,
        RunPodEndpoint_init endpoint_id0 api_key0 base_url0 timeout0 = inl e ->
        exists msg, e = Error "ValueError" msg).
Proof.
  destruct (endpoint_init_cases endpoint_id0 api_key0 base_url0 timeout0) as (Hiff & Hok & Hsl).
  split; [done|]. split; [done|]. split; [done|].
  intros e. unfold RunPodEndpoint_init.
  repeat match goal with |- context [if ?b then _ else _] => destruct b end;
    intros [= <-]; eauto.
Qed.

Lemma endpoint_init_validates_witness :
  exists cfg,
    RunPodEndpoint_init "wav2lip-ep" "rp_key" "//" 120 = inr cfg
    /\ base_url cfg = EmptyString.
Proof.
  refine (proj1 (proj2 (proj2 (endpoint_init_validates "wav2lip-ep" "rp_key" "//" 120)))
            _ _ _ _);
    (discriminate || reflexivity).
Defined.

(** ** The store as it is built *)

Lemma append_inj_l (p a b : string) : p +:+ a = p +:+ b -> a = b.
Proof. induction p as [|c p IH]; simpl; [done|]. intros [= H]. by apply IH. Qed.

(** X5: the prefix a store keeps never ends with a colon, and the cache
    keys of one store tell tasks apart: two task IDs with the same key are
    the same ID. *)
Theorem store_keys_separate_tasks prefix0 ttl0 persist_dir persist_ttl0 mkdir_ok :
  let st := JobStore_init prefix0 ttl0 persist_dir persist_ttl0 mkdir_ok in
  ~ ends_with ":" (prefix st)
  /\ (forall a b, _key st a = _key st b -> a = b)
  /\ (~ ends_with ":" prefix0 -> forall a, _key st a = prefix0 +:+ ":" +:+ a).
Proof.
  intros st. split; [|split].
  - intros [s' Hs']. simpl in Hs'. by apply rstrip_with_last in Hs'.
  - intros a b Hk. unfold _key in Hk. apply append_inj_l in Hk. by injection Hk.
  - intros Hno a. unfold _key. simpl. f_equal.
    clear -Hno. induction prefix0 as [|c s IH]; [done|]. simpl.
    assert (~ ends_with ":" s \/ s = EmptyString) as [Hs | ->].
    { destruct s as [|b s]; [by right|]. left. intros [s' Hs']. apply Hno.
      exists (String c s'). simpl. by rewrite Hs'. }
    + rewrite (IH Hs). destruct s as [|b s]; [|done].
      destruct (code c =? 58)%N eqn:Hc; [|done].
      exfalso. apply Hno. exists EmptyString. simpl. f_equal.
      apply N.eqb_eq in Hc. unfold code in Hc.
      rewrite <- (ascii_N_embedding c), Hc. done.
    + simpl. destruct (code c =? 58)%N eqn:Hc; [|done].
      exfalso. apply Hno. exists EmptyString. simpl. f_equal.
      apply N.eqb_eq in Hc. unfold code in Hc.
      rewrite <- (ascii_N_embedding c), Hc. done.
Qed.

Lemma store_keys_separate_tasks_witness :
  _key (JobStore_init "ff:task" 604800 None None true) "t1" = "ff:task:t1"%string.
Proof.
  refine (proj2 (proj2 (store_keys_separate_tasks "ff:task" 604800 None None true)) _
                "t1"%string).
  intros [t Ht]. do 7 (destruct t as [ | ? t ]; [done|]; injection Ht as _ Ht).
  by destruct t.
Defined.

(** X6: in the store the module builds from its settings a backup never
    expires before the cache entry it mirrors: the time to live of
    backups is at least that of cache entries, whatever the two settings
    are. *)
Theorem job_store_backup_outlives_cache prefix0 ttl0 persist_dir persist_ttl_setting mkdir_ok :
  ttl (job_store prefix0 ttl0 persist_dir persist_ttl_setting mkdir_ok)
  <= persist_ttl (job_store prefix0 ttl0 persist_dir persist_ttl_setting mkdir_ok).
Proof.
  unfold job_store. simpl.
  destruct (Z.eqb_spec (Z.max persist_ttl_setting ttl0) 0); lia.
Qed.

(** ** The backup file stays in its directory *)

Lemma str_all_append p s t : str_all p (s +:+ t) = str_all p s && str_all p t.
Proof.
  induction s as [|c s IH]; [done|]. change (String c s +:+ t) with (String c (s +:+ t)).
  by rewrite !str_all_cons, IH, andb_assoc.
Qed.

Lemma str_all_In p s c :
  str_all p s = true -> In c (list_ascii_of_string s) -> p c = true.
Proof.
  unfold str_all. rewrite forallb_forall. auto.
Qed.

Lemma backup_name_safe task_id : str_all safe_char (backup_name task_id) = true.
Proof.
  unfold backup_name, or_task. rewrite str_all_append.
  destruct (String.eqb_spec (filter_str safe_char task_id) ""); [done|].
  by rewrite str_all_filter.
Qed.

Lemma or_task_not_empty s : or_task s <> EmptyString.
Proof. unfold or_task. by destruct (String.eqb_spec s ""). Qed.

(** X7: whatever the task ID, the backup file is a direct entry of the
    persistence directory.  Its name is made of characters [_backup_path]
    lets through, so it holds no slash, no backslash and no NUL; it is at
    least six characters long, so it is neither empty nor a dot name; and
    the temporary file written first has another name of the same
    kind. *)
Theorem backup_path_confined st dir task_id :
  persist_path st = Some dir ->
  exists p,
    _backup_path st (VStr task_id) = inr (Some p)
    /\ parent p = dir
    /\ str_all safe_char (name p) = true
    /\ (forall c, In c (list_ascii_of_string (name p)) ->
                  c <> "/"%char /\ c <> backslash /\ c <> Ascii.zero)
    /\ (6 <= String.length (name p))%nat
    /\ tmp_name p <> name p
    /\ str_all safe_char (tmp_name p) = true.
Proof.
  intros Hdir. eexists. split; [by apply backup_path_str|]. simpl.
  split; [done|]. split; [apply backup_name_safe|]. split; [|split; [|split]].
  - intros c Hc. pose proof (str_all_In _ _ _ (backup_name_safe task_id) Hc) as Hs.
    repeat split; intros ->; done.
  - unfold backup_name. rewrite length_append. simpl.
    pose proof (or_task_not_empty (filter_str safe_char task_id)).
    destruct (or_task _); [done|]. simpl. lia.
  - apply tmp_name_fresh.
  - rewrite tmp_name_backup, str_all_append. unfold or_task.
    destruct (String.eqb_spec (filter_str safe_char task_id) ""); [done|].
    by rewrite str_all_filter.
Qed.

Lemma backup_path_confined_witness :
  exists p,
    _backup_path store0 (VStr "../../etc/passwd") = inr (Some p)
    /\ parent p = "/opt/app/task_store"%string
    /\ str_all safe_char (name p) = true
    /\ (forall c, In c (list_ascii_of_string (name p)) ->
                  c <> "/"%char /\ c <> backslash /\ c <> Ascii.zero)
    /\ (6 <= String.length (name p))%nat
    /\ tmp_name p <> name p
    /\ str_all safe_char (tmp_name p) = true.
Proof. exact (backup_path_confined store0 "/opt/app/task_store" "../../etc/passwd" eq_refl). Defined.

(** ** Writing and reading back *)

(** X8: a record that [write] accepted is what the next [get] of its task
    returns: the sanitised record, a JSON value, found in the cache with
    one cache read and nothing else done.  A record without [task_id] is
    refused with a [KeyError] before anything is written. *)
Theorem write_then_get wall st w job :
  (forall tid, dict_get "task_id" job = Some (VStr tid) ->
     (write wall st job w).1 = Ret (VDict (json_safe_dict job))
     /\ is_json (VDict (json_safe_dict job)) = true
     /\ get wall st tid (write wall st job w).2 =
        (Ret (VDict (json_safe_dict job)),
         World (cache (write wall st job w).2) (disk (write wall st job w).2)
               (ticks (write wall st job w).2)
               (trace (write wall st job w).2 ++ [CacheGet (_key st tid)])))
  /\ (dict_get "task_id" job = None ->
      write wall st job w = (Raise (Error "KeyError" "'task_id'"), w)).
Proof.
  split.
  - intros tid Htid.
    destruct (write_world wall st w job tid Htid) as (Hret & Hcache & _).
    split; [done|]. split; [apply (is_json_safe (VDict job))|].
    eapply get_hit. by rewrite Hcache, lookup_insert_eq.
  - intros Hno. unfold write. by rewrite Hno.
Qed.

Lemma write_then_get_witness :
  (write wall0 store0 record0 w0).1 = Ret (VDict (json_safe_dict record0))
  /\ is_json (VDict (json_safe_dict record0)) = true
  /\ get wall0 store0 "t1" (write wall0 store0 record0 w0).2 =
     (Ret (VDict (json_safe_dict record0)),
      World (cache (write wall0 store0 record0 w0).2) (disk (write wall0 store0 record0 w0).2)
            (ticks (write wall0 store0 record0 w0).2)
            (trace (write wall0 store0 record0 w0).2 ++ [CacheGet (_key store0 "t1")])).
Proof. exact (proj1 (write_then_get wall0 store0 w0 record0) "t1"%string eq_refl). Defined.

(** ** What [get] can touch *)

Lemma backup_path_cases st task_id :
  (persist_path st = None /\ _backup_path st (VStr task_id) = inr None)
  \/ exists dir, persist_path st = Some dir
                 /\ _backup_path st (VStr task_id) =
                    inr (Some {| parent := dir; name := backup_name task_id |}).
Proof.
  destruct (persist_path st) as [dir|] eqn:Hdir.
  - right. exists dir. split; [done|]. by apply backup_path_str.
  - left. split; [done|]. unfold _backup_path. by rewrite Hdir.
Qed.

Lemma read_backup_confined wall st task_id w :
  cache (_read_backup wall st task_id w).2 = cache w
  /\ (forall f, f <> backup_name task_id ->
                disk (_read_backup wall st task_id w).2 !! f = disk w !! f)
  /\ (disk (_read_backup wall st task_id w).2 !! backup_name task_id
      = disk w !! backup_name task_id
      \/ disk (_read_backup wall st task_id w).2 !! backup_name task_id = None).
Proof.
  destruct (backup_path_cases st task_id) as [[_ Hp]|(dir & Hdir & _)].
  { unfold _read_backup. rewrite Hp. by auto. }
  assert (forall d : gmap string blob,
            (forall f, f <> backup_name task_id ->
                       delete (backup_name task_id) d !! f = d !! f)
            /\ delete (backup_name task_id) d !! backup_name task_id = None) as Hdel.
  { intros d. split; [intros f Hf; by rewrite lookup_delete_ne|]. apply lookup_delete_eq. }
  destruct (too_long (backup_name task_id)) eqn:Hfit.
  { rewrite (read_backup_refused wall st task_id dir Hdir) by done. simpl. auto. }
  destruct (disk w !! backup_name task_id) as [[|v|m]|] eqn:Hf.
  - rewrite (read_backup_garbled wall st task_id dir Hdir) by done. simpl.
    split; [done|]. split; [apply Hdel|right; apply Hdel].
  - destruct (is_dict v) eqn:Hv.
    + destruct v as [| | | | | |data|]; try done.
      rewrite (read_backup_object wall st task_id dir Hdir w data) by done. cbv zeta.
      destruct (truthy (get_or_none "expires_at" data)); simpl.
      * destruct (as_number (get_or_none "expires_at" data)) as [e|]; simpl;
          [|split; [done|]; split; [done|by left]].
        destruct (e <? wall (ticks w)); simpl;
          [split; [done|]; split; [apply Hdel|right; apply Hdel]|].
        destruct (is_dict (get_or_none "payload" data)); simpl;
          [split; [done|]; split; [done|by left]
          |split; [done|]; split; [apply Hdel|right; apply Hdel]].
      * destruct (is_dict (get_or_none "payload" data)); simpl;
          [split; [done|]; split; [done|by left]
          |split; [done|]; split; [apply Hdel|right; apply Hdel]].
    + rewrite (read_backup_not_object wall st task_id dir Hdir w v) by done. simpl. auto.
  - rewrite (read_backup_unreadable wall st task_id dir Hdir w m) by done. simpl. auto.
  - rewrite (read_backup_absent wall st task_id dir Hdir) by done. simpl. auto.
Qed.

(** X9: whatever the cache and the directory hold, [get] of one task
    changes the cache at most under the key of that task and the
    directory at most at the backup file of that task, which it may
    delete but never writes; every other entry and file is as before. *)
Theorem get_confined wall st task_id :
  confined (_key st task_id) (backup_name task_id) (get wall st task_id).
Proof.
  intros w.
  destruct (cache w !! _key st task_id) as [[b ex]|] eqn:Hc.
  - assert ((get wall st task_id w).2 =
            World (cache w) (disk w) (ticks w) (trace w ++ [CacheGet (_key st task_id)]))
      as ->.
    { unfold get, bind, cache_get. simpl. rewrite Hc. by destruct b. }
    simpl. split; [done|]. split; [done|by left].
  - rewrite (get_miss wall st task_id w Hc).
    set (w1 := World (cache w) (disk w) (ticks w) (trace w ++ [CacheGet (_key st task_id)])).
    destruct (read_backup_confined wall st task_id w1) as (Hcache & Hother & Hfile).
    destruct (_read_backup wall st task_id w1) as [[payload|e|] w2]; simpl in *;
      [|by rewrite Hcache..].
    destruct (truthy payload); simpl; [|by rewrite Hcache].
    split; [|done]. intros k Hk. rewrite lookup_insert_ne by done. by rewrite Hcache.
Qed.

(** ** Without a persistence directory *)

Lemma quiet_ret {A} (a : A) : quiet (ret a).
Proof. intros w. split; [done|]. exists []. by rewrite app_nil_r. Qed.

Lemma quiet_raise {A} e : quiet (@raise A e).
Proof. intros w. split; [done|]. exists []. by rewrite app_nil_r. Qed.

Lemma quiet_pending {A} : quiet (@pending A).
Proof. intros w. split; [done|]. exists []. by rewrite app_nil_r. Qed.

Lemma quiet_lift {A} (x : exn + A) : quiet (lift x).
Proof. destruct x; [apply quiet_raise|apply quiet_ret]. Qed.

Lemma quiet_bind {A B} (m : M A) (k : A -> M B) :
  quiet m -> (forall a, quiet (k a)) -> quiet (bind m k).
Proof.
  intros Hm Hk w. unfold bind. destruct (Hm w) as (Hd & evs & Ht & Hq).
  destruct (m w) as [[a|e|] w1]; simpl in *; [|eauto..].
  destruct (Hk a w1) as (Hd' & evs' & Ht' & Hq').
  split; [congruence|]. exists (evs ++ evs'). rewrite Ht', Ht, <- app_assoc.
  split; [done|]. by apply Forall_app.
Qed.

Lemma quiet_try {A} (m : M A) (h : exn -> M A) :
  quiet m -> (forall e, quiet (h e)) -> quiet (try_except m h).
Proof.
  intros Hm Hh w. unfold try_except. destruct (Hm w) as (Hd & evs & Ht & Hq).
  destruct (m w) as [[a|e|] w1]; simpl in *; [eauto| |eauto].
  destruct (Hh e w1) as (Hd' & evs' & Ht' & Hq').
  split; [congruence|]. exists (evs ++ evs'). rewrite Ht', Ht, <- app_assoc.
  split; [done|]. by apply Forall_app.
Qed.

Lemma quiet_emit e : disk_event e = false -> quiet (emit e).
Proof. intros He w. split; [done|]. exists [e]. split; [done|]. by apply Forall_singleton. Qed.

Lemma quiet_cache_get key : quiet (cache_get key).
Proof. intros w. split; [done|]. exists [CacheGet key]. split; [done|]. by apply Forall_singleton. Qed.

Lemma quiet_cache_set key payload ex : quiet (cache_set key payload ex).
Proof.
  intros w. split; [done|]. exists [CacheSet key payload ex]. split; [done|].
  by apply Forall_singleton.
Qed.

Lemma quiet_time_time wall : quiet (time_time wall).
Proof. intros w. split; [done|]. exists []. by rewrite app_nil_r. Qed.

Lemma quiet_now_iso wall iso : quiet (_now_iso wall iso).
Proof. intros w. split; [done|]. exists []. by rewrite app_nil_r. Qed.

Create HintDb quiet.
#[export] Hint Resolve quiet_ret quiet_raise quiet_pending quiet_lift quiet_cache_get
  quiet_cache_set quiet_time_time quiet_now_iso : quiet.

Ltac quiet_step :=
  first
    [ solve [auto with quiet]
    | apply quiet_emit; reflexivity
    | apply quiet_try; [|intros ?]
    | apply quiet_bind; [|intros ?]
    | match goal with
      | |- quiet (match ?x with _ => _ end) => destruct x
      | |- quiet (if ?b then _ else _) => destruct b
      | |- quiet (let _ := _ in _) => cbv zeta
      end ].

Section NoDirectory.

Context (wall : nat -> Z) (iso : Z -> string).
Context (st : JobStore) (Hnone : persist_path st = None).

Lemma backup_path_none v : _backup_path st v = inr None.
Proof. unfold _backup_path. by rewrite Hnone. Qed.

Lemma quiet_write_backup job : quiet (_write_backup wall st job).
Proof. intros w. unfold _write_backup. rewrite backup_path_none. exact (quiet_ret tt w). Qed.

Lemma quiet_read_backup task_id : quiet (_read_backup wall st task_id).
Proof. intros w. unfold _read_backup. rewrite backup_path_none. exact (quiet_ret VNone w). Qed.

Lemma quiet_write job : quiet (write wall st job).
Proof.
  unfold write. destruct (dict_get "task_id" job); [|by auto with quiet].
  apply quiet_bind; [by auto with quiet|]. intros _.
  apply quiet_bind; [apply quiet_write_backup|]. intros _. apply quiet_ret.
Qed.

Lemma quiet_get task_id : quiet (get wall st task_id).
Proof.
  unfold get. apply quiet_bind; [by auto with quiet|]. intros [[|v|m]|]; try apply quiet_ret; try apply quiet_raise.
  apply quiet_bind; [apply quiet_read_backup|]. intros payload.
  destruct (negb (truthy payload)); repeat quiet_step.
Qed.

Lemma quiet_update_fields task_id us : quiet (update_fields wall iso st task_id us).
Proof.
  unfold update_fields. apply quiet_bind; [apply quiet_get|]. intros job.
  destruct (negb (truthy job)); [apply quiet_ret|].
  apply quiet_bind; [apply quiet_lift|]. intros job'.
  apply quiet_bind; [apply quiet_now_iso|]. intros now.
  destruct job'; try apply quiet_raise. apply quiet_write.
Qed.

Lemma quiet_append_progress task_id message stage extra :
  quiet (append_progress wall iso st task_id message stage extra).
Proof.
  unfold append_progress. apply quiet_bind; [apply quiet_now_iso|]. intros now.
  apply quiet_bind; [apply quiet_update_fields|]. intros _. apply quiet_ret.
Qed.

End NoDirectory.

Lemma quiet_submit lbl ep payload : quiet (submit lbl ep payload).
Proof. unfold submit. repeat quiet_step. Qed.

Lemma quiet_status lbl ep job_id k : quiet (status lbl ep job_id k).
Proof. unfold status. repeat quiet_step. Qed.

Lemma quiet_wait_from fuel lbl ep job_id timeout : forall k,
  quiet (wait_from fuel lbl ep job_id timeout k).
Proof.
  induction fuel as [|fuel IH]; intros k; simpl; [apply quiet_pending|].
  apply quiet_bind; [apply quiet_status|]. intros s.
  destruct s; try apply quiet_raise.
  destruct (classify d); try (apply quiet_ret || apply quiet_raise).
  destruct (timed_out ep timeout k); [apply quiet_raise|apply IH].
Qed.

Section QuietEngine.

Context (wall : nat -> Z) (iso : Z -> string).
Context (mgr : JobManager) (fuel : nat) (task_id : string).
Context (Hnone : persist_path (store mgr) = None).

Local Hint Resolve quiet_update_fields quiet_append_progress quiet_submit quiet_write
  quiet_get : quiet.

Lemma quiet_wait lbl ep job_id timeout : quiet (wait fuel lbl ep job_id timeout).
Proof. apply quiet_wait_from. Qed.

Local Hint Resolve quiet_wait : quiet.

Lemma quiet_voice_stage request script :
  quiet (voice_stage wall iso mgr fuel task_id request script).
Proof. unfold voice_stage. repeat quiet_step. Qed.

Lemma quiet_finish_audio_only request sovits_result :
  quiet (finish_audio_only wall iso mgr task_id request sovits_result).
Proof. unfold finish_audio_only. repeat quiet_step. Qed.

Lemma quiet_face_stage request_dict wav_result intermediate :
  quiet (face_stage wall iso mgr fuel task_id request_dict wav_result intermediate).
Proof. unfold face_stage. repeat quiet_step. Qed.

Local Hint Resolve quiet_voice_stage quiet_finish_audio_only quiet_face_stage : quiet.

Lemma quiet_lipsync_stage request intermediate :
  quiet (lipsync_stage wall iso mgr fuel task_id request intermediate).
Proof. unfold lipsync_stage. repeat quiet_step. Qed.

Local Hint Resolve quiet_lipsync_stage : quiet.

Lemma quiet_execute request : quiet (_execute wall iso mgr fuel task_id request).
Proof. unfold _execute, _execute_body, on_failure. repeat quiet_step. Qed.

Lemma quiet_run request : quiet (run wall iso mgr fuel task_id request).
Proof.
  unfold run, JobManager_submit. apply quiet_bind; [|intros _; apply quiet_execute].
  repeat quiet_step.
Qed.

End QuietEngine.

(** X10: a store without persistence directory never touches the disk:
    [get], [write], [update_fields] and [append_progress] leave every file
    as it is and perform cache operations only; and so does a whole run of
    the engine over such a store, from the submission to the terminal
    record. *)
Theorem store_without_directory_is_quiet wall iso st :
  persist_path st = None ->
  (forall task_id, quiet (get wall st task_id))
  /\ (forall job, quiet (write wall st job))
  /\ (forall task_id us, quiet (update_fields wall iso st task_id us))
  /\ (forall task_id message stage extra,
        quiet (append_progress wall iso st task_id message stage extra))
  /\ (forall mgr fuel task_id request,
        store mgr = st -> quiet (run wall iso mgr fuel task_id request)).
Proof.
  intros Hnone. split; [|split; [|split; [|split]]].
  - intros task_id. by apply quiet_get.
  - intros job. by apply quiet_write.
  - intros task_id us. by apply quiet_update_fields.
  - intros task_id message stage extra. by apply quiet_append_progress.
  - intros mgr fuel task_id request Hst. apply quiet_run. by rewrite Hst.
Qed.

Lemma store_without_directory_is_quiet_witness :
  disk (get wall0 (JobStore_init "ff:task" 604800 None None true) "t1" w0).2 = disk w0.
Proof.
  exact (proj1 (proj1 (store_without_directory_is_quiet wall0 iso0
                         (JobStore_init "ff:task" 604800 None None true) eq_refl)
                      "t1"%string w0)).
Defined.

(** ** Backups that are not what [write] leaves *)

(** X11: on a cache miss, for a task whose backup name the file system
    takes, a backup file that parses to something other than an object
    makes [get] fail with an [AttributeError], one whose [expires_at] is
    truthy but not a number with a [TypeError], and one that cannot be
    decoded or holds a number too long to convert with the error of the
    reader; in each case the file is left in place and the cache is not
    filled. *)
Theorem get_malformed_backup_raises wall st dir task_id w :
  persist_path st = Some dir ->
  too_long (backup_name task_id) = false ->
  cache w !! _key st task_id = None ->
  (forall v,
      disk w !! backup_name task_id = Some (Json v) -> is_dict v = false ->
      get wall st task_id w =
      (Raise (Error "AttributeError" "object has no attribute 'get'"),
       World (cache w) (disk w) (ticks w)
             (trace w ++ [CacheGet (_key st task_id); DiskStat (backup_name task_id);
                          DiskRead (backup_name task_id)])))
  /\ (forall data x,
      disk w !! backup_name task_id = Some (Json (VDict data)) ->
      dict_get "expires_at" data = Some x -> truthy x = true -> as_number x = None ->
      get wall st task_id w =
      (Raise (Error "TypeError" "'<' not supported"),
       World (cache w) (disk w) (S (ticks w))
             (trace w ++ [CacheGet (_key st task_id); DiskStat (backup_name task_id);
                          DiskRead (backup_name task_id)])))
  /\ (forall m,
      disk w !! backup_name task_id = Some (Unreadable m) ->
      get wall st task_id w =
      (Raise (misread_error m),
       World (cache w) (disk w) (ticks w)
             (trace w ++ [CacheGet (_key st task_id); DiskStat (backup_name task_id);
                          DiskRead (backup_name task_id)]))).
Proof.
  intros Hdir Hfit Hmiss. split; [|split].
  - intros v Hf Hv. rewrite (get_miss wall st task_id w Hmiss).
    rewrite (read_backup_not_object wall st task_id dir Hdir _ v) by done.
    simpl. by rewrite <- app_assoc.
  - intros data x Hf Hx Htr Hnum. rewrite (get_miss wall st task_id w Hmiss).
    rewrite (read_backup_object wall st task_id dir Hdir _ data) by done. cbv zeta.
    assert (get_or_none "expires_at" data = x) as ->.
    { unfold get_or_none. by rewrite Hx. }
    rewrite Htr, Hnum. simpl. by rewrite <- app_assoc.
  - intros m Hf. rewrite (get_miss wall st task_id w Hmiss).
    rewrite (read_backup_unreadable wall st task_id dir Hdir _ m) by done.
    simpl. by rewrite <- app_assoc.
Qed.

Lemma get_malformed_backup_raises_witness :
  get wall0 store0 "t1" (World ∅ {[ "t1.json"%string := Json (VList []) ]} 0 []) =
  (Raise (Error "AttributeError" "object has no attribute 'get'"),
   World ∅ {[ "t1.json"%string := Json (VList []) ]} 0
         [CacheGet "ff:task:t1"; DiskStat "t1.json"; DiskRead "t1.json"]).
Proof.
  exact (proj1 (get_malformed_backup_raises wall0 store0 "/opt/app/task_store" "t1"
                  (World ∅ {[ "t1.json"%string := Json (VList []) ]} 0 [])
                  eq_refl eq_refl eq_refl)
               (VList []) eq_refl eq_refl).
Defined.

(** ** One backup file for several task IDs *)

(** X12: the backup file is named after the characters of the task ID
    that are kept, so task IDs with the same kept characters share one
    file; and [_read_backup] does not compare the [task_id] of the record
    it finds with the one it was asked for.  A record written under one
    ID, with a backup name the file system takes, is therefore what [get]
    returns, once the cache has no entry, for any other ID with the same
    backup name, and it is installed in the cache under that other ID. *)
Theorem get_shares_backup_between_ids wall st dir a b job w1 w :
  persist_path st = Some dir ->
  too_long (backup_name a) = false ->
  filter_str safe_char a = filter_str safe_char b ->
  dict_get "task_id" job = Some (VStr a) ->
  disk w = disk (write wall st job w1).2 ->
  cache w !! _key st b = None ->
  wall (ticks w) <= wall (ticks w1) + persist_ttl st ->
  _backup_path st (VStr a) = _backup_path st (VStr b)
  /\ (get wall st b w).1 = Ret (VDict (json_safe_dict job))
  /\ cache (get wall st b w).2 !! _key st b = Some (Json (VDict (json_safe_dict job)), ttl st).
Proof.
  intros Hdir Hfit Hsame Htid Hdisk Hmiss Hle.
  assert (backup_name a = backup_name b) as Hname.
  { unfold backup_name. by rewrite Hsame. }
  split; [by rewrite !(backup_path_str st dir), Hname|].
  assert (disk w !! backup_name b = Some (Json (backup_content st job (wall (ticks w1)))))
    as Hf.
  { rewrite Hdisk, <- Hname. by apply (write_leaves_backup wall st a dir). }
  rewrite Hname in Hfit.
  destruct (get_restores wall st b dir Hdir w job (wall (ticks w1))) as (Hret & Hcache & _);
    try done.
  intros ->. done.
Qed.

Lemma get_shares_backup_between_ids_witness :
  _backup_path store0 (VStr "t1") = _backup_path store0 (VStr "t/1")
  /\ (get wall0 store0 "t/1" flushed).1 = Ret (VDict (json_safe_dict record0))
  /\ cache (get wall0 store0 "t/1" flushed).2 !! _key store0 "t/1"
     = Some (Json (VDict (json_safe_dict record0)), ttl store0).
Proof.
  refine (get_shares_backup_between_ids wall0 store0 "/opt/app/task_store" "t1" "t/1"
            record0 w0 flushed eq_refl eq_refl eq_refl eq_refl eq_refl eq_refl _).
  vm_compute. discriminate.
Defined.

(** ** Progress for a task that is gone *)





(** ** The endpoint client: [submit] and [status] *)

Lemma first_truthy a b c :
  py_or (py_or a b) c = if truthy a then a else if truthy b then b else c.
Proof.
  unfold py_or. destruct (truthy a) eqn:Ha; [by rewrite Ha|]. by destruct (truthy b) eqn:Hb.
Qed.

(** [submit], answer by answer. *)
Lemma submit_of_answer lbl ep payload w :
  submit lbl ep payload w =
  (match post_run ep payload with
   | Failed msg | MethodNotAllowed msg =>
       Raise (error_payload "runpod_submit_failed" (VStr msg))
   | Refused msg => Raise (invalid_url msg)
   | Success body =>
       match parse body with
       | inl e => Raise e
       | inr (VDict d) =>
           let job_id := if truthy (get_or_none "id" d) then get_or_none "id" d
                         else if truthy (get_or_none "jobId" d) then get_or_none "jobId" d
                         else get_or_none "job_id" d in
           if truthy job_id then Ret job_id
           else Raise (error_payload "runpod_submit_failed" (VDict d))
       | inr _ => Raise (Error "AttributeError" "object has no attribute 'get'")
       end
   end,
   World (cache w) (disk w) (ticks w) (trace w ++ [Submit lbl payload])).
Proof.
  unfold submit, bind, emit, lift, response_json. simpl.
  destruct (post_run ep payload) as [msg|msg|body|msg]; simpl; try done.
  destruct (parse body) as [e|v]; simpl; [done|].
  destruct v as [| | | | | |d|]; simpl; try done.
  rewrite (first_truthy (get_or_none "id" d) (get_or_none "jobId" d) (get_or_none "job_id" d)).
  by destruct (truthy _).
Qed.

(** X14: [submit] makes one request and never reads the clock or touches
    the store, and the answer alone decides what it gives.  A transport
    or HTTP error is [runpod_submit_failed] with the text of the error; a
    URL that httpx refuses is its [InvalidURL], not wrapped; a body that
    cannot be read is the error of the reader, and a body that is no
    object an [AttributeError].  For an object the job ID is the first
    of [id], [jobId] and [job_id], in that order, that is truthy; when
    none is, [submit] raises [runpod_submit_failed] with the whole answer
    as detail.  So a job ID is returned exactly for an object with such
    an entry, and no other [RuntimeError] comes out of [submit]. *)
Theorem submit_picks_first_job_id lbl ep payload w :
  (exists o, submit lbl ep payload w =
             (o, World (cache w) (disk w) (ticks w) (trace w ++ [Submit lbl payload]))
             /\ o <> Pending)
  /\ (forall msg, post_run ep payload = Failed msg \/ post_run ep payload = MethodNotAllowed msg ->
        (submit lbl ep payload w).1 =
        Raise (error_payload "runpod_submit_failed" (VStr msg)))
  /\ (forall msg, post_run ep payload = Refused msg ->
        (submit lbl ep payload w).1 = Raise (invalid_url msg))
  /\ (forall body e, post_run ep payload = Success body -> parse body = inl e ->
        (submit lbl ep payload w).1 = Raise e)
  /\ (forall v, post_run ep payload = Success (Json v) -> is_dict v = false ->
        (submit lbl ep payload w).1 =
        Raise (Error "AttributeError" "object has no attribute 'get'"))
  /\ (forall d, post_run ep payload = Success (Json (VDict d)) ->
        let job_id := if truthy (get_or_none "id" d) then get_or_none "id" d
                      else if truthy (get_or_none "jobId" d) then get_or_none "jobId" d
                      else get_or_none "job_id" d in
        (submit lbl ep payload w).1 =
        if truthy job_id then Ret job_id
        else Raise (error_payload "runpod_submit_failed" (VDict d)))
  /\ (forall j, (submit lbl ep payload w).1 = Ret j <->
        exists d, post_run ep payload = Success (Json (VDict d))
                  /\ truthy j = true
                  /\ j = (if truthy (get_or_none "id" d) then get_or_none "id" d
                          else if truthy (get_or_none "jobId" d) then get_or_none "jobId" d
                          else get_or_none "job_id" d))
  /\ (forall args, (submit lbl ep payload w).1 = Raise (RuntimeError args) ->
        error_tag (RuntimeError args) = Some "runpod_submit_failed"%string).
Proof.
  rewrite submit_of_answer. cbn [fst snd].
  split; [|split; [|split; [|split; [|split; [|split; [|split]]]]]].
  - eexists. split; [reflexivity|].
    destruct (post_run ep payload) as [msg|msg|body|msg]; try done.
    destruct (parse body) as [e|[| | | | | |d|]]; try done. cbv zeta. by destruct (truthy _).
  - by intros msg [-> | ->].
  - by intros msg ->.
  - by intros body e -> ->.
  - intros v -> Hv. simpl. by destruct v.
  - by intros d ->.
  - intros j. destruct (post_run ep payload) as [msg|msg|body|msg];
      try (split; [done|by intros (d & ? & _)]).
    destruct body as [|v|m]; simpl; try (split; [done|by intros (d & ? & _)]).
    destruct v as [| | | | | |d|]; try (split; [done|by intros (d & ? & _)]).
    cbv zeta.
    set (j0 := if truthy (get_or_none "id" d) then get_or_none "id" d
               else if truthy (get_or_none "jobId" d) then get_or_none "jobId" d
               else get_or_none "job_id" d).
    destruct (truthy j0) eqn:Hj; split.
    + intros [= <-]. by exists d.
    + by intros (d' & [= <-] & _ & ->).
    + done.
    + intros (d' & [= <-] & Htr & ->). fold j0 in Htr. congruence.
  - intros args. destruct (post_run ep payload) as [msg|msg|body|msg];
      try by intros [= <-].
    destruct body as [|v|m]; simpl; try done.
    destruct v as [| | | | | |d|]; try done. cbv zeta.
    destruct (truthy _); [done|]. by intros [= <-].
Qed.

Lemma submit_picks_first_job_id_witness :
  (submit Wav2Lip (answering in_queue) (VDict []) w0).1 = Ret (VStr "job-1").
Proof.
  exact (proj1 (proj2 (proj2 (proj2 (proj2 (proj2
           (submit_picks_first_job_id Wav2Lip (answering in_queue) (VDict []) w0))))))
         [("id", VStr "job-1")]%string eq_refl).
Defined.

(** X15: [status] is traced once and touches nothing else.  A job ID with
    an ASCII control character makes httpx refuse the URL and [status]
    raise [InvalidURL] whatever the server would answer.  Otherwise it
    polls with a GET and repeats the request as a POST exactly when the
    server answers the GET with 405: any other answer to the GET decides
    the result whatever a POST would give.  Of the request that counts, a
    transport or HTTP error is [runpod_status_failed] with the text of
    the error, a refused URL is [InvalidURL], and a body is returned as
    it parses or fails with the error of the reader; no other
    [RuntimeError] comes out of [status]. *)
Theorem status_posts_only_on_405 lbl ep job_id k w :
  (exists o, status lbl ep job_id k w =
             (o, World (cache w) (disk w) (ticks w) (trace w ++ [Poll lbl job_id]))
             /\ o <> Pending)
  /\ (url_refused job_id = true ->
      (status lbl ep job_id k w).1 = Raise (invalid_url control_character))
  /\ (url_refused job_id = false ->
      (forall msg, get_status ep job_id k = Failed msg ->
         (status lbl ep job_id k w).1 =
         Raise (error_payload "runpod_status_failed" (VStr msg)))
      /\ (forall msg, get_status ep job_id k = Refused msg ->
            (status lbl ep job_id k w).1 = Raise (invalid_url msg))
      /\ (forall body, get_status ep job_id k = Success body ->
            (status lbl ep job_id k w).1 =
            match parse body with inl e => Raise e | inr v => Ret v end)
      /\ (forall msg, get_status ep job_id k = MethodNotAllowed msg ->
            (status lbl ep job_id k w).1 = decided (post_status ep job_id k)))
  /\ (forall ep',
        get_status ep' job_id k = get_status ep job_id k ->
        (forall msg, get_status ep job_id k <> MethodNotAllowed msg) ->
        status lbl ep' job_id k w = status lbl ep job_id k w)
  /\ (forall args, (status lbl ep job_id k w).1 = Raise (RuntimeError args) ->
        error_tag (RuntimeError args) = Some "runpod_status_failed"%string).
Proof.
  rewrite !status_of_reply. cbn [fst snd]. unfold status_reply, response_json.
  split; [|split; [|split; [|split]]].
  - eexists. split; [reflexivity|]. by destruct (if url_refused job_id then _ else _).
  - by intros ->.
  - intros ->. split; [|split; [|split]].
    + by intros msg ->.
    + by intros msg ->.
    + intros body ->. by destruct (parse body).
    + intros msg ->. unfold decided.
      by destruct (post_status ep job_id k) as [msg'|msg'|body|msg'].
  - intros ep' Hget Hno. rewrite !status_of_reply. unfold status_reply. rewrite Hget.
    destruct (get_status ep job_id k) as [msg|msg|body|msg]; try done.
    by destruct (Hno msg).
  - intros args. destruct (url_refused job_id); [done|].
    destruct (get_status ep job_id k) as [msg|msg|[|v|m]|msg]; simpl; try by intros [= <-].
    destruct (post_status ep job_id k) as [msg'|msg'|[|v|m]|msg']; simpl; by intros [= <-].
Qed.

Lemma status_posts_only_on_405_witness :
  (status Sovits
     {| post_run := fun _ => Failed "unused";
        get_status := fun _ _ => MethodNotAllowed "405 Method Not Allowed";
        post_status := fun _ _ => Success (Json (VDict in_queue));
        elapsed := fun n => Z.of_nat n |} "job-1" 0 w0).1
  = decided (Success (Json (VDict in_queue))).
Proof.
  exact (proj2 (proj2 (proj2 (proj1 (proj2 (proj2
           (status_posts_only_on_405 Sovits
              {| post_run := fun _ => Failed "unused";
                 get_status := fun _ _ => MethodNotAllowed "405 Method Not Allowed";
                 post_status := fun _ _ => Success (Json (VDict in_queue));
                 elapsed := fun n => Z.of_nat n |} "job-1" 0%nat w0))) eq_refl)))
         "405 Method Not Allowed"%string eq_refl).
Defined.

(** ** The poll loop as a whole *)






(** X17: [wait] is decided by the first poll that is not left open.
    When the first [n] polls answer statuses that are neither success nor
    failure and the timeout has not passed after any of them, a loop that
    is followed long enough makes exactly [n + 1] polls and ends with
    what the poll number [n] gives: its error, the status it returns, the
    failure it names, or [runpod_job_timeout] when it is open again and
    the timeout has passed. *)
Theorem wait_ends_at_first_decided_poll fuel lbl ep job_id timeout n : forall k w,
  (n < fuel)%nat ->
  (forall i, (i < n)%nat ->
     exists polled state,
       status_reply ep (py_str job_id) (k + i) = inr (VDict polled)
       /\ classify polled = Continue state
       /\ timed_out ep timeout (k + i) = false) ->
  (match status_reply ep (py_str job_id) (k + n) with
   | inr (VDict polled) =>
       match classify polled with
       | Continue _ => timed_out ep timeout (k + n) = true
       | _ => True
       end
   | _ => True
   end) ->
  wait_from fuel lbl ep job_id timeout k w =
  (match status_reply ep (py_str job_id) (k + n) with
   | inl e => Raise e
   | inr (VDict polled) =>
       match classify polled with
       | Return s => Ret s
       | Fail e => Raise e
       | Continue state => Raise (timeout_error job_id state)
       end
   | inr _ => Raise (Error "AttributeError" "object has no attribute 'get'")
   end,
   World (cache w) (disk w) (ticks w)
         (trace w ++ repeat (Poll lbl (py_str job_id)) (S n))).
Proof.
  revert fuel. induction n as [|n IH]; intros fuel k w Hfuel Hopen Hlast.
  - destruct fuel as [|fuel]; [lia|]. rewrite wait_from_unfold, status_of_reply.
    rewrite Nat.add_0_r in *.
    destruct (status_reply ep (py_str job_id) k) as [e|v]; [done|].
    destruct v as [| | | | | |polled|]; try done.
    destruct (classify polled); try done. by rewrite Hlast.
  - destruct fuel as [|fuel]; [lia|]. rewrite wait_from_unfold, status_of_reply.
    destruct (Hopen 0%nat ltac:(lia)) as (polled & state & Hreply & Hcl & Hto).
    rewrite Nat.add_0_r in Hreply, Hto. rewrite Hreply, Hcl, Hto.
    rewrite (IH fuel (S k)).
    + replace (S k + n)%nat with (k + S n)%nat by lia. f_equal. simpl.
      by rewrite <- app_assoc.
    + lia.
    + intros i Hi. replace (S k + i)%nat with (k + S i)%nat by lia. apply Hopen. lia.
    + by replace (S k + n)%nat with (k + S n)%nat by lia.
Qed.

Lemma wait_ends_at_first_decided_poll_witness :
  wait_from 5 Sovits
    {| post_run := fun _ => Failed "unused";
       get_status := fun _ i =>
         Success (Json (VDict (if (i <? 2)%nat then in_queue
                               else completed_with (VDict [("output_key", VStr "out/a.wav")]%string))));
       post_status := fun _ _ => Failed "unused";
       elapsed := fun i => Z.of_nat i |}
    (VStr "job-1") (Some 1800) 0 w0
  = (Ret (VDict (completed_with (VDict [("output_key", VStr "out/a.wav")]%string))),
     World ∅ ∅ 0 [Poll Sovits "job-1"; Poll Sovits "job-1"; Poll Sovits "job-1"]).
Proof.
  refine (wait_ends_at_first_decided_poll 5 Sovits _ (VStr "job-1") (Some 1800) 2 0%nat w0
            _ _ _).
  - lia.
  - intros i Hi. exists in_queue, "IN_QUEUE"%string.
    destruct i as [|[|i]]; [by repeat split..|lia].
  - exact I.
Defined.

(** ** The life cycle of a record, step by step *)

Lemma rank_pending : rank "pending" = 0%nat.
Proof. reflexivity. Qed.

Lemma rank_running : rank "running" = 1%nat.
Proof. reflexivity. Qed.

Lemma rank_completed : rank "completed" = 2%nat.
Proof. reflexivity. Qed.

Lemma rank_failed : rank "failed" = 2%nat.
Proof. reflexivity. Qed.

Lemma advances_trans r1 r2 r3 : advances r1 r2 -> advances r2 r3 -> advances r1 r3.
Proof.
  intros (s1 & s2 & H1 & H2 & Hle & Hterm) (s2' & s3 & H2' & H3 & Hle' & Hterm').
  rewrite H2 in H2'. injection H2' as <-.
  exists s1, s3. split; [done|]. split; [done|]. split; [lia|].
  intros Hr. specialize (Hterm Hr). subst s2. by apply Hterm'.
Qed.

Lemma advances_same r r' s :
  dict_get "status" r = Some (VStr s) -> dict_get "status" r' = Some (VStr s) ->
  advances r r'.
Proof. intros H1 H2. exists s, s. by repeat split. Qed.

Lemma in_phase_terminal r :
  in_phase "completed" "completed" r \/ in_phase "failed" "failed" r -> terminal r.
Proof. intros [(H & _)|(H & _)]; [by left|by right]. Qed.

Lemma submit_frame lbl ep payload w :
  trace (submit lbl ep payload w).2 = trace w ++ [Submit lbl payload]
  /\ cache (submit lbl ep payload w).2 = cache w.
Proof.
  unfold submit, bind, emit, lift, response_json, parse. simpl.
  destruct (post_run ep payload) as [msg|msg|[|v|m]|msg]; simpl; try done.
  destruct v; try done. by destruct (truthy _).
Qed.

Section LifecycleRules.

Context (wall : nat -> Z) (iso : Z -> string).
Context (st : JobStore) (task_id : string) (base : list event) (r0 : dict).
Context (cache0 : gmap string (blob * Z)).

Local Abbreviation tr := (tracked st task_id base r0 cache0).

Lemma tracked_current r evs w : tr r evs w -> coherent r /\ same_origin r0 r.
Proof.
  intros (_ & _ & _ & _ & _ & Hlast & Hall & _).
  apply last_Some_elem_of in Hlast. rewrite Forall_forall in Hall.
  destruct (Hall r Hlast) as (? & ? & _). done.
Qed.

(** The record takes the place of [r] as the last one written. *)
Lemma tracked_written r r' evs seg w w' :
  tr r evs w ->
  trace w' = trace w ++ seg ->
  cache w' = <[_key st task_id := (Json (VDict r'), ttl st)]> (cache w) ->
  (records seg = [r'] \/ records seg = [r'; r']) ->
  good task_id r' -> coherent r' -> same_origin r0 r' -> advances r r' ->
  tr r' (evs ++ seg) w'.
Proof.
  intros (Htr & Hc & Hframe & Hg & Hhead & Hlast & Hall & Hsorted)
         Htr' Hc' Hrec Hg' Hco Hor Hadv.
  assert (advances r' r') as Hrefl.
  { destruct Hadv as (s1 & s2 & _ & H2 & _). by eapply advances_same. }
  assert (Forall (fun x => coherent x /\ same_origin r0 x /\ advances x r') (records evs))
    as Hall'.
  { eapply Forall_impl; [exact Hall|]. intros x (? & ? & ?). split; [done|].
    split; [done|]. by eapply advances_trans. }
  assert (Forall (fun y => advances y r') (records evs)) as Hadv'.
  { eapply Forall_impl; [exact Hall'|]. by intros x (? & ? & ?). }
  unfold tracked. rewrite Htr', Htr, <- app_assoc, records_app.
  split; [done|]. split; [by rewrite Hc', lookup_insert_eq|].
  split; [intros k Hk; rewrite Hc', lookup_insert_ne by done; by apply Hframe|].
  split; [done|]. split; [by rewrite head_app, Hhead|].
  assert (Forall (fun x => coherent x /\ same_origin r0 x /\ advances x r') [r']) as Hone.
  { by apply Forall_singleton. }
  assert (Forall (fun y => advances y r') [r']) as Hone'.
  { by apply Forall_singleton. }
  destruct Hrec as [-> | ->].
  - split; [by rewrite last_snoc|]. split.
    + by apply Forall_app.
    + by apply StronglySorted_snoc.
  - change [r'; r'] with ([r'] ++ [r']). rewrite app_assoc.
    split; [by rewrite last_snoc|]. split.
    + apply Forall_app. split; [|done]. by apply Forall_app.
    + apply StronglySorted_snoc; [by apply StronglySorted_snoc|]. by apply Forall_app.
Qed.

(** Events that write no record leave the state as it is. *)
Lemma tracked_frame r evs seg w w' :
  tr r evs w ->
  trace w' = trace w ++ seg -> cache w' = cache w -> records seg = [] ->
  tr r (evs ++ seg) w'.
Proof.
  intros (Htr & Hc & Hframe & Hg & Hhead & Hlast & Hall & Hsorted) Htr' Hc' Hrec.
  unfold tracked. rewrite Htr', Htr, <- app_assoc, records_app, Hrec, app_nil_r, Hc'.
  done.
Qed.

(** A field that holds a string, after an update that may set it. *)
Lemma updated_string k us r r' old new :
  dict_get k r = Some (VStr old) ->
  default (VStr old) (dict_get k us) = VStr new ->
  dict_get k r' = match dict_get k us with
                  | Some v => Some (_json_safe (merge_field (dict_get k r) k v))
                  | None => dict_get k r
                  end ->
  dict_get k r' = Some (VStr new).
Proof.
  intros Hold Hnew ->. destruct (dict_get k us) as [v|]; simpl in Hnew.
  - by subst v.
  - congruence.
Qed.

(** The rule for [update_fields]: the update brings the record from the
    phase [(s0, g0)] to the phase [(s, g)]. *)
Lemma lc_update s0 g0 s g us r evs w Q :
  tr r evs w -> in_phase s0 g0 r ->
  NoDup (us.*1) ->
  dict_get "task_id" us = None ->
  dict_get "progress" us = None ->
  dict_get "created_at" us = None ->
  dict_get "request" us = None ->
  (forall v, dict_get "details" us = Some v -> is_dict v = true) ->
  default (VStr s0) (dict_get "status" us) = VStr s ->
  default (VStr s0) (dict_get "state" us) = VStr s ->
  default (VStr g0) (dict_get "stage" us) = VStr g ->
  In (s, g) phases ->
  (rank s0 <= rank s)%nat -> (rank s0 = 2%nat -> s0 = s) ->
  (forall r' w' evs', tr r' evs' w' -> in_phase s g r' -> Q (Ret (VDict r')) w') ->
  wp (update_fields wall iso st task_id us) w Q.
Proof.
  intros Hst (Hs0 & Hs0' & Hg0) Hnd Htid Hprog Hcr Hreq Hdet Hstatus Hstate Hstage
         Hin Hle Hterm HQ.
  pose proof (tracked_current _ _ _ Hst) as [_ (Ho1 & Ho2 & Ho3)].
  pose proof Hst as (Htr & Hc & Hframe & Hg & Hhead & Hlast & Hall & Hsorted).
  destruct Hg as [Hid Hsafe [d Hd] [l Hl]].
  destruct (update_fields_stored wall iso st task_id w r (ttl st) us)
    as (r' & w' & tail & Heq & Hcache & _ & Htrace & Htail & Hid' & Hsafe' & Hfields);
    try done.
  { intros k v _. apply mergeable_wellformed; intros x Hx; rewrite ?Hd, ?Hl in Hx;
      by injection Hx as <-. }
  assert (forall k, k <> "updated_at"%string ->
                    dict_get k r' =
                    match dict_get k us with
                    | Some v => Some (_json_safe (merge_field (dict_get k r) k v))
                    | None => dict_get k r
                    end) as Hfields'.
  { intros k Hk. rewrite Hfields. by destruct (String.eqb_spec k "updated_at"). }
  assert (in_phase s g r') as Hph.
  { split; [|split]; eapply updated_string; try eassumption; by apply Hfields'. }
  unfold wp. rewrite Heq. simpl.
  destruct (records_segment st task_id r' tail Htail) as [Hrec _].
  apply (HQ r' w' (evs ++ CacheGet (_key st task_id)
                        :: CacheSet (_key st task_id) (VDict r') (ttl st) :: tail));
    [|done].
  eapply tracked_written; try done.
  - split; [done|done| |].
    + rewrite Hfields' by done.
      destruct (dict_get "details" us) as [v|] eqn:Hv; [|eauto].
      specialize (Hdet v eq_refl). destruct v; try done. simpl. rewrite Hd. simpl. eauto.
    + rewrite Hfields' by done. rewrite Hprog. eauto.
  - by exists s, g.
  - unfold same_origin. rewrite !Hfields' by done. by rewrite Htid, Hcr, Hreq.
  - exists s0, s. destruct Hph as (? & _). done.
Qed.

(** The rule for [append_progress]: the phase stays. *)
Lemma lc_append s g message stage extra r evs w Q :
  tr r evs w -> in_phase s g r ->
  (forall r' w' evs', tr r' evs' w' -> in_phase s g r' -> Q (Ret tt) w') ->
  wp (append_progress wall iso st task_id message stage extra) w Q.
Proof.
  intros Hst Hnow HQ.
  pose proof (tracked_current _ _ _ Hst) as [(s' & g' & Hin & Hph) (Ho1 & Ho2 & Ho3)].
  pose proof Hst as (Htr & Hc & Hframe & Hg & Hhead & Hlast & Hall & Hsorted).
  destruct Hg as [Hid Hsafe [d Hd] [l Hl]].
  destruct (append_progress_stored wall iso st task_id w r (ttl st) l message stage extra)
    as (r' & w' & tail & Heq & Hcache & _ & Htrace & Htail & Hid' & Hsafe' & Hprog & Hfields);
    try done.
  unfold wp. rewrite Heq. simpl.
  destruct (records_segment st task_id r' tail Htail) as [Hrec _].
  assert (forall s g, in_phase s g r -> in_phase s g r') as Hkeep.
  { intros s1 g1 (? & ? & ?). unfold in_phase. by rewrite !Hfields. }
  apply (HQ r' w' (evs ++ CacheGet (_key st task_id)
                        :: CacheSet (_key st task_id) (VDict r') (ttl st) :: tail));
    [|by apply Hkeep].
  eapply tracked_written; try done.
  - split; [done|done| |eauto]. rewrite Hfields by done. eauto.
  - exists s', g'. split; [done|]. by apply Hkeep.
  - unfold same_origin. by rewrite !Hfields.
  - destruct Hph as (Hs & _). apply (advances_same _ _ s'); [done|]. by rewrite Hfields.
Qed.

Lemma lc_submit lbl ep payload r evs w Q :
  tr r evs w ->
  (forall o w' evs', tr r evs' w' -> Q o w') ->
  wp (submit lbl ep payload) w Q.
Proof.
  intros Hst HQ. unfold wp.
  destruct (submit_frame lbl ep payload w) as [Htr Hc].
  apply (HQ _ _ (evs ++ [Submit lbl payload])). by eapply tracked_frame.
Qed.

Lemma lc_wait fuel lbl ep job_id timeout r evs w Q :
  tr r evs w ->
  (forall o w' evs', tr r evs' w' -> Q o w') ->
  wp (wait fuel lbl ep job_id timeout) w Q.
Proof.
  intros Hst HQ. unfold wp, wait.
  destruct (wait_frame fuel lbl ep job_id timeout 0%nat w) as (Hc & polls & Ht & Hr & Hs).
  apply (HQ _ _ (evs ++ polls)). by eapply tracked_frame.
Qed.

End LifecycleRules.

(** ** The life cycle of a record through the engine *)

Lemma open_running g r :
  in_phase "running" g r -> In ("running"%string, g) phases -> open_phase r.
Proof.
  intros Hph Hin. exists "running"%string, g. split; [done|]. split; [done|].
  rewrite rank_running. lia.
Qed.

Ltac phase_side :=
  first
    [ assumption
    | reflexivity
    | by (simpl; auto 10)
    | by (rewrite ?rank_pending, ?rank_running, ?rank_completed, ?rank_failed in *; lia)
    | by (intros ?; exfalso;
          rewrite ?rank_pending, ?rank_running, ?rank_completed, ?rank_failed in *; lia) ].

Ltac lc_update_step s g r w evs Htr Hph :=
  apply wp_bind; eapply (lc_update _ _ _ _ _ _ _ _ _ s g);
  [ eassumption | eassumption
  | side_conditions | side_conditions | side_conditions | side_conditions | side_conditions
  | side_conditions
  | reflexivity | reflexivity | reflexivity
  | phase_side | phase_side | phase_side
  | intros r w evs Htr Hph ].

Ltac lc_append_step r w evs Htr Hph :=
  apply wp_bind; eapply lc_append; [eassumption | eassumption | intros r w evs Htr Hph].

(** The run stops here, its record still open. *)
Ltac still_open :=
  eexists _, _; split; [eassumption|];
  first [ by (eapply open_running; [eassumption | simpl; auto 10])
        | by (eexists _, _; eauto) ].

Section LifecycleEngine.

Context (wall : nat -> Z) (iso : Z -> string).
Context (mgr : JobManager) (fuel : nat) (task_id : string).
Context (base : list event) (r0 : dict) (cache0 : gmap string (blob * Z)).

Local Abbreviation tr := (tracked (store mgr) task_id base r0 cache0).

Local Abbreviation stays_open :=
  (fun (w' : world) => exists r' evs', tr r' evs' w' /\ open_phase r').

(** Stage 1 leaves the record open. *)
Lemma voice_stage_open request script s0 g0 r evs w :
  tr r evs w -> in_phase s0 g0 r -> In (s0, g0) phases -> (rank s0 < 2)%nat ->
  wp (voice_stage wall iso mgr fuel task_id request script) w
     (fun o w' => stays_open w').
Proof.
  intros Hst Hph Hin Hrank. unfold voice_stage.
  destruct (sovits_endpoint mgr) as [ep|] eqn:Hep.
  2:{ apply wp_raise. still_open. }
  destruct (truthy (py_or (reference_audio_key request) (audio_key request))); simpl.
  2:{ apply wp_raise. still_open. }
  lc_update_step "running"%string "sovits"%string r1 w1 evs1 Hst1 Hph1.
  lc_append_step r2 w2 evs2 Hst2 Hph2.
  apply wp_bind. eapply lc_submit; [eassumption|]. intros o3 w3 evs3 Hst3.
  destruct o3 as [sovits_job_id|e|]; [|still_open..].
  lc_update_step "running"%string "sovits"%string r4 w4 evs4 Hst4 Hph4.
  lc_append_step r5 w5 evs5 Hst5 Hph5.
  apply wp_bind. eapply lc_wait; [eassumption|]. intros o6 w6 evs6 Hst6.
  destruct o6 as [sovits_status|e|]; [|still_open..].
  destruct sovits_status as [| | | | | |status|]; try (apply wp_raise; still_open).
  destruct (get_or_none "output" status) as [| | | | | |sovits_output|];
    try (apply wp_raise; still_open).
  destruct (truthy (get_or_none "output_key" sovits_output)) eqn:Hkey; simpl.
  2:{ apply wp_raise. still_open. }
  apply wp_bind.
  assert (forall request1 : PipelineRequest,
    wp (update_fields wall iso (store mgr) task_id
          [("details", VDict [("sovits_status", VDict status)]);
           ("intermediate", VDict [("sovits", VDict sovits_output)])]%string;;
        append_progress wall iso (store mgr) task_id "SoVITS completed"
          (Some "sovits"%string) None;;
        ret (set_audio_keys request1 (get_or_none "output_key" sovits_output)
               (py_or (reference_audio_key request) (audio_key request)),
             VDict sovits_output)) w6
       (fun o w' => stays_open w')) as Hrest.
  { intros request1.
    lc_update_step "running"%string "sovits"%string r7 w7 evs7 Hst7 Hph7.
    lc_append_step r8 w8 evs8 Hst8 Hph8.
    apply wp_ret. still_open. }
  destruct (truthy (get_or_none "audio_base64" sovits_output)).
  - destruct (has_len (get_or_none "audio_base64" sovits_output)).
    + apply wp_ret. apply Hrest.
    + apply wp_raise. still_open.
  - apply wp_ret. apply Hrest.
Qed.

(** Stage 3 leaves the record open. *)
Lemma face_stage_open request_dict wav_result intermediate g0 r evs w :
  tr r evs w -> in_phase "running" g0 r -> In ("running"%string, g0) phases ->
  wp (face_stage wall iso mgr fuel task_id request_dict wav_result intermediate) w
     (fun o w' => stays_open w').
Proof.
  intros Hst Hph Hin. unfold face_stage.
  destruct (face_endpoint mgr) as [ep|] eqn:Hep.
  2:{ apply wp_raise. still_open. }
  lc_update_step "running"%string "facefusion"%string r1 w1 evs1 Hst1 Hph1.
  lc_append_step r2 w2 evs2 Hst2 Hph2.
  apply wp_bind. eapply lc_submit; [eassumption|]. intros o3 w3 evs3 Hst3.
  destruct o3 as [face_job_id|e|]; [|still_open..].
  lc_update_step "running"%string "facefusion"%string r4 w4 evs4 Hst4 Hph4.
  lc_append_step r5 w5 evs5 Hst5 Hph5.
  apply wp_bind. eapply lc_wait; [eassumption|]. intros o6 w6 evs6 Hst6.
  destruct o6 as [face_status|e|]; [|still_open..].
  destruct face_status as [| | | | | |status|]; try (apply wp_raise; still_open).
  destruct (get_or_none "output" status) as [| | | | | |face_output|];
    try (apply wp_raise; still_open).
  apply wp_bind.
  assert (forall final_result : dict,
    wp (append_progress wall iso (store mgr) task_id "FaceFusion completed"
          (Some "facefusion"%string) None;;
        update_fields wall iso (store mgr) task_id
          [("details",
            VDict [("facefusion_status",
                    VDict (dict_set "output" (VDict final_result) status))])]%string;;
        ret final_result) w6
       (fun o w' => stays_open w')) as Hrest.
  { intros final_result.
    lc_append_step r7 w7 evs7 Hst7 Hph7.
    lc_update_step "running"%string "facefusion"%string r8 w8 evs8 Hst8 Hph8.
    apply wp_ret. still_open. }
  destruct (truthy (VDict intermediate)).
  - apply wp_lift. destruct (attach_intermediate face_output intermediate) as [e|final_result].
    + still_open.
    + apply Hrest.
  - apply wp_ret. apply Hrest.
Qed.

Local Abbreviation ends_completed :=
  (fun (o : outcome unit) (w' : world) =>
     exists r' evs', tr r' evs' w' /\ o = Ret tt /\ in_phase "completed" "completed" r').

(** The success end of stages 2 and 3. *)
Lemma finish_completes final_result s0 g0 r evs w :
  tr r evs w -> in_phase s0 g0 r -> (rank s0 < 2)%nat ->
  wp (update_fields wall iso (store mgr) task_id (completed (VDict final_result));;
      append_progress wall iso (store mgr) task_id "Pipeline completed"
        (Some "completed"%string) None) w
     ends_completed.
Proof.
  intros Hst Hph Hrank.
  lc_update_step "completed"%string "completed"%string r1 w1 evs1 Hst1 Hph1.
  eapply lc_append; [eassumption|eassumption|]. intros r2 w2 evs2 Hst2 Hph2.
  by exists r2, evs2.
Qed.

(** The audio-only end. *)
Lemma finish_audio_only_completes request sovits_result s0 g0 r evs w :
  tr r evs w -> in_phase s0 g0 r -> (rank s0 < 2)%nat ->
  wp (finish_audio_only wall iso mgr task_id request sovits_result) w ends_completed.
Proof.
  intros Hst Hph Hrank. unfold finish_audio_only.
  lc_update_step "completed"%string "completed"%string r1 w1 evs1 Hst1 Hph1.
  eapply lc_append; [eassumption|eassumption|]. intros r2 w2 evs2 Hst2 Hph2.
  by exists r2, evs2.
Qed.

Local Abbreviation completed_or_open :=
  (fun (o : outcome unit) (w' : world) =>
     exists r' evs',
       tr r' evs' w'
       /\ match o with
          | Ret _ => in_phase "completed" "completed" r'
          | _ => open_phase r'
          end).

Lemma ends_completed_or_open o w' : ends_completed o w' -> completed_or_open o w'.
Proof. intros (r' & evs' & Hst & -> & Hph). by exists r', evs'. Qed.

(** Stage 2 and what follows it. *)
Lemma lipsync_stage_lifecycle request intermediate s0 g0 r evs w :
  tr r evs w -> in_phase s0 g0 r -> In (s0, g0) phases -> (rank s0 < 2)%nat ->
  wp (lipsync_stage wall iso mgr fuel task_id request intermediate) w completed_or_open.
Proof.
  intros Hst Hph Hin Hrank. unfold lipsync_stage.
  lc_update_step "running"%string "wav2lip"%string r1 w1 evs1 Hst1 Hph1.
  lc_append_step r2 w2 evs2 Hst2 Hph2.
  destruct (wav_endpoint mgr) as [ep|] eqn:Hep.
  2:{ apply wp_raise. still_open. }
  apply wp_bind. eapply lc_submit; [eassumption|]. intros o3 w3 evs3 Hst3.
  destruct o3 as [wav_job_id|e|]; [|still_open..].
  lc_update_step "running"%string "wav2lip"%string r4 w4 evs4 Hst4 Hph4.
  lc_append_step r5 w5 evs5 Hst5 Hph5.
  apply wp_bind. eapply lc_wait; [eassumption|]. intros o6 w6 evs6 Hst6.
  destruct o6 as [wav_status|e|]; [|still_open..].
  destruct wav_status as [| | | | | |status|]; try (apply wp_raise; still_open).
  destruct (wav_result_of (get_or_none "output" status)) as [wav_result|];
    [|apply wp_raise; still_open].
  lc_update_step "running"%string "wav2lip"%string r7 w7 evs7 Hst7 Hph7.
  lc_append_step r8 w8 evs8 Hst8 Hph8.
  set (intermediate' := dict_set "wav2lip" (VDict wav_result) intermediate) in *.
  apply wp_bind. destruct (needs_facefusion request).
  - eapply wp_mono;
      [apply (face_stage_open _ _ _ "wav2lip"%string r8 evs8); [done|done|simpl; auto 10]|].
    intros o9 w9 (r9 & evs9 & Hst9 & s9 & g9 & Hph9 & Hin9 & Hrank9).
    destruct o9 as [final_result|e|]; [|exists r9, evs9; split; [done|]; by exists s9, g9..].
    eapply wp_mono; [by apply (finish_completes _ s9 g9 r9 evs9)|].
    apply ends_completed_or_open.
  - assert (forall final_result,
      wp (update_fields wall iso (store mgr) task_id (completed (VDict final_result));;
          append_progress wall iso (store mgr) task_id "Pipeline completed"
            (Some "completed"%string) None) w8 completed_or_open) as Hrest.
    { intros final_result.
      eapply wp_mono;
        [apply (finish_completes _ "running"%string "wav2lip"%string r8 evs8);
         [done|done|rewrite rank_running; lia]|].
      apply ends_completed_or_open. }
    destruct (truthy (VDict intermediate')).
    + apply wp_lift.
      destruct (attach_intermediate_shared wav_result intermediate') as [e|final_result].
      * still_open.
      * apply Hrest.
    + apply wp_ret. apply Hrest.
Qed.

(** The body of the [try]. *)
Lemma execute_body_lifecycle request s0 g0 r evs w :
  tr r evs w -> in_phase s0 g0 r -> In (s0, g0) phases -> (rank s0 < 2)%nat ->
  wp (_execute_body wall iso mgr fuel task_id request) w completed_or_open.
Proof.
  intros Hst Hph Hin Hrank. unfold _execute_body.
  apply wp_bind.
  destruct (truthy (VStr (script_of request))).
  - eapply wp_mono; [by apply (voice_stage_open _ _ s0 g0 r evs)|].
    intros o1 w1 (r1 & evs1 & Hst1 & s1 & g1 & Hph1 & Hin1 & Hrank1).
    destruct o1 as [[request' sovits_result]|e|];
      [|exists r1, evs1; split; [done|]; by exists s1, g1..].
    simpl. destruct (needs_wav2lip request'); simpl.
    + by apply (lipsync_stage_lifecycle _ _ s1 g1 r1 evs1).
    + eapply wp_mono; [by apply (finish_audio_only_completes _ _ s1 g1 r1 evs1)|].
      apply ends_completed_or_open.
  - destruct (negb (truthy (audio_key request)) && negb (truthy (audio_base64 request))).
    + apply wp_raise. still_open.
    + apply wp_ret. simpl. destruct (needs_wav2lip request); simpl.
      * by apply (lipsync_stage_lifecycle _ _ s0 g0 r evs).
      * eapply wp_mono; [by apply (finish_audio_only_completes _ _ s0 g0 r evs)|].
        apply ends_completed_or_open.
Qed.

(** The handler ends the run with a failed record. *)
Lemma on_failure_fails exc s0 g0 r evs w :
  tr r evs w -> in_phase s0 g0 r -> (rank s0 < 2)%nat ->
  wp (on_failure wall iso mgr task_id exc) w
     (fun o w' =>
        exists r' evs', tr r' evs' w' /\ o = Ret tt /\ in_phase "failed" "failed" r').
Proof.
  intros Hst Hph Hrank. unfold on_failure.
  lc_update_step "failed"%string "failed"%string r1 w1 evs1 Hst1 Hph1.
  eapply lc_append; [eassumption|eassumption|]. intros r2 w2 evs2 Hst2 Hph2.
  by exists r2, evs2.
Qed.

(** The engine with its failure handler: no exception comes out, and a
    run that returns has written a terminal record last. *)
Lemma execute_lifecycle request s0 g0 r evs w :
  tr r evs w -> in_phase s0 g0 r -> In (s0, g0) phases -> (rank s0 < 2)%nat ->
  wp (_execute wall iso mgr fuel task_id request) w
     (fun o w' =>
        exists r' evs',
          tr r' evs' w'
          /\ match o with
             | Ret _ => terminal r'
             | Raise _ => False
             | Pending => open_phase r'
             end).
Proof.
  intros Hst Hph Hin Hrank. unfold _execute. apply wp_try.
  eapply wp_mono; [by apply (execute_body_lifecycle _ s0 g0 r evs w)|].
  intros o w1 (r1 & evs1 & Hst1 & Ho).
  destruct o as [[]|e|].
  - exists r1, evs1. split; [done|]. apply in_phase_terminal. by left.
  - destruct Ho as (s1 & g1 & Hph1 & Hin1 & Hrank1).
    eapply wp_mono; [by apply (on_failure_fails _ s1 g1 r1 evs1)|].
    intros o2 w2 (r2 & evs2 & Hst2 & -> & Hph2).
    exists r2, evs2. split; [done|]. apply in_phase_terminal. by right.
  - by exists r1, evs1.
Qed.

End LifecycleEngine.

(** ** Submission *)

(** What [JobManager.submit] does with a request it accepts. *)
Lemma submit_accepted wall iso mgr task_id req w :
  needs_wav2lip req && negb (configured (wav_endpoint mgr)) = false ->
  JobManager_submit wall iso mgr task_id req w =
  (Ret task_id,
   (write wall (store mgr)
      (job_record task_id (iso (wall (ticks w))) (iso (wall (S (ticks w)))) req)
      (World (cache w) (disk w) (S (S (ticks w))) (trace w))).2).
Proof.
  intros Hok. unfold JobManager_submit. rewrite Hok.
  unfold bind at 1 2 3, _now_iso. simpl.
  fold (job_record task_id (iso (wall (ticks w))) (iso (wall (S (ticks w)))) req).
  set (job0 := job_record task_id (iso (wall (ticks w))) (iso (wall (S (ticks w)))) req).
  set (w1 := World (cache w) (disk w) (S (S (ticks w))) (trace w)).
  destruct (write_world wall (store mgr) w1 job0 task_id eq_refl) as (Hret & _).
  destruct (write wall (store mgr) job0 w1) as [o w2]. simpl in *. by subst o.
Qed.

(** X18: [JobManager.submit] refuses a request that needs the lip-sync
    worker when none is configured, with a [RuntimeError], before it reads
    the clock or writes anything.  Any other request is accepted whatever
    other workers are missing: the task ID is returned and the record the
    store then gives for it is pending and queued, with the sanitised
    request, no result, no error, no intermediate output, an empty
    progress log and no details. *)
Theorem submit_rejects_before_writing wall iso mgr task_id req w :
  (needs_wav2lip req = true -> wav_endpoint mgr = None ->
   exists msg, JobManager_submit wall iso mgr task_id req w = (Raise (RuntimeError [VStr msg]), w))
  /\ (needs_wav2lip req = false \/ wav_endpoint mgr <> None ->
      exists r,
        (JobManager_submit wall iso mgr task_id req w).1 = Ret task_id
        /\ (get wall (store mgr) task_id (JobManager_submit wall iso mgr task_id req w).2).1
           = Ret (VDict r)
        /\ in_phase "pending" "queued" r
        /\ dict_get "task_id" r = Some (VStr task_id)
        /\ dict_get "request" r = Some (_json_safe (VDict (_request_to_dict req)))
        /\ dict_get "created_at" r = Some (VStr (iso (wall (ticks w))))
        /\ dict_get "updated_at" r = Some (VStr (iso (wall (S (ticks w)))))
        /\ dict_get "result" r = Some VNone /\ dict_get "error" r = Some VNone
        /\ dict_get "intermediate" r = Some VNone
        /\ dict_get "progress" r = Some (VList []) /\ dict_get "details" r = Some (VDict [])).
Proof.
  split.
  - intros Hneeds Hno. unfold JobManager_submit. rewrite Hneeds, Hno. simpl. eauto.
  - intros Hok.
    assert (needs_wav2lip req && negb (configured (wav_endpoint mgr)) = false) as Hacc.
    { destruct Hok as [->|Hep]; [done|]. destruct (wav_endpoint mgr); [|done].
      simpl. apply andb_false_r. }
    rewrite (submit_accepted wall iso mgr task_id req w Hacc).
    set (job0 := job_record task_id (iso (wall (ticks w))) (iso (wall (S (ticks w)))) req).
    set (w1 := World (cache w) (disk w) (S (S (ticks w))) (trace w)).
    destruct (write_world wall (store mgr) w1 job0 task_id eq_refl) as (_ & Hcache & _).
    exists (json_safe_dict job0). split; [done|]. split.
    + erewrite get_hit; [done|]. simpl. by rewrite Hcache, lookup_insert_eq.
    + by repeat split.
Qed.

Lemma submit_rejects_before_writing_witness :
  exists msg,
    JobManager_submit wall0 iso0
      {| store := store0; sovits_endpoint := None; wav_endpoint := None;
         face_endpoint := None; job_timeout := Some 1800 |}
      "t1" lipsync_request w0 = (Raise (RuntimeError [VStr msg]), w0).
Proof.
  exact (proj1 (submit_rejects_before_writing wall0 iso0
                  {| store := store0; sovits_endpoint := None; wav_endpoint := None;
                     face_endpoint := None; job_timeout := Some 1800 |}
                  "t1" lipsync_request w0) eq_refl eq_refl).
Defined.

(** ** Every run, from the submission on *)

Lemma job_record_pending task_id created_at updated_at req :
  in_phase "pending" "queued" (json_safe_dict (job_record task_id created_at updated_at req)).
Proof. by repeat split. Qed.

Lemma run_accepted wall iso mgr fuel task_id req w :
  needs_wav2lip req && negb (configured (wav_endpoint mgr)) = false ->
  run wall iso mgr fuel task_id req w =
  _execute wall iso mgr fuel task_id req
    (write wall (store mgr)
       (job_record task_id (iso (wall (ticks w))) (iso (wall (S (ticks w)))) req)
       (World (cache w) (disk w) (S (S (ticks w))) (trace w))).2.
Proof.
  intros Hacc. unfold run, bind. by rewrite (submit_accepted wall iso mgr task_id req w Hacc).
Qed.

(** The life cycle of the record of an accepted request. *)
Lemma run_lifecycle wall iso mgr fuel task_id req w0 :
  needs_wav2lip req && negb (configured (wav_endpoint mgr)) = false ->
  exists r evs,
    tracked (store mgr) task_id (trace w0)
            (json_safe_dict (job_record task_id (iso (wall (ticks w0)))
                                        (iso (wall (S (ticks w0)))) req))
            (cache w0) r evs (run wall iso mgr fuel task_id req w0).2
    /\ match (run wall iso mgr fuel task_id req w0).1 with
       | Ret _ => terminal r
       | Raise _ => False
       | Pending => open_phase r
       end.
Proof.
  intros Hacc.
  rewrite (run_accepted wall iso mgr fuel task_id req w0 Hacc).
  set (job0 := job_record task_id (iso (wall (ticks w0))) (iso (wall (S (ticks w0)))) req).
  set (w1 := World (cache w0) (disk w0) (S (S (ticks w0))) (trace w0)).
  set (r0 := json_safe_dict job0).
  destruct (write_world wall (store mgr) w1 job0 task_id eq_refl)
    as (_ & Hcache & _ & tail & Htrace & Htail).
  fold r0 in Hcache, Htrace.
  pose proof (job_record_pending task_id (iso (wall (ticks w0))) (iso (wall (S (ticks w0)))) req)
    as Hph0.
  fold job0 r0 in Hph0.
  assert (exists evs0,
             tracked (store mgr) task_id (trace w0) r0 (cache w0) r0 evs0
                     (write wall (store mgr) job0 w1).2) as (evs0 & Hst0).
  { assert (good task_id r0) as Hgood.
    { split; [done|apply json_safe_dict_idem|by exists []|by exists []]. }
    assert (coherent r0) as Hco.
    { exists "pending"%string, "queued"%string. split; [simpl; auto|done]. }
    assert (advances r0 r0) as Hadv.
    { by apply (advances_same _ _ "pending"). }
    assert (same_origin r0 r0) as Hor by done.
    assert (Forall (fun x => coherent x /\ same_origin r0 x /\ advances x r0) [r0]) as Hone.
    { by apply Forall_singleton. }
    assert (Forall (fun x => coherent x /\ same_origin r0 x /\ advances x r0) [r0; r0])
      as Htwo.
    { by apply Forall_cons. }
    assert (StronglySorted advances [r0]) as Hs1 by (repeat constructor).
    assert (StronglySorted advances [r0; r0]) as Hs2.
    { repeat constructor. done. }
    exists (CacheSet (_key (store mgr) task_id) (VDict r0) (ttl (store mgr)) :: tail).
    unfold tracked. rewrite Htrace, Hcache, lookup_insert_eq.
    split; [done|]. split; [done|].
    split; [intros k Hk; by rewrite lookup_insert_ne|].
    split; [done|].
    destruct Htail as [->|[now ->]]; simpl;
      (split; [done|]); (split; [done|]); by split. }
  pose proof (execute_lifecycle wall iso mgr fuel task_id (trace w0) r0 (cache w0) req
                "pending"%string "queued"%string r0 evs0 _ Hst0 Hph0) as Hexec.
  unfold wp in Hexec. apply Hexec; [simpl; auto|]. rewrite rank_pending. lia.
Qed.

Lemma run_rejected wall iso mgr fuel task_id req w0 :
  needs_wav2lip req && negb (configured (wav_endpoint mgr)) = true ->
  (run wall iso mgr fuel task_id req w0).2 = w0.
Proof. intros Hrej. unfold run, bind, JobManager_submit. by rewrite Hrej. Qed.

(** X19: the engine lets no exception out: once the submission is
    accepted, a run either returns or is still waiting for a worker.
    When it returns, the record it wrote last, which is the record the
    cache holds and [get] gives for the task, is terminal: completed or
    failed.  While it waits the record is neither. *)
Theorem engine_ends_with_terminal_record wall iso mgr fuel task_id req w0 :
  needs_wav2lip req && negb (configured (wav_endpoint mgr)) = false ->
  (forall e, (run wall iso mgr fuel task_id req w0).1 <> Raise e)
  /\ exists r evs,
       trace (run wall iso mgr fuel task_id req w0).2 = trace w0 ++ evs
       /\ last (records evs) = Some r
       /\ (get wall (store mgr) task_id (run wall iso mgr fuel task_id req w0).2).1
          = Ret (VDict r)
       /\ ((run wall iso mgr fuel task_id req w0).1 = Ret tt -> terminal r)
       /\ ((run wall iso mgr fuel task_id req w0).1 = Pending ->
           open_phase r /\ ~ terminal r).
Proof.
  intros Hacc.
  destruct (run_lifecycle wall iso mgr fuel task_id req w0 Hacc)
    as (r & evs & (Htr & Hc & _ & _ & _ & Hlast & _) & Ho).
  split.
  - intros e He. by rewrite He in Ho.
  - exists r, evs. split; [done|]. split; [done|].
    split; [by erewrite get_hit|]. split.
    + intros He. by rewrite He in Ho.
    + intros He. rewrite He in Ho. split; [done|].
      destruct Ho as (s & g & (Hs & _) & _ & Hrank).
      unfold terminal, status_is. rewrite Hs.
      intros [[= ->]|[= ->]]; [rewrite rank_completed in Hrank|rewrite rank_failed in Hrank];
        lia.
Qed.

Lemma engine_ends_with_terminal_record_witness :
  exists r evs,
    trace (run wall0 iso0 manager0 3 "t1" faceswap_request w0).2 = trace w0 ++ evs
    /\ last (records evs) = Some r
    /\ (get wall0 store0 "t1" (run wall0 iso0 manager0 3 "t1" faceswap_request w0).2).1
       = Ret (VDict r)
    /\ ((run wall0 iso0 manager0 3 "t1" faceswap_request w0).1 = Ret tt -> terminal r)
    /\ ((run wall0 iso0 manager0 3 "t1" faceswap_request w0).1 = Pending ->
        open_phase r /\ ~ terminal r).
Proof.
  exact (proj2 (engine_ends_with_terminal_record wall0 iso0 manager0 3 "t1" faceswap_request
                  w0 eq_refl)).
Defined.

(** What every run shows of the records it writes. *)
Lemma run_records wall iso mgr fuel task_id req w0 :
  exists evs,
    trace (run wall iso mgr fuel task_id req w0).2 = trace w0 ++ evs
    /\ Forall (fun r =>
                 coherent r
                 /\ same_origin (json_safe_dict
                                   (job_record task_id (iso (wall (ticks w0)))
                                               (iso (wall (S (ticks w0)))) req)) r)
              (records evs)
    /\ StronglySorted advances (records evs)
    /\ (forall k, k <> _key (store mgr) task_id ->
                  cache (run wall iso mgr fuel task_id req w0).2 !! k = cache w0 !! k)
    /\ (needs_wav2lip req && negb (configured (wav_endpoint mgr)) = false ->
        head (records evs) =
        Some (json_safe_dict (job_record task_id (iso (wall (ticks w0)))
                                         (iso (wall (S (ticks w0)))) req))).
Proof.
  destruct (needs_wav2lip req && negb (configured (wav_endpoint mgr))) eqn:Hacc.
  - rewrite (run_rejected wall iso mgr fuel task_id req w0 Hacc).
    exists []. rewrite app_nil_r. split; [done|]. split; [constructor|].
    split; [constructor|]. done.
  - destruct (run_lifecycle wall iso mgr fuel task_id req w0 Hacc)
      as (r & evs & (Htr & Hc & Hframe & _ & Hhead & Hlast & Hall & Hsorted) & Ho).
    exists evs. split; [done|]. split.
    + eapply Forall_impl; [exact Hall|]. by intros x (? & ? & ?).
    + split; [done|]. split; [done|]. done.
Qed.

(** X20: in every record a run writes, [status] and [state] hold the same
    value and [stage] goes with it: pending and queued, running and one
    of the three stages, completed and completed, failed and failed. *)
Theorem engine_records_are_coherent wall iso mgr fuel task_id req w0 :
  exists evs,
    trace (run wall iso mgr fuel task_id req w0).2 = trace w0 ++ evs
    /\ forall r, In r (records evs) ->
         exists s g,
           dict_get "status" r = Some (VStr s) /\ dict_get "state" r = Some (VStr s)
           /\ dict_get "stage" r = Some (VStr g)
           /\ In (s, g) [ ("pending", "queued"); ("running", "sovits"); ("running", "wav2lip");
                          ("running", "facefusion"); ("completed", "completed");
                          ("failed", "failed") ]%string.
Proof.
  destruct (run_records wall iso mgr fuel task_id req w0) as (evs & Htr & Hall & _).
  exists evs. split; [done|]. intros r Hr.
  rewrite Forall_forall in Hall. apply list_elem_of_In in Hr.
  destruct (Hall r Hr) as [(s & g & Hin & Hs & Hs' & Hg) _]. by exists s, g.
Qed.

(** X21: what the submission fixed stays: every record a run writes has
    the task ID, the creation time and the request of the submitted
    record.  The voice stage rewrites the audio keys of the request it
    hands to the workers, not those of the stored request. *)
Theorem engine_keeps_submitted_request wall iso mgr fuel task_id req w0 :
  exists evs,
    trace (run wall iso mgr fuel task_id req w0).2 = trace w0 ++ evs
    /\ forall r, In r (records evs) ->
         dict_get "task_id" r = Some (VStr task_id)
         /\ dict_get "created_at" r = Some (VStr (iso (wall (ticks w0))))
         /\ dict_get "request" r = Some (_json_safe (VDict (_request_to_dict req))).
Proof.
  destruct (run_records wall iso mgr fuel task_id req w0) as (evs & Htr & Hall & _).
  exists evs. split; [done|]. intros r Hr.
  rewrite Forall_forall in Hall. apply list_elem_of_In in Hr.
  by destruct (Hall r Hr) as [_ (-> & -> & ->)].
Qed.

(** X22: along the records of a run the status only moves forward, from
    pending to running to completed or failed, and a terminal status is
    never followed by another one: for any record and any later one, the
    status of the later is the same or further on, and the same if the
    earlier is terminal.  The first record of an accepted request is the
    pending one of the submission. *)
Theorem engine_status_only_advances wall iso mgr fuel task_id req w0 :
  exists evs,
    trace (run wall iso mgr fuel task_id req w0).2 = trace w0 ++ evs
    /\ StronglySorted advances (records evs)
    /\ (needs_wav2lip req && negb (configured (wav_endpoint mgr)) = false ->
        exists r, head (records evs) = Some r /\ in_phase "pending" "queued" r).
Proof.
  destruct (run_records wall iso mgr fuel task_id req w0)
    as (evs & Htr & _ & Hsorted & _ & Hhead).
  exists evs. split; [done|]. split; [done|].
  intros Hacc. eexists. split; [by apply Hhead|]. apply job_record_pending.
Qed.

Lemma engine_status_only_advances_witness :
  exists evs,
    trace (run wall0 iso0 manager0 3 "t1" faceswap_request w0).2 = trace w0 ++ evs
    /\ StronglySorted advances (records evs)
    /\ exists r, head (records evs) = Some r /\ in_phase "pending" "queued" r.
Proof.
  destruct (engine_status_only_advances wall0 iso0 manager0 3 "t1" faceswap_request w0)
    as (evs & Htr & Hsorted & Hhead).
  exists evs. split; [exact Htr|]. split; [exact Hsorted|]. exact (Hhead eq_refl).
Defined.

(** X23: a run changes the cache under the key of its own task only:
    whatever the request, the workers and the outcome, every other entry
    of the cache is after the run what it was before. *)
Theorem engine_leaves_other_tasks_alone wall iso mgr fuel task_id req w0 :
  forall k, k <> _key (store mgr) task_id ->
            cache (run wall iso mgr fuel task_id req w0).2 !! k = cache w0 !! k.
Proof.
  destruct (run_records wall iso mgr fuel task_id req w0) as (evs & _ & _ & _ & Hframe & _).
  exact Hframe.
Qed.

Lemma engine_leaves_other_tasks_alone_witness :
  cache (run wall0 iso0 manager0 3 "t1" faceswap_request garbled_cache).2 !! "ff:task:t2"%string
  = cache garbled_cache !! "ff:task:t2"%string.
Proof.
  apply (engine_leaves_other_tasks_alone wall0 iso0 manager0 3 "t1" faceswap_request
           garbled_cache "ff:task:t2"%string).
  discriminate.
Defined.

(** ** Waiting for a task *)




Section CompletionFacts.

Context (wall : nat -> Z) (mgr : JobManager).
Context (others : nat -> world -> world) (waited : nat -> Z).

Lemma wait_for_completion_unfold fuel task_id timeout k w :
  wait_for_completion_from wall mgr others waited (S fuel) task_id timeout k w =
  match get wall (store mgr) task_id w with
  | (Ret record, w') =>
      if negb (truthy record) then (Raise (http_exception 404 "Task not found"), w')
      else
        match record with
        | VDict d =>
            if negb (hashable (get_or_none "status" d))
            then (Raise (Error "TypeError" "unhashable type"), w')
            else if is_terminal_status (get_or_none "status" d) then (Ret record, w')
            else if overdue timeout (waited k) then (Raise (Error "TimeoutError" ""), w')
            else wait_for_completion_from wall mgr others waited fuel task_id timeout (S k)
                   (others k w')
        | _ => (Raise (no_attribute "get"), w')
        end
  | (Raise e, w') => (Raise e, w')
  | (Pending, w') => (Pending, w')
  end.
Proof.
  simpl. unfold bind at 1, get_task.
  destruct (get wall (store mgr) task_id w) as [[record|e|] w']; try done.
  destruct (negb (truthy record)); [done|].
  destruct record; try done.
  destruct (negb (hashable (get_or_none "status" d))); [done|].
  destruct (is_terminal_status (get_or_none "status" d)); [done|].
  by destruct (overdue timeout (waited k)).
Qed.


Lemma status_terminal d :
  terminal d ->
  hashable (get_or_none "status" d) = true
  /\ is_terminal_status (get_or_none "status" d) = true.
Proof. unfold terminal, status_is, get_or_none. by intros [->| ->]. Qed.


(** A terminal record in the cache ends the wait at the first lookup. *)
Lemma wait_for_completion_hit fuel task_id timeout k w r ex :
  cache w !! _key (store mgr) task_id = Some (Json (VDict r), ex) ->
  r <> [] -> terminal r ->
  wait_for_completion_from wall mgr others waited (S fuel) task_id timeout k w =
  (Ret (VDict r),
   World (cache w) (disk w) (ticks w) (trace w ++ [CacheGet (_key (store mgr) task_id)])).
Proof.
  intros Hhit Hne Hterm. rewrite wait_for_completion_unfold.
  rewrite (get_hit wall (store mgr) task_id w _ _ Hhit).
  destruct r as [|kv r]; [done|]. simpl negb. cbv iota.
  destruct (status_terminal _ Hterm) as [-> ->]. done.
Qed.


End CompletionFacts.




(** X25: a client that waits after the engine has returned gets the
    terminal record at once: for an accepted request whose run has
    returned, [wait_for_completion] ends at its first lookup, a cache
    read, with the record the run wrote last, completed or failed,
    whatever the timeout and the clock. *)
Theorem wait_for_completion_after_run wall iso mgr fuel task_id req w0 others waited n timeout :
  needs_wav2lip req && negb (configured (wav_endpoint mgr)) = false ->
  (run wall iso mgr fuel task_id req w0).1 = Ret tt ->
  exists r evs,
    trace (run wall iso mgr fuel task_id req w0).2 = trace w0 ++ evs
    /\ last (records evs) = Some r
    /\ terminal r
    /\ wait_for_completion wall mgr others waited (S n) task_id timeout
         (run wall iso mgr fuel task_id req w0).2
       = (Ret (VDict r),
          World (cache (run wall iso mgr fuel task_id req w0).2)
                (disk (run wall iso mgr fuel task_id req w0).2)
                (ticks (run wall iso mgr fuel task_id req w0).2)
                (trace (run wall iso mgr fuel task_id req w0).2
                 ++ [CacheGet (_key (store mgr) task_id)])).
Proof.
  intros Hacc Hret.
  destruct (run_lifecycle wall iso mgr fuel task_id req w0 Hacc)
    as (r & evs & (Htr & Hc & _ & Hg & _ & Hlast & _) & Ho).
  rewrite Hret in Ho. exists r, evs. split; [done|]. split; [done|]. split; [done|].
  eapply wait_for_completion_hit; [done| |done].
  destruct Hg as [Hid _ _ _]. by destruct r.
Qed.

Lemma wait_for_completion_after_run_witness :
  exists r evs,
    trace (run wall0 iso0 manager0 3 "t1" lipsync_request w0).2 = trace w0 ++ evs
    /\ last (records evs) = Some r
    /\ terminal r
    /\ wait_for_completion wall0 manager0 (fun _ w => w) (fun k => Z.of_nat k) 1 "t1" None
         (run wall0 iso0 manager0 3 "t1" lipsync_request w0).2
       = (Ret (VDict r),
          World (cache (run wall0 iso0 manager0 3 "t1" lipsync_request w0).2)
                (disk (run wall0 iso0 manager0 3 "t1" lipsync_request w0).2)
                (ticks (run wall0 iso0 manager0 3 "t1" lipsync_request w0).2)
                (trace (run wall0 iso0 manager0 3 "t1" lipsync_request w0).2
                 ++ [CacheGet (_key (store manager0) "t1")])).
Proof.
  exact (wait_for_completion_after_run wall0 iso0 manager0 3 "t1" lipsync_request w0
           (fun _ w => w) (fun k => Z.of_nat k) 0 None eq_refl eq_refl).
Defined.

(** ** The failure handler *)

(** X27: the handler of the engine, run on a record the store holds,
    returns normally and leaves a failed record: [status], [state] and
    [stage] are [failed]; [error] is the sanitised payload of
    [_normalise_exception], an object with an [error] entry, never null;
    the progress log has one more entry, with the message
    [Pipeline failed], the stage [failed] and the payload as extra; and
    every other field but [updated_at], the result among them, is what
    it was. *)
Theorem on_failure_records_error wall iso mgr task_id exc w r ex old :
  cache w !! _key (store mgr) task_id = Some (Json (VDict r), ex) ->
  dict_get "task_id" r = Some (VStr task_id) ->
  json_safe_dict r = r ->
  (forall x, dict_get "details" r = Some x -> is_dict x = true) ->
  dict_get "progress" r = Some (VList old) ->
  exists r' w' entry,
    on_failure wall iso mgr task_id exc w = (Ret tt, w')
    /\ cache w' !! _key (store mgr) task_id = Some (Json (VDict r'), ttl (store mgr))
    /\ in_phase "failed" "failed" r'
    /\ dict_get "error" r' = Some (_json_safe (VDict (_normalise_exception exc)))
    /\ (exists payload tag,
          dict_get "error" r' = Some (VDict payload) /\ dict_get "error" payload = Some tag)
    /\ dict_get "progress" r' = Some (VList (old ++ [VDict entry]))
    /\ dict_get "message" entry = Some (VStr "Pipeline failed")
    /\ dict_get "stage" entry = Some (VStr "failed")
    /\ dict_get "extra" entry = Some (_json_safe (VDict (_normalise_exception exc)))
    /\ (forall k, ~ In k ["status"; "state"; "stage"; "error"; "progress"; "updated_at"]%string ->
                  dict_get k r' = dict_get k r).
Proof.
  intros Hhit Htid Hsafe Hdet Hprog. unfold on_failure.
  set (error := _normalise_exception exc).
  destruct (update_fields_stored wall iso (store mgr) task_id w r ex (failed error))
    as (r1 & w1 & tail1 & Heq1 & Hcache1 & Hticks1 & _ & _ & Htid1 & Hsafe1 & Hfields1);
    try done.
  { apply concrete_NoDup. reflexivity. }
  { intros k v _. apply mergeable_wellformed; [done|].
    intros x Hx. rewrite Hprog in Hx. by injection Hx as <-. }
  assert (dict_get "progress" r1 = Some (VList old)) as Hprog1.
  { by rewrite Hfields1. }
  destruct (append_progress_stored wall iso (store mgr) task_id w1 r1 (ttl (store mgr)) old
              "Pipeline failed" (Some "failed"%string) (Some error))
    as (r2 & w2 & tail2 & Heq2 & Hcache2 & _ & _ & _ & Htid2 & Hsafe2 & Hprog2 & Hfields2);
    try done.
  { by rewrite Hcache1, lookup_insert_eq. }
  assert (exists v, dict_get "error" error = Some v) as [tag Htag].
  { apply normalise_exception_error. }
  assert (exists kv rest, error = kv :: rest) as (kv & rest & Herr).
  { destruct error as [|kv rest]; [done|]. eauto. }
  set (entry := progress_entry (iso (wall (ticks w1))) "Pipeline failed"
                               (Some "failed"%string) (Some error)) in *.
  destruct (progress_entry_fields (iso (wall (ticks w1))) "Pipeline failed"
              (Some "failed"%string) (Some error)) as (_ & Hmsg & Hstage & Hextra).
  fold entry in Hmsg, Hstage, Hextra. simpl in Hstage. rewrite Herr in Hextra.
  exists r2, w2, (json_safe_dict entry).
  split; [unfold bind; by rewrite Heq1|].
  split; [by rewrite Hcache2, lookup_insert_eq|].
  split; [unfold in_phase; rewrite !Hfields2 by done; by rewrite !Hfields1|].
  split; [rewrite Hfields2 by done; by rewrite Hfields1|].
  split.
  { exists (json_safe_dict error), (_json_safe tag).
    rewrite Hfields2 by done. rewrite Hfields1. simpl. split; [done|].
    by rewrite dict_get_json_safe, Htag. }
  split; [done|].
  split; [by rewrite dict_get_json_safe, Hmsg|].
  split; [by rewrite dict_get_json_safe, Hstage|].
  split; [rewrite dict_get_json_safe, Hextra; by rewrite Herr|].
  intros k Hk. simpl in Hk.
  assert (k <> "status" /\ k <> "state" /\ k <> "stage" /\ k <> "error"
          /\ k <> "progress" /\ k <> "updated_at")%string as (? & ? & ? & ? & ? & ?).
  { repeat split; intros ->; apply Hk; auto 10. }
  rewrite Hfields2 by done. rewrite Hfields1. simpl.
  repeat match goal with
         | |- context [String.eqb k ?s] => destruct (String.eqb_spec k s); [done|]
         end.
  done.
Qed.

Lemma on_failure_records_error_witness :
  exists r' w' entry,
    on_failure wall0 iso0 manager0 "t1"
      (error_payload "runpod_job_timeout" (VStr "late")) stored0 = (Ret tt, w')
    /\ cache w' !! _key (store manager0) "t1" = Some (Json (VDict r'), ttl (store manager0))
    /\ in_phase "failed" "failed" r'
    /\ dict_get "error" r' =
       Some (_json_safe (VDict (_normalise_exception
                                  (error_payload "runpod_job_timeout" (VStr "late")))))
    /\ (exists payload tag,
          dict_get "error" r' = Some (VDict payload) /\ dict_get "error" payload = Some tag)
    /\ dict_get "progress" r' = Some (VList ([] ++ [VDict entry]))
    /\ dict_get "message" entry = Some (VStr "Pipeline failed")
    /\ dict_get "stage" entry = Some (VStr "failed")
    /\ dict_get "extra" entry =
       Some (_json_safe (VDict (_normalise_exception
                                  (error_payload "runpod_job_timeout" (VStr "late")))))
    /\ (forall k, ~ In k ["status"; "state"; "stage"; "error"; "progress"; "updated_at"]%string ->
                  dict_get k r' = dict_get k record0).
Proof.
  refine (on_failure_records_error wall0 iso0 manager0 "t1"
            (error_payload "runpod_job_timeout" (VStr "late")) stored0 record0 604800 []
            eq_refl eq_refl eq_refl _ eq_refl).
  intros x Hx. vm_compute in Hx. injection Hx as <-. reflexivity.
Defined.
